(** * charms.tool: the configuration state manager, the memoization cache
      and the deferred-callback registry

    A shallow embedding of [charms/tool/utils.py] and of [config], [log],
    [status_set] and [status_get] from [charms/model/unit.py].

    Python objects live in a store: lists, dictionaries and [Config]
    instances are cells addressed by location, and a value is either a scalar
    or a reference to a cell, so that aliasing and in-place mutation are
    visible.  Functions of the source become state-passing functions over a
    [World] (store, module globals, environment, file system, the answers of
    the [config-get] tool) that return either a value or a raised exception;
    a raised exception keeps the state changes made before it.

    Conventions of the embedding:
    - JSON numbers are integers; floating point numbers are left out.
    - The text of a file or of a command's output is kept as what
      [json.load] makes of it: either it does not parse, or it denotes a
      JSON value (whose objects have distinct keys, as the parser returns
      them).
    - Mapping keys are strings.
    - Traversals of the store ([==], [json.dump], [copy.deepcopy]) take as
      fuel the number of cells of the store plus one: they give up only on a
      structure that contains itself. *)

From Stdlib Require Import ZArith String Ascii List Bool Lia.
From Stdlib Require Import DecimalString.
From stdpp Require Import base option list strings gmap.

Set Warnings "-register-all".
Local Open Scope string_scope.
Local Open Scope list_scope.
Local Open Scope nat_scope.

(** ** JSON values, as trees *)

Inductive json : Type :=
| JNull
| JBool (b : bool)
| JInt (n : Z)
| JStr (s : string)
| JList (xs : list json)
| JObj (kvs : list (string * json)).

(** What [json.load] makes of a text. *)
Inductive payload : Type :=
| Garbage
| Json (j : json).

(** ** Python values and the store *)

(** Cells are addressed by their index in the store. *)
Abbreviation loc := nat (only parsing).

Inductive val : Type :=
| VNone
| VBool (b : bool)
| VInt (n : Z)
| VStr (s : string)
| VRef (l : loc).

Definition items := list (string * val).

(** The attributes of a [Config] instance; [data] is the content of the
    dictionary the instance is (it subclasses [dict]). *)
Record Config : Type := mkConfig {
  data : items;
  implicit_save : bool;
  _prev_dict : val;
  path : string
}.

Inductive obj : Type :=
| OList (vs : list val)
| ODict (kvs : items)
| OConfig (c : Config).

Inductive exn : Type :=
| KeyError
| IndexError
| ValueError
| TypeError
| AttributeError
| FileNotFoundError
| CalledProcessError
| NameError
| RecursionError
| SystemError      (* a dangling reference: no run reaches it *)
| NotModelled.     (* a step outside the fragment of Python modelled here *)

Inductive res (A : Type) : Type :=
| Ret (a : A)
| Raise (e : exn).
Arguments Ret {A} a.
Arguments Raise {A} e.

(** What [atexit] is given to call: the source registers the bound method
    [self._implicit_save]; any other callable is kept by name. *)
Inductive callable : Type :=
| ImplicitSaveOf (self : loc)
| Named (name : string).

(** What running a command with [subprocess.check_output] gives. *)
Inductive proc : Type :=
| Output (p : payload)
| ExitNonZero
| NotFound.

Record World : Type := mkWorld {
  heap : list obj;
  cache : gmap string val;
  _atexit : list (callable * list val * items);
  environ : gmap string string;
  files : gmap string payload;
  tool : list string -> proc;
  ran : list (list string)
}.

(** Modelled from the spec: the module-level name [_atexit] that [atexit]
    appends to has no assignment in [utils.py]; it is the registry's
    "ordered sequence of (callback, positionalArgs, keywordArgs)",
    process-wide and empty at process start. *)
Definition start (env : gmap string string) (fs : gmap string payload)
    (t : list string -> proc) : World :=
  {| heap := []; cache := ∅; _atexit := []; environ := env; files := fs;
     tool := t; ran := [] |}.

Definition M (A : Type) : Type := World -> res A * World.

Definition ret {A} (a : A) : M A := fun w => (Ret a, w).
Definition raise {A} (e : exn) : M A := fun w => (Raise e, w).
Definition bind {A B} (m : M A) (f : A -> M B) : M B :=
  fun w => match m w with
           | (Ret a, w') => f a w'
           | (Raise e, w') => (Raise e, w')
           end.

Notation "'let*' x ':=' m 'in' k" := (bind m (fun x => k))
  (at level 10, x pattern, m at level 100, k at level 200).
Notation "m ';;' k" := (bind m (fun _ => k))
  (at level 100, k at level 200, right associativity).

Definition get_world : M World := fun w => (Ret w, w).
Definition set_heap (h : list obj) : M unit :=
  fun w => (Ret tt, {| heap := h; cache := cache w; _atexit := _atexit w;
                       environ := environ w; files := files w;
                       tool := tool w; ran := ran w |}).
Definition set_cache (c : gmap string val) : M unit :=
  fun w => (Ret tt, {| heap := heap w; cache := c; _atexit := _atexit w;
                       environ := environ w; files := files w;
                       tool := tool w; ran := ran w |}).
Definition set_atexit (r : list (callable * list val * items)) : M unit :=
  fun w => (Ret tt, {| heap := heap w; cache := cache w; _atexit := r;
                       environ := environ w; files := files w;
                       tool := tool w; ran := ran w |}).
Definition set_files (fs : gmap string payload) : M unit :=
  fun w => (Ret tt, {| heap := heap w; cache := cache w; _atexit := _atexit w;
                       environ := environ w; files := fs;
                       tool := tool w; ran := ran w |}).
Definition set_ran (r : list (list string)) : M unit :=
  fun w => (Ret tt, {| heap := heap w; cache := cache w; _atexit := _atexit w;
                       environ := environ w; files := files w;
                       tool := tool w; ran := r |}).

(** [try: m except exc: handler] *)
Definition try_except {A} (m : M A) (catches : exn -> bool) (handler : M A)
    : M A :=
  fun w => match m w with
           | (Raise e, w') => if catches e then handler w' else (Raise e, w')
           | r => r
           end.

(** ** Dictionaries with string keys, in insertion order *)

Fixpoint dict_get (d : items) (k : string) : option val :=
  match d with
  | [] => None
  | (k', v) :: d' => if String.eqb k' k then Some v else dict_get d' k
  end.

Definition dict_has (d : items) (k : string) : bool :=
  match dict_get d k with Some _ => true | None => false end.

(** [d[k] = v]: an existing key keeps its place. *)
Fixpoint dict_set (d : items) (k : string) (v : val) : items :=
  match d with
  | [] => [(k, v)]
  | (k', v') :: d' =>
      if String.eqb k' k then (k', v) :: d' else (k', v') :: dict_set d' k v
  end.

Fixpoint dict_del (d : items) (k : string) : items :=
  match d with
  | [] => []
  | (k', v') :: d' =>
      if String.eqb k' k then d' else (k', v') :: dict_del d' k
  end.

(** ** The store *)

Definition alloc (o : obj) : M loc :=
  fun w => let h := heap w in
           let (r, w') := set_heap (h ++ [o]) w in (Ret (length h), w').

Definition deref (l : loc) : M obj :=
  fun w => match heap w !! l with
           | Some o => (Ret o, w)
           | None => (Raise SystemError, w)
           end.

Definition store (l : loc) (o : obj) : M unit :=
  fun w => set_heap (<[l := o]> (heap w)) w.

(** The sequence or the mapping a cell holds; a [Config] is a [dict]. *)
Definition shape (o : obj) : list val + items :=
  match o with
  | OList vs => inl vs
  | ODict kvs => inr kvs
  | OConfig c => inr (data c)
  end.

(** [json.load] / [json.loads] on a text that parses: the value is built in
    fresh cells, children before their parent. *)
Fixpoint alloc_json (j : json) (h : list obj) : val * list obj :=
  match j with
  | JNull => (VNone, h)
  | JBool b => (VBool b, h)
  | JInt n => (VInt n, h)
  | JStr s => (VStr s, h)
  | JList xs =>
      let '(vs, h') :=
        (fix go (xs : list json) (h : list obj) : list val * list obj :=
           match xs with
           | [] => ([], h)
           | x :: xs' =>
               let '(v, h1) := alloc_json x h in
               let '(vs, h2) := go xs' h1 in (v :: vs, h2)
           end) xs h in
      (VRef (length h'), h' ++ [OList vs])
  | JObj kvs =>
      let '(its, h') :=
        (fix go (kvs : list (string * json)) (h : list obj)
           : items * list obj :=
           match kvs with
           | [] => ([], h)
           | (k, x) :: kvs' =>
               let '(v, h1) := alloc_json x h in
               let '(its, h2) := go kvs' h1 in ((k, v) :: its, h2)
           end) kvs h in
      (VRef (length h'), h' ++ [ODict its])
  end.

Definition json_load (p : payload) : M val :=
  match p with
  | Garbage => raise ValueError
  | Json j => fun w => let '(v, h) := alloc_json j (heap w) in
                       let (r, w') := set_heap h w in (Ret v, w')
  end.

(** The JSON value a Python value denotes, read through the store with
    [n] levels of nesting at most. *)
Fixpoint reify (n : nat) (h : list obj) (v : val) : option json :=
  match v with
  | VNone => Some JNull
  | VBool b => Some (JBool b)
  | VInt z => Some (JInt z)
  | VStr s => Some (JStr s)
  | VRef l =>
      match n with
      | 0 => None
      | S n' =>
          match shape <$> h !! l with
          | Some (inl vs) => JList <$> mapM (reify n' h) vs
          | Some (inr kvs) =>
              JObj <$> mapM (fun kv => pair kv.1 <$> reify n' h kv.2) kvs
          | None => None
          end
      end
  end.

Definition fuel (h : list obj) : nat := S (length h).

(** [copy.deepcopy], as the source uses it: applied to what [json.load]
    returned, it builds in fresh cells a value of the same shape. *)
Definition deepcopy (v : val) : M val :=
  fun w => match reify (fuel (heap w)) (heap w) v with
           | Some j => json_load (Json j) w
           | None => (Raise RecursionError, w)
           end.

(** ** Truth value and equality of Python values *)

Definition truthy (h : list obj) (v : val) : bool :=
  match v with
  | VNone => false
  | VBool b => b
  | VInt n => negb (n =? 0)%Z
  | VStr s => negb (String.eqb s "")
  | VRef l =>
      match shape <$> h !! l with
      | Some (inl []) | Some (inr []) => false
      | _ => true
      end
  end.

(** [a == b] where neither is a list or a mapping; [True == 1]. *)
Definition scalar_eq (a b : val) : bool :=
  match a, b with
  | VNone, VNone => true
  | VBool x, VBool y => Bool.eqb x y
  | VBool x, VInt n | VInt n, VBool x => (n =? (if x then 1 else 0))%Z
  | VInt n, VInt m => (n =? m)%Z
  | VStr s, VStr t => String.eqb s t
  | _, _ => false
  end.

(** Stops at the first [Some false] or [None], as the comparison loops do. *)
Fixpoint all_opt {A} (f : A -> option bool) (l : list A) : option bool :=
  match l with
  | [] => Some true
  | x :: l' => match f x with
               | Some true => all_opt f l'
               | r => r
               end
  end.

(** [a is b], where it can differ from [a == b]. *)
Definition same_object (a b : val) : bool :=
  match a, b with
  | VRef la, VRef lb => Nat.eqb la lb
  | _, _ => false
  end.

Fixpoint py_eq (n : nat) (h : list obj) (a b : val) : option bool :=
  match a, b with
  | VRef la, VRef lb =>
      match n with
      | 0 => None
      | S n' =>
          let item_eq x y :=
            if same_object x y then Some true else py_eq n' h x y in
          match shape <$> h !! la, shape <$> h !! lb with
          | Some (inl xs), Some (inl ys) =>
              if negb (Nat.eqb (length xs) (length ys)) then Some false
              else all_opt (fun xy => item_eq xy.1 xy.2) (zip xs ys)
          | Some (inr d), Some (inr e) =>
              if negb (Nat.eqb (length d) (length e)) then Some false
              else all_opt (fun kv => match dict_get e kv.1 with
                                      | None => Some false
                                      | Some y => item_eq kv.2 y
                                      end) d
          | Some _, Some _ => Some false
          | _, _ => None
          end
      end
  | VRef _, _ | _, VRef _ => Some false
  | _, _ => Some (scalar_eq a b)
  end.

(** [a != b] *)
Definition py_ne (a b : val) : M bool :=
  fun w => match py_eq (fuel (heap w)) (heap w) a b with
           | Some r => (Ret (negb r), w)
           | None => (Raise RecursionError, w)
           end.

(** ** [repr] and [str] *)

Definition quote1 : ascii := ascii_of_nat 39.
Definition quote2 : ascii := ascii_of_nat 34.
Definition backslash : ascii := ascii_of_nat 92.

Definition hex_digit (n : nat) : ascii :=
  nth n (list_ascii_of_string "0123456789abcdef") "0"%char.

(** Code points below 256 that [repr] leaves as they are. *)
Definition printable (n : nat) : bool :=
  (Nat.leb 32 n && Nat.ltb n 127)
  || (Nat.leb 161 n && negb (Nat.eqb n 173)).

Definition repr_char (q : ascii) (c : ascii) : string :=
  let n := nat_of_ascii c in
  if Ascii.eqb c backslash then String backslash (String backslash "")
  else if Ascii.eqb c q then String backslash (String q "")
  else if Nat.eqb n 9 then String backslash "t"
  else if Nat.eqb n 10 then String backslash "n"
  else if Nat.eqb n 13 then String backslash "r"
  else if printable n then String c ""
  else String backslash
         (String "x" (String (hex_digit (n / 16)) (String (hex_digit (n mod 16)) ""))).

Fixpoint has_char (c : ascii) (s : string) : bool :=
  match s with
  | EmptyString => false
  | String c' s' => Ascii.eqb c c' || has_char c s'
  end.

Fixpoint flat_map_string (f : ascii -> string) (s : string) : string :=
  match s with
  | EmptyString => EmptyString
  | String c s' => f c +:+ flat_map_string f s'
  end.

Definition repr_str (s : string) : string :=
  let q := if has_char quote1 s && negb (has_char quote2 s)
           then quote2 else quote1 in
  String q (flat_map_string (repr_char q) s) +:+ String q "".

Definition repr_int (n : Z) : string := NilZero.string_of_int (Z.to_int n).

Definition commas (l : list string) : string := String.concat ", " l.

(** [repr v]; [busy] holds the containers being printed, which print as
    [[...]] or [{...}] when met again. *)
Fixpoint py_repr (n : nat) (h : list obj) (busy : list loc) (v : val)
    : option string :=
  match v with
  | VNone => Some "None"
  | VBool b => Some (if b then "True" else "False")
  | VInt z => Some (repr_int z)
  | VStr s => Some (repr_str s)
  | VRef l =>
      match n with
      | 0 => None
      | S n' =>
          match shape <$> h !! l with
          | Some (inl vs) =>
              if bool_decide (l ∈ busy) then Some "[...]"
              else (fun ss => "[" +:+ commas ss +:+ "]")
                     <$> mapM (py_repr n' h (l :: busy)) vs
          | Some (inr kvs) =>
              if bool_decide (l ∈ busy) then Some "{...}"
              else (fun ss => "{" +:+ commas ss +:+ "}")
                     <$> mapM (fun kv =>
                                 (fun r => repr_str kv.1 +:+ ": " +:+ r)
                                   <$> py_repr n' h (l :: busy) kv.2) kvs
          | None => None
          end
      end
  end.

(** [repr] of the tuple [args] and of the dictionary [kwargs] of a call. *)
Definition repr_tuple (h : list obj) (args : list val) : option string :=
  (fun ss => match ss with
             | [s] => "(" +:+ s +:+ ",)"
             | _ => "(" +:+ commas ss +:+ ")"
             end) <$> mapM (py_repr (fuel h) h []) args.

Definition repr_kwargs (h : list obj) (kwargs : items) : option string :=
  (fun ss => "{" +:+ commas ss +:+ "}")
    <$> mapM (fun kv => (fun r => repr_str kv.1 +:+ ": " +:+ r)
                          <$> py_repr (fuel h) h [] kv.2) kwargs.

(** [s in t] for strings. *)
Fixpoint contains (s t : string) : bool :=
  String.prefix s t
  || match t with
     | EmptyString => false
     | String _ t' => contains s t'
     end.

(** ** [charms/tool/utils.py] *)

Definition charm_dir : M (option string) :=
  fun w => (Ret (environ w !! "CHARM_DIR"), w).

(** Schedule a callback to run on successful hook completion. *)
Definition atexit (callback : callable) (args : list val) (kwargs : items)
    : M val :=
  let* w := get_world in
  set_atexit (_atexit w ++ [(callback, args, kwargs)]);;
  ret VNone.

(** A function object: [str(func)], which names it and the address it
    lives at, and what calling it does. *)
Record pyfunc : Type := mkFunc {
  fn_str : string;
  fn_call : list val -> items -> M val
}.

(** [str((func, args, kwargs))] *)
Definition cache_key (func : pyfunc) (args : list val) (kwargs : items)
    : M string :=
  fun w => match repr_tuple (heap w) args, repr_kwargs (heap w) kwargs with
           | Some a, Some k =>
               (Ret ("(" +:+ fn_str func +:+ ", " +:+ a +:+ ", " +:+ k +:+ ")"), w)
           | _, _ => (Raise RecursionError, w)
           end.

(** The wrapper that [cached(func)] returns, called with [args] and
    [kwargs]. *)
Definition cached (func : pyfunc) (args : list val) (kwargs : items)
    : M val :=
  let* key := cache_key func args kwargs in
  let* w := get_world in
  match cache w !! key with
  | Some v => ret v
  | None =>
      let* r := fn_call func args kwargs in
      let* w' := get_world in
      set_cache (<[key := r]> (cache w'));;
      ret r
  end.

Definition flush (key : string) : M val :=
  let* w := get_world in
  set_cache (filter (fun kv => contains key kv.1 = false) (cache w));;
  ret VNone.

(** *** The class [Config] *)

Definition CONFIG_FILE_NAME : string := ".juju-persistent-config".

Fixpoint ends_with_sep (s : string) : bool :=
  match s with
  | EmptyString => false
  | String c EmptyString => Ascii.eqb c "/"%char
  | String _ s' => ends_with_sep s'
  end.

(** [os.path.join(a, b)] *)
Definition path_join (a b : string) : string :=
  if String.prefix "/" b then b
  else if String.eqb a "" || ends_with_sep a then a +:+ b
  else a +:+ "/" +:+ b.

(** [os.path.exists(p)] *)
Definition path_exists (p : string) : M bool :=
  fun w => (Ret (bool_decide (is_Some (files w !! p))), w).

(** [open(p)] and reading the whole file. *)
Definition read_file (p : string) : M payload :=
  fun w => match files w !! p with
           | Some c => (Ret c, w)
           | None => (Raise FileNotFoundError, w)
           end.

Definition write_file (p : string) (c : payload) : M unit :=
  let* w := get_world in set_files (<[p := c]> (files w)).

Definition get_config (self : loc) : M Config :=
  let* o := deref self in
  match o with
  | OConfig c => ret c
  | _ => raise AttributeError
  end.

Definition set_data (o : obj) (d : items) : obj :=
  match o with
  | OConfig c => OConfig {| data := d; implicit_save := implicit_save c;
                            _prev_dict := _prev_dict c; path := path c |}
  | _ => ODict d
  end.

(** [self[k] = v] *)
Definition setitem (self : loc) (k : string) (v : val) : M unit :=
  let* o := deref self in
  match shape o with
  | inr d => store self (set_data o (dict_set d k v))
  | inl _ => raise TypeError
  end.

(** [self.get(k)] *)
Definition get (self : loc) (k : string) : M val :=
  let* o := deref self in
  match shape o with
  | inr d => ret (default VNone (dict_get d k))
  | inl _ => raise AttributeError
  end.

(** [v.get(k)] for a value [v] *)
Definition val_get (v : val) (k : string) : M val :=
  match v with
  | VRef l => get l k
  | _ => raise AttributeError
  end.

(** [v.items()] *)
Definition val_items (v : val) : M items :=
  match v with
  | VRef l =>
      let* o := deref l in
      match shape o with
      | inr d => ret d
      | inl _ => raise AttributeError
      end
  | _ => raise AttributeError
  end.

(** The loop of [load_previous]: keys of the copy that [self] lacks. *)
Fixpoint merge_missing (self : loc) (its : items) : M unit :=
  match its with
  | [] => ret tt
  | (k, v) :: its' =>
      let* c := get_config self in
      (if dict_has (data c) k then ret tt else setitem self k v);;
      merge_missing self its'
  end.

(** Load previous copy of config from disk. *)
Definition load_previous (self : loc) (path_arg : option string) : M val :=
  let* c := get_config self in
  let p := match path_arg with
           | Some s => if String.eqb s "" then path c else s
           | None => path c
           end in
  store self (OConfig {| data := data c; implicit_save := implicit_save c;
                         _prev_dict := _prev_dict c; path := p |});;
  let* text := read_file p in
  let* v := json_load text in
  let* c := get_config self in
  store self (OConfig {| data := data c; implicit_save := implicit_save c;
                         _prev_dict := v; path := path c |});;
  let* copy := deepcopy v in
  let* its := val_items copy in
  merge_missing self its;;
  ret VNone.

(** [Config(d)] for a dictionary whose items are [d]: the new instance and
    its [__init__].  The instance is returned by location. *)
Definition Config_init (d : items) : M loc :=
  let* dir := charm_dir in
  match dir with
  | None => raise TypeError
  | Some dir =>
      let p := path_join dir CONFIG_FILE_NAME in
      let* self := alloc (OConfig {| data := d; implicit_save := true;
                                     _prev_dict := VNone; path := p |}) in
      let* there := path_exists p in
      (if there then load_previous self None else ret VNone);;
      atexit (ImplicitSaveOf self) [] [];;
      ret self
  end.

(** Return previous value for this key, or None if there is no previous
    value. *)
Definition previous (self : loc) (key : string) : M val :=
  let* c := get_config self in
  let* w := get_world in
  if truthy (heap w) (_prev_dict c) then val_get (_prev_dict c) key
  else ret VNone.

(** Return True if the current value for this key is different from the
    previous value. *)
Definition changed (self : loc) (key : string) : M bool :=
  let* c := get_config self in
  match _prev_dict c with
  | VNone => ret true
  | _ =>
      let* p := previous self key in
      let* g := get self key in
      py_ne p g
  end.

(** Save this config to disk: the file is opened for writing, which empties
    it, and [json.dump] writes the instance into it. *)
Definition save (self : loc) : M val :=
  let* c := get_config self in
  write_file (path c) Garbage;;
  let* w := get_world in
  match reify (fuel (heap w)) (heap w) (VRef self) with
  | Some j => write_file (path c) (Json j);; ret VNone
  | None => raise ValueError
  end.

Definition _implicit_save (self : loc) : M val :=
  let* c := get_config self in
  if implicit_save c then save self else ret VNone.

(** ** [config] of [charms/model/unit.py]

    The file imports [os], [subprocess] and [cached], and defines its six
    functions; it uses [json], [Config], [errno] and [sys] without binding
    them.  The functions below take the module's global names as [g] and
    look a name up where the source evaluates it: an unbound name raises
    [NameError] there.  [unit_py] is the namespace of the file as it is.  A
    larger [g] stands for the file with the missing imports added: [json],
    [errno] and [sys] are then the standard modules and [Config] the class
    of [utils.py].  [cached] is imported from [charms.model.utils], which is
    not among the sources, and is read as the decorator of [utils.py]. *)

Definition unit_py : list string :=
  ["os"; "subprocess"; "cached"; "log"; "name"; "hook_name"; "config";
   "status_set"; "status_get"].

(** [g] binds the name [n]. *)
Definition binds (g : list string) (n : string) : bool :=
  existsb (String.eqb n) g.

(** The evaluation of the global name [n]. *)
Definition global (g : list string) (n : string) : M unit :=
  if binds g n then ret tt else raise NameError.

(** [subprocess.check_output(cmd)] *)
Definition check_output (cmd : list string) : M payload :=
  let* w := get_world in
  set_ran (ran w ++ [cmd]);;
  match tool w cmd with
  | Output p => ret p
  | ExitNonZero => raise CalledProcessError
  | NotFound => raise FileNotFoundError
  end.

(** [dict(v)], the [super().__init__] of [Config(v)]; a list of pairs is
    left out. *)
Definition dict_of (v : val) : M items :=
  match v with
  | VNone | VBool _ | VInt _ => raise TypeError
  | VStr s => if String.eqb s "" then ret [] else raise ValueError
  | VRef l =>
      let* o := deref l in
      match shape o with
      | inr d => ret d
      | inl [] => ret []
      | inl _ => raise NotModelled
      end
  end.

Definition is_ValueError (e : exn) : bool :=
  match e with ValueError => true | _ => false end.

(** The body of [config], given the value of its parameter [scope].  The
    name [json] is evaluated before the argument of [json.loads], that is
    before the command runs, and [Config] before its argument. *)
Definition config_body (g : list string) (scope : val) : M val :=
  let config_cmd_line := ["config-get"] in
  try_except
    (global g "json";;
     let* config_cmd_line :=
       match scope with
       | VNone => ret config_cmd_line
       | VStr s => ret (config_cmd_line ++ [s])
       | _ => raise TypeError (* raised by [check_output], which runs nothing *)
       end in
     let config_cmd_line := config_cmd_line ++ ["--format=json"] in
     let* out := check_output config_cmd_line in
     let* config_data := json_load out in
     match scope with
     | VNone => global g "Config";;
                let* d := dict_of config_data in
                let* self := Config_init d in
                ret (VRef self)
     | _ => ret config_data
     end)
    is_ValueError
    (ret VNone).

(** How a call binds the one parameter [scope=None]. *)
Definition config_call (g : list string) (args : list val) (kwargs : items)
    : M val :=
  match args, kwargs with
  | [], [] => config_body g VNone
  | [scope], [] => config_body g scope
  | [], [(k, scope)] =>
      if String.eqb k "scope" then config_body g scope else raise TypeError
  | _, _ => raise TypeError
  end.

(** The function [config] before decoration; [addr] is where it lives. *)
Definition config_func (g : list string) (addr : string) : pyfunc :=
  {| fn_str := "<function config at " +:+ addr +:+ ">";
     fn_call := config_call g |}.

(** Juju charm configuration: [config] as the module exports it. *)
Definition config (g : list string) (addr : string) (args : list val)
    (kwargs : items) : M val :=
  cached (config_func g addr) args kwargs.

(** ** What a caller does with a [Config] instance

    Besides the methods above, a caller mutates the mapping in place: it
    reaches a container through keys and indices, starting at the instance,
    and assigns, deletes or appends there.  The value it stores is fresh
    data, a value it has read from the instance, or the value that
    [previous] has returned to it. *)

Inductive step : Type :=
| AtKey (k : string)
| AtIndex (i : nat).

Fixpoint navigate (h : list obj) (v : val) (p : list step) : option val :=
  match p with
  | [] => Some v
  | s :: p' =>
      match v with
      | VRef l =>
          match shape <$> h !! l, s with
          | Some (inr d), AtKey k =>
              dict_get d k ≫= fun v' => navigate h v' p'
          | Some (inl vs), AtIndex i =>
              vs !! i ≫= fun v' => navigate h v' p'
          | _, _ => None
          end
      | _ => None
      end
  end.

(** What is stored: a literal, the value found in the instance [cfg] at
    a path, or the result of [cfg.previous(k)]. *)
Inductive operand : Type :=
| New (j : json)                     (* a literal, which builds new cells *)
| Cur (p : list step)                (* cfg[k1][i2]... *)
| Prev (k : string).                 (* cfg.previous(k) *)

Coercion New : json >-> operand.

Definition operand_val (self : loc) (x : operand) : M val :=
  match x with
  | New j => json_load (Json j)
  | Cur p =>
      let* w := get_world in
      match navigate (heap w) (VRef self) p with
      | Some v => ret v
      | None => raise KeyError
      end
  | Prev k => previous self k
  end.

Inductive update : Type :=
| SetKey (k : string) (x : operand)  (* c[k] = x *)
| DelKey (k : string)                (* del c[k] *)
| SetIndex (i : nat) (x : operand)   (* c[i] = x *)
| Append (x : operand)               (* c.append(x) *)
| Clear.                             (* c.clear() *)

(** The update [u] of the container at [t], by a caller that holds the
    instance [self].  The container is reached before the stored value is
    evaluated; Python evaluates the right-hand side of an assignment
    first, which shows only in the error raised when both fail. *)
Definition apply_update (self t : loc) (u : update) : M unit :=
  let* o := deref t in
  match u, shape o with
  | SetKey k x, inr d =>
      let* v := operand_val self x in store t (set_data o (dict_set d k v))
  | SetKey _ _, inl _ => raise TypeError
  | DelKey k, inr d =>
      if dict_has d k then store t (set_data o (dict_del d k))
      else raise KeyError
  | DelKey _, inl _ => raise TypeError
  | SetIndex i x, inl vs =>
      if Nat.ltb i (length vs)
      then let* v := operand_val self x in store t (OList (<[i := v]> vs))
      else raise IndexError
  | SetIndex _ _, inr _ => raise NotModelled
  | Append x, inl vs =>
      let* v := operand_val self x in store t (OList (vs ++ [v]))
  | Append _, inr _ => raise AttributeError
  | Clear, inl _ => store t (OList [])
  | Clear, inr _ => store t (set_data o [])
  end.

Definition mutate (self : loc) (p : list step) (u : update) : M unit :=
  let* w := get_world in
  match navigate (heap w) (VRef self) p with
  | Some (VRef t) => apply_update self t u
  | Some _ => raise TypeError
  | None => raise KeyError
  end.

(** The update stores what [previous] returned. *)
Definition stores_previous (u : update) : bool :=
  match u with
  | SetKey _ (Prev _) | SetIndex _ (Prev _) | Append (Prev _) => true
  | _ => false
  end.

(** A caller's mutations in sequence; one that raises leaves the others to
    run. *)
Definition mutations (self : loc) (ms : list (list step * update))
    (w : World) : World :=
  fold_left (fun w m => (mutate self m.1 m.2 w).2) ms w.

(** The previous snapshot an instance holds, as a JSON value. *)
Definition snapshot_of (w : World) (self : loc) : option json :=
  match heap w !! self with
  | Some (OConfig c) =>
      match _prev_dict c with
      | VRef p => reify (fuel (heap w)) (heap w) (VRef p)
      | _ => None
      end
  | _ => None
  end.

Definition config_at (w : World) (self : loc) : option Config :=
  match heap w !! self with
  | Some (OConfig c) => Some c
  | _ => None
  end.

(** ** What happens during a process around the calls of a memoized
       function *)

Inductive event : Type :=
| Calls (func : pyfunc) (args : list val) (kwargs : items)
    (* a call of the memoized [func] *)
| Flushes (key : string)
| ToolAnswers (t : list string -> proc)
| FileWritten (p : string) (c : payload).

Definition happen (e : event) (w : World) : World :=
  match e with
  | Calls func args kwargs => (cached func args kwargs w).2
  | Flushes key => (flush key w).2
  | ToolAnswers t =>
      {| heap := heap w; cache := cache w; _atexit := _atexit w;
         environ := environ w; files := files w; tool := t; ran := ran w |}
  | FileWritten p c => (write_file p c w).2
  end.

Definition happens (es : list event) (w : World) : World :=
  fold_left (fun w e => happen e w) es w.

(** ** Measures and shapes used in the statements *)

Definition scalar (v : val) : bool :=
  match v with VRef _ => false | _ => true end.

Fixpoint json_depth (j : json) : nat :=
  match j with
  | JList xs => S (foldr (fun x n => Nat.max (json_depth x) n) 0 xs)
  | JObj kvs => S (foldr (fun kv n => Nat.max (json_depth kv.2) n) 0 kvs)
  | _ => 0
  end.

Fixpoint json_cells (j : json) : nat :=
  match j with
  | JList xs => S (foldr (fun x n => json_cells x + n) 0 xs)
  | JObj kvs => S (foldr (fun kv n => json_cells kv.2 + n) 0 kvs)
  | _ => 0
  end.

Fixpoint json_get (kvs : list (string * json)) (k : string) : option json :=
  match kvs with
  | [] => None
  | (k', j) :: kvs' => if String.eqb k' k then Some j else json_get kvs' k
  end.

(** The values a cell holds as a container. *)
Definition obj_vals (o : obj) : list val :=
  match shape o with
  | inl vs => vs
  | inr d => d.*2
  end.

(** [v] refers to no cell, or to one in [[a, b)]. *)
Definition within (a b : nat) (v : val) : Prop :=
  match v with
  | VRef l => a <= l < b
  | _ => True
  end.

(** [v] refers to no cell of [[a, b)]. *)
Definition outside (a b : nat) (v : val) : Prop :=
  match v with
  | VRef l => ~ (a <= l < b)
  | _ => True
  end.

(** No cell holds a reference beyond the store, also not as the previous
    snapshot of an instance. *)
Definition heap_ok (h : list obj) : Prop :=
  forall l o, h !! l = Some o ->
    Forall (within 0 (length h)) (obj_vals o)
    /\ match o with
       | OConfig c => within 0 (length h) (_prev_dict c)
       | _ => True
       end.

(** ** Frames: what a computation leaves as it is *)

(** Every run of [m] takes a world to one related to it by [R]. *)
Definition steps (R : World -> World -> Prop) {A} (m : M A) : Prop :=
  forall w, R w (m w).2.

(** The component [f] of the world is the same afterwards. *)
Definition keeps {B} (f : World -> B) : World -> World -> Prop :=
  fun w w' => f w' = f w.

(** The store only grows: every cell that was there is unchanged. *)
Definition grows : World -> World -> Prop :=
  fun w w' => exists ext, heap w' = heap w ++ ext.

(** [f] does not look at the store. *)
Definition ignores_heap {B} (f : World -> B) : Prop :=
  forall h w, f (set_heap h w).2 = f w.

(** [f] does not look at the registry of deferred callbacks. *)
Definition ignores_atexit {B} (f : World -> B) : Prop :=
  forall r w, f (set_atexit r w).2 = f w.

(** [f] does not look at the log of the commands run. *)
Definition ignores_ran {B} (f : World -> B) : Prop :=
  forall r w, f (set_ran r w).2 = f w.

(** The cache key of a call, when [str] gives one. *)
Definition key_of (func : pyfunc) (args : list val) (kwargs : items)
    (w : World) : option string :=
  match (cache_key func args kwargs w).1 with
  | Ret key => Some key
  | Raise _ => None
  end.

(** An event that is no flush of the entry under [key]: a flush with a
    text that does not occur in [key], or a call of a memoized function
    whose body does not itself remove or replace the entry. *)
Definition spares (key : string) (e : event) : Prop :=
  match e with
  | Calls func args kwargs =>
      forall w v, cache w !! key = Some v ->
                  cache (fn_call func args kwargs w).2 !! key = Some v
  | Flushes s => contains s key = false
  | _ => True
  end.

(** The command line [config] runs for a given [scope]; a scope that is
    neither [None] nor a string makes [check_output] raise. *)
Definition command_of (scope : val) : option (list string) :=
  match scope with
  | VNone => Some ["config-get"; "--format=json"]
  | VStr s => Some ["config-get"; s; "--format=json"]
  | _ => None
  end.

(** The value [config_call] binds to [scope]. *)
Definition scope_of (args : list val) (kwargs : items) : option val :=
  match args, kwargs with
  | [], [] => Some VNone
  | [scope], [] => Some scope
  | [], [(k, scope)] => if String.eqb k "scope" then Some scope else None
  | _, _ => None
  end.

Definition reify_items (n : nat) (h : list obj) (kvs : items)
    : option (list (string * json)) :=
  mapM (fun kv => pair kv.1 <$> reify n h kv.2) kvs.

(** The cells of [[a, b)] refer to cells of [[a, b)] only. *)
Definition closed (a b : nat) (h : list obj) : Prop :=
  forall l o, a <= l < b -> h !! l = Some o -> Forall (within a b) (obj_vals o).

(** Two stores with the same cells in [[a, b)]. *)
Definition agree (a b : nat) (h h' : list obj) : Prop :=
  forall l, a <= l < b -> h' !! l = h !! l.

(** The two loops of [alloc_json]. *)
Fixpoint alloc_jsons (xs : list json) (h : list obj) : list val * list obj :=
  match xs with
  | [] => ([], h)
  | x :: xs' =>
      let '(v, h1) := alloc_json x h in
      let '(vs, h2) := alloc_jsons xs' h1 in (v :: vs, h2)
  end.

Fixpoint alloc_items (kvs : list (string * json)) (h : list obj)
    : items * list obj :=
  match kvs with
  | [] => ([], h)
  | (k, x) :: kvs' =>
      let '(v, h1) := alloc_json x h in
      let '(its, h2) := alloc_items kvs' h1 in ((k, v) :: its, h2)
  end.

(** What a freshly built value looks like in the store: new cells only,
    which refer to new cells only, none of them a [Config], and the value
    reads back as [j]. *)
Definition built (j : json) (h : list obj) (v : val) (h' : list obj) : Prop :=
  exists ext,
    h' = h ++ ext
    /\ length ext = json_cells j
    /\ within (length h) (length h') v
    /\ Forall (fun o => Forall (within (length h) (length h')) (obj_vals o)
                        /\ forall c, o <> OConfig c) ext
    /\ reify (json_depth j) h' v = Some j.

(** ** Worlds used as examples *)

Definition env0 : gmap string string := {[ "CHARM_DIR" := "/charm" ]}.

(** The loop of [load_previous] on the items alone. *)
Definition merge (d its : items) : items :=
  fold_left (fun d kv => if dict_has d kv.1 then d else dict_set d kv.1 kv.2)
            its d.

Definition with_data (c : Config) (d : items) : Config :=
  {| data := d; implicit_save := implicit_save c;
     _prev_dict := _prev_dict c; path := path c |}.

Definition with_prev (c : Config) (v : val) : Config :=
  {| data := data c; implicit_save := implicit_save c;
     _prev_dict := v; path := path c |}.

(** The attributes of an instance before [__init__] looks at the disk. *)
Definition fresh_config (d : items) (p : string) : Config :=
  {| data := d; implicit_save := true; _prev_dict := VNone; path := p |}.

(** The world once [self._implicit_save] is registered. *)
Definition registered (self : loc) (w : World) : World :=
  (set_atexit (_atexit w ++ [(ImplicitSaveOf self, [], [])]) w).2.

(** The path [load_previous] leaves in the instance. *)
Definition path_after (path_arg : option string) (c : Config) : string :=
  match path_arg with
  | Some s => if String.eqb s "" then path c else s
  | None => path c
  end.

(** An attribute of the instance at [self]. *)
Definition attr_at {B} (g : Config -> B) (w : World) (self : loc) : option B :=
  g <$> config_at w self.

(** The persistence path of the instance at [self]. *)
Abbreviation path_at := (attr_at path).

(** [f] does not look at the file system. *)
Definition ignores_files {B} (f : World -> B) : Prop :=
  forall fs w, f (set_files fs w).2 = f w.

Definition snapshot_path : string := "/charm/.juju-persistent-config".

(** The scenario of the specification: the snapshot holds
    [{"foo": "bar"}] and [config-get] answers [{"foo": "baz", "new": 1}].
    A second file stands for a snapshot kept elsewhere. *)
Definition scenario : World :=
  start env0
    (<[ "/srv/other" := Json (JObj [("seen", JBool true)]) ]>
       {[ snapshot_path := Json (JObj [("foo", JStr "bar")]) ]})
    (fun _ => Output (Json (JObj [("foo", JStr "baz"); ("new", JInt 1)]))).

(** A function that records each of its invocations and returns [1]. *)
Definition probe : pyfunc :=
  {| fn_str := "<function probe at 0x7f3b>";
     fn_call := fun _ _ => let* w := get_world in
                           set_ran (ran w ++ [["probe"]]);; ret (VInt 1) |}.

(** A function that records each of its invocations and returns [None]. *)
Definition silent : pyfunc :=
  {| fn_str := "<function silent at 0x7f3c>";
     fn_call := fun _ _ => let* w := get_world in
                           set_ran (ran w ++ [["silent"]]);; ret VNone |}.

(** The cells of [[a, b)] hold a snapshot that nothing else refers to: no
    cell outside of them holds, as a container, a reference into them. *)
Definition sealed (a b : nat) (h : list obj) : Prop :=
  b <= length h
  /\ forall l o, h !! l = Some o -> ~ (a <= l < b) ->
       Forall (outside a b) (obj_vals o).

(** From [w] to [w'] the snapshot stays sealed and its cells are the
    same. *)
Definition kept (a b : nat) (w w' : World) : Prop :=
  sealed a b (heap w') /\ agree a b (heap w) (heap w').

(** A snapshot with a nested value: [{"hosts": ["a", "b"]}], and no
    configuration set. *)
Definition nested : World :=
  start env0
    {[ snapshot_path := Json (JObj [("hosts", JList [JStr "a"; JStr "b"])]) ]}
    (fun _ => Output (Json (JObj []))).

(** A first run: no snapshot on the disk, and [config-get] does not
    answer with JSON yet. *)
Definition first_run : World := start env0 ∅ (fun _ => Output Garbage).

(** The cache key of [config()], for [config] at [0x7f3a]. *)
Definition config_key : string := "(<function config at 0x7f3a>, (), {})".

(** ** Further shapes used in the statements *)

(** [j] is a JSON object. *)
Definition is_object (j : json) : bool :=
  match j with JObj _ => true | _ => false end.

(** The objects of a JSON value have distinct keys, at every depth. *)
Fixpoint json_wf (j : json) : Prop :=
  match j with
  | JList xs => foldr (fun x P => json_wf x /\ P) True xs
  | JObj kvs =>
      NoDup kvs.*1 /\ foldr (fun kv P => json_wf kv.2 /\ P) True kvs
  | _ => True
  end.

(** ** The other functions of [charms/model/unit.py]

    They run commands with [subprocess.call] and [subprocess.check_output]
    and write to the standard error stream, which is kept beside the world.
    The only [OSError] a command gives here is the one of a missing
    executable ([ENOENT]).  The names [errno], [sys] and [json], which the
    file uses without importing them, are looked up in [g] where the
    source evaluates them, as in [config]. *)

(** [v[k]] for a string [k] *)
Definition getitem (v : val) (k : string) : M val :=
  match v with
  | VRef l =>
      let* o := deref l in
      match shape o with
      | inr d => match dict_get d k with
                 | Some x => ret x
                 | None => raise KeyError
                 end
      | inl _ => raise TypeError
      end
  | _ => raise TypeError
  end.

Definition is_OSError (e : exn) : bool :=
  match e with FileNotFoundError => true | _ => false end.

(** Retrieve the previously set juju workload state and message. *)
Definition status_get (g : list string) : M (val * val) :=
  let cmd := ["status-get"; "--format=json"; "--include-data"] in
  fun w =>
    match check_output cmd w with
    | (Raise e, w') =>
        if is_OSError e
        then (global g "errno";; ret (VStr "unknown", VStr "")) w'
        else (Raise e, w')
    | (Ret raw_status, w') =>
        (global g "json";;
         let* status := json_load raw_status in
         let* s := getitem status "status" in
         let* m := getitem status "message" in
         ret (s, m)) w'
    end.

(** [subprocess.call(cmd)]: the exit status, [1] standing for any status
    but [0]. *)
Definition call (cmd : list string) : M Z :=
  let* w := get_world in
  set_ran (ran w ++ [cmd]);;
  match tool w cmd with
  | Output _ => ret 0%Z
  | ExitNonZero => ret 1%Z
  | NotFound => raise FileNotFoundError
  end.

(** The process of a hook: the world and what was printed to
    [sys.stderr], line by line. *)
Record Hook : Type := mkHook {
  world : World;
  stderr : list string
}.

Definition MH (A : Type) : Type := Hook -> res A * Hook.

Definition lift {A} (m : M A) : MH A :=
  fun h => let (r, w) := m (world h) in
           (r, {| world := w; stderr := stderr h |}).

(** [print(line, file=sys.stderr)] *)
Definition print_stderr (line : string) : MH unit :=
  fun h => (Ret tt, {| world := world h; stderr := stderr h ++ [line] |}).

(** [str(message)] when it is a string, [repr(message)] otherwise. *)
Definition message_text (message : val) : M string :=
  match message with
  | VStr s => ret s
  | _ => fun w => match py_repr (fuel (heap w)) (heap w) [] message with
                  | Some s => (Ret s, w)
                  | None => (Raise RecursionError, w)
                  end
  end.

(** The truth value of the argument [level]. *)
Definition given (level : option string) : option string :=
  match level with
  | Some l => if String.eqb l "" then None else Some l
  | None => None
  end.

(** Write a message to the juju log. *)
Definition log (g : list string) (message : val) (level : option string)
    : MH val :=
  fun h =>
    let command := ["juju-log"] in
    let command := match given level with
                   | Some l => command ++ ["-l"; l]
                   | None => command
                   end in
    match lift (message_text message) h with
    | (Raise e, h1) => (Raise e, h1)
    | (Ret message, h1) =>
        let command := command ++ [message] in
        match lift (call command) h1 with
        | (Ret _, h2) => (Ret VNone, h2)
        | (Raise e, h2) =>
            if is_OSError e then
              match lift (global g "errno") h2 with
              | (Raise e', h3) => (Raise e', h3)
              | (Ret _, h3) =>
                  let message := match given level with
                                 | Some l => l +:+ ": " +:+ message
                                 | None => message
                                 end in
                  let message := "juju-log: " +:+ message in
                  match lift (global g "sys") h3 with
                  | (Raise e', h4) => (Raise e', h4)
                  | (Ret _, h4) =>
                      match print_stderr message h4 with
                      | (_, h5) => (Ret VNone, h5)
                      end
                  end
              end
            else (Raise e, h2)
        end
    end.

Definition valid_states : list string :=
  ["maintenance"; "blocked"; "waiting"; "active"].

(** Set the workload state with a message. *)
Definition status_set (g : list string) (workload_state message : string)
    : MH val :=
  fun h =>
    if negb (existsb (String.eqb workload_state) valid_states)
    then (Raise ValueError, h)
    else
      let cmd := ["status-set"; workload_state; message] in
      let failed h' :=
        let log_message :=
          "status-set failed: " +:+ workload_state +:+ " " +:+ message in
        log g (VStr log_message) (Some "INFO") h' in
      match lift (call cmd) h with
      | (Ret ret, h1) => if (ret =? 0)%Z then (Ret VNone, h1) else failed h1
      | (Raise e, h1) =>
          if is_OSError e then
            match lift (global g "errno") h1 with
            | (Raise e', h2) => (Raise e', h2)
            | (Ret _, h2) => failed h2
            end
          else (Raise e, h1)
      end.

(** [self.implicit_save = b] *)
Definition set_implicit_save (self : loc) (b : bool) : M unit :=
  let* c := get_config self in
  store self (OConfig {| data := data c; implicit_save := b;
                         _prev_dict := _prev_dict c; path := path c |}).

(** ** Further worlds used as examples *)

(** A run in which [config-get] exits with an error status. *)
Definition failing_tool : World := start env0 ∅ (fun _ => ExitNonZero).

(** A run whose snapshot file does not hold valid JSON. *)
Definition corrupt : World :=
  start env0 {[ snapshot_path := Garbage ]}
    (fun _ => Output (Json (JObj [("port", JInt 80)]))).

(** A run whose snapshot file holds a JSON list. *)
Definition listed : World :=
  start env0 {[ snapshot_path := Json (JList [JInt 1]) ]}
    (fun _ => Output (Json (JObj []))).

(** A run outside of a charm: [CHARM_DIR] is not set. *)
Definition no_charm_dir : World :=
  start ∅ ∅ (fun _ => Output (Json (JObj [("port", JInt 80)]))).

(** An instance that holds itself under the key ["me"]. *)
Definition looping : World :=
  (set_heap [OConfig {| data := [("me", VRef 0)]; implicit_save := true;
                        _prev_dict := VNone; path := snapshot_path |}]
     (start env0 ∅ (fun _ => Output (Json (JObj []))))).2.

(** A later hook: a new process that finds the disk as [w] left it. *)
Definition next_hook (w : World) : World :=
  start (environ w) (files w) (tool w).

(** A unit on which none of the juju tools is installed. *)
Definition bare : Hook :=
  {| world := start env0 ∅ (fun _ => NotFound); stderr := [] |}.

(** * Properties *)

Section Frames.
Context (R : World -> World -> Prop) `{!PreOrder R}.

Lemma steps_ret {A} (a : A) : steps R (ret a).
Proof. intros w. reflexivity. Qed.

Lemma steps_raise {A} (e : exn) : steps R (raise (A := A) e).
Proof. intros w. reflexivity. Qed.

Lemma steps_get_world : steps R get_world.
Proof. intros w. reflexivity. Qed.

Lemma steps_bind {A B} (m : M A) (f : A -> M B) :
  steps R m -> (forall a, steps R (f a)) -> steps R (bind m f).
Proof.
  intros Hm Hf w. unfold bind. specialize (Hm w).
  destruct (m w) as [[a|e] w1]; simpl in *; [|done].
  etransitivity; [exact Hm | apply Hf].
Qed.

Lemma steps_try {A} (m : M A) c (k : M A) :
  steps R m -> steps R k -> steps R (try_except m c k).
Proof.
  intros Hm Hk w. unfold try_except. specialize (Hm w).
  destruct (m w) as [[a|e] w1]; simpl in *; [done|].
  destruct (c e); simpl; [|done].
  etransitivity; [exact Hm | apply Hk].
Qed.

Lemma steps_if {A} (b : bool) (m k : M A) :
  steps R m -> steps R k -> steps R (if b then m else k).
Proof. by destruct b. Qed.
End Frames.

Global Instance keeps_preorder {B} (f : World -> B) : PreOrder (keeps f).
Proof.
  split; [done|]. intros x y z H1 H2. unfold keeps in *. congruence.
Qed.

Global Instance grows_preorder : PreOrder grows.
Proof.
  split.
  - intros w. exists []. by rewrite app_nil_r.
  - intros x y z [e1 H1] [e2 H2]. exists (e1 ++ e2).
    by rewrite H2, H1, app_assoc.
Qed.

Lemma steps_weaken (R R' : World -> World -> Prop) {A} (m : M A) :
  (forall w w', R w w' -> R' w w') -> steps R m -> steps R' m.
Proof. intros HR Hm w. apply HR, Hm. Qed.

(** *** Computations that change nothing *)

Abbreviation pure m := (steps (keeps id) m).

Lemma pure_eq {A} (m : M A) w : pure m -> (m w).2 = w.
Proof. intros H. apply (H w). Qed.

Lemma pure_keeps {A B} (f : World -> B) (m : M A) :
  pure m -> steps (keeps f) m.
Proof.
  apply steps_weaken. intros w w' H. unfold keeps, id in *. by rewrite H.
Qed.

Ltac prim :=
  let w := fresh "w" in
  intros w; unfold keeps, id; simpl;
  repeat (case_match; simpl; try done); try done.

Lemma pure_deref l : pure (deref l).
Proof. unfold deref. prim. Qed.

Lemma pure_charm_dir : pure charm_dir.
Proof. unfold charm_dir. prim. Qed.

Lemma pure_path_exists p : pure (path_exists p).
Proof. unfold path_exists. prim. Qed.

Lemma pure_read_file p : pure (read_file p).
Proof. unfold read_file. prim. Qed.

Lemma pure_py_ne a b : pure (py_ne a b).
Proof. unfold py_ne. prim. Qed.

Lemma pure_cache_key f args kwargs : pure (cache_key f args kwargs).
Proof. unfold cache_key. prim. Qed.

Create HintDb frames.

Local Hint Resolve steps_ret steps_raise steps_get_world steps_bind steps_try
  steps_if pure_deref pure_charm_dir pure_path_exists pure_read_file
  pure_py_ne pure_cache_key : frames.

Ltac frame :=
  repeat first
    [ progress intros
    | apply steps_bind
    | apply steps_try
    | apply steps_ret
    | apply steps_raise
    | apply steps_get_world
    | solve [eauto with frames typeclass_instances]
    | case_match ].

Lemma pure_get_config self : pure (get_config self).
Proof. unfold get_config. frame. Qed.

Lemma pure_get self k : pure (get self k).
Proof. unfold get. frame. Qed.

Lemma pure_val_get v k : pure (val_get v k).
Proof. unfold val_get. destruct v; frame; apply pure_get. Qed.

Lemma pure_val_items v : pure (val_items v).
Proof. unfold val_items. frame. Qed.

Local Hint Resolve pure_get_config pure_get pure_val_get pure_val_items
  : frames.

Lemma pure_previous self k : pure (previous self k).
Proof. unfold previous. frame. Qed.

Local Hint Resolve pure_previous : frames.

Lemma pure_changed self k : pure (changed self k).
Proof. unfold changed. frame. Qed.

Local Hint Resolve pure_changed : frames.

(** *** Computations that change the store only *)

Section HeapOnly.
Context {B} (f : World -> B) (Hf : ignores_heap f).

Lemma keeps_set_heap h : steps (keeps f) (set_heap h).
Proof. intros w. apply Hf. Qed.

Lemma keeps_alloc o : steps (keeps f) (alloc o).
Proof. intros w. unfold alloc. simpl. apply (Hf _ w). Qed.

Lemma keeps_store l o : steps (keeps f) (store l o).
Proof. intros w. apply Hf. Qed.

Lemma keeps_json_load p : steps (keeps f) (json_load p).
Proof.
  intros w. destruct p as [|j]; [done|]. unfold json_load.
  destruct (alloc_json j (heap w)) as [v h]. apply (Hf _ w).
Qed.

Lemma keeps_deepcopy v : steps (keeps f) (deepcopy v).
Proof.
  intros w. unfold deepcopy. case_match; [|done]. apply keeps_json_load.
Qed.

Local Hint Resolve keeps_alloc keeps_store keeps_json_load keeps_deepcopy
  : frames.
Local Hint Extern 1 (steps (keeps f) _) =>
  (apply pure_keeps; solve [eauto with frames]) : frames.

Lemma keeps_setitem self k v : steps (keeps f) (setitem self k v).
Proof. unfold setitem. frame. Qed.

Local Hint Resolve keeps_setitem : frames.

Lemma keeps_merge_missing self its : steps (keeps f) (merge_missing self its).
Proof.
  induction its as [|[k v] its IH]; simpl; [apply steps_ret; apply _|].
  frame.
Qed.

Local Hint Resolve keeps_merge_missing : frames.

Lemma keeps_load_previous self p : steps (keeps f) (load_previous self p).
Proof. unfold load_previous. frame. Qed.

Lemma keeps_operand_val self x : steps (keeps f) (operand_val self x).
Proof.
  destruct x; cbn [operand_val]; [by apply keeps_json_load | frame |].
  apply pure_keeps, pure_previous.
Qed.

Local Hint Resolve keeps_operand_val : frames.

Lemma keeps_apply_update self t u : steps (keeps f) (apply_update self t u).
Proof. unfold apply_update. frame. Qed.

Local Hint Resolve keeps_apply_update : frames.

Lemma keeps_mutate self p u : steps (keeps f) (mutate self p u).
Proof. unfold mutate. frame. Qed.
End HeapOnly.

Lemma keeps_atexit {B} (f : World -> B) cb args kwargs :
  ignores_atexit f -> steps (keeps f) (atexit cb args kwargs).
Proof. intros Hf w. apply Hf. Qed.

Lemma keeps_Config_init {B} (f : World -> B) d :
  ignores_heap f -> ignores_atexit f -> steps (keeps f) (Config_init d).
Proof.
  intros Hh Ha. unfold Config_init.
  apply steps_bind; [apply _ | apply pure_keeps, pure_charm_dir |].
  intros [dir|]; [|apply steps_raise, _].
  apply steps_bind; [apply _ | by apply keeps_alloc |]. intros self.
  apply steps_bind; [apply _ | apply pure_keeps, pure_path_exists |].
  intros there.
  apply steps_bind; [apply _ | |].
  { destruct there; [by apply keeps_load_previous | apply steps_ret, _]. }
  intros _. apply steps_bind; [apply _ | by apply keeps_atexit |].
  intros _. apply steps_ret, _.
Qed.

Lemma keeps_dict_of {B} (f : World -> B) v : steps (keeps f) (dict_of v).
Proof.
  apply pure_keeps. unfold dict_of. frame.
Qed.

Lemma keeps_check_output {B} (f : World -> B) cmd :
  ignores_ran f -> steps (keeps f) (check_output cmd).
Proof.
  intros Hf w. unfold check_output, bind, get_world. simpl.
  destruct (tool w cmd); apply (Hf _ w).
Qed.

Lemma bind_Ret {A B} (m : M A) (f : A -> M B) w a w' :
  m w = (Ret a, w') -> bind m f w = f a w'.
Proof. intros H. unfold bind. by rewrite H. Qed.

Lemma bind_Raise {A B} (m : M A) (f : A -> M B) w e w' :
  m w = (Raise e, w') -> bind m f w = (Raise e, w').
Proof. intros H. unfold bind. by rewrite H. Qed.

Lemma global_bound g n w : binds g n = true -> global g n w = (Ret tt, w).
Proof. unfold global. by intros ->. Qed.

Lemma global_unbound g n w :
  binds g n = false -> global g n w = (Raise NameError, w).
Proof. unfold global. by intros ->. Qed.

Lemma pure_global g n : pure (global g n).
Proof. unfold global. prim. Qed.

(** What is left of [config_body] once [json] is found. *)
Lemma keeps_config_fetch {B} (f : World -> B) g scope cmd :
  ignores_heap f -> ignores_atexit f -> ignores_ran f ->
  steps (keeps f)
    (let* out := check_output cmd in
     let* config_data := json_load out in
     match scope with
     | VNone => global g "Config";;
                let* d := dict_of config_data in
                let* self := Config_init d in
                ret (VRef self)
     | _ => ret config_data
     end).
Proof.
  intros Hh Ha Hr.
  apply steps_bind; [apply _ | by apply keeps_check_output |]. intros out.
  apply steps_bind; [apply _ | by apply keeps_json_load |]. intros cd.
  destruct scope; try apply steps_ret, _.
  apply steps_bind; [apply _ | apply pure_keeps, pure_global |]. intros _.
  apply steps_bind; [apply _ | apply keeps_dict_of |]. intros d.
  apply steps_bind; [apply _ | by apply keeps_Config_init |]. intros self.
  apply steps_ret, _.
Qed.

Lemma keeps_config_body {B} (f : World -> B) g scope :
  ignores_heap f -> ignores_atexit f -> ignores_ran f ->
  steps (keeps f) (config_body g scope).
Proof.
  intros Hh Ha Hr. unfold config_body.
  apply steps_try; [apply _ | | apply steps_ret, _].
  apply steps_bind; [apply _ | apply pure_keeps, pure_global |]. intros _.
  apply steps_bind; [apply _ | destruct scope; frame |]. intros cmd.
  by apply keeps_config_fetch.
Qed.

Lemma keeps_config_call {B} (f : World -> B) g args kwargs :
  ignores_heap f -> ignores_atexit f -> ignores_ran f ->
  steps (keeps f) (config_call g args kwargs).
Proof.
  intros Hh Ha Hr. unfold config_call.
  repeat case_match; try apply steps_raise, _; by apply keeps_config_body.
Qed.

Lemma cache_ignores : ignores_heap cache /\ ignores_atexit cache /\ ignores_ran cache.
Proof. done. Qed.

(** ** The deferred-callback registry *)


(** ** The memoization cache *)

Lemma py_repr_scalar n m h h' busy busy' v :
  scalar v = true -> py_repr n h busy v = py_repr m h' busy' v.
Proof. by destruct v, n, m. Qed.

Lemma repr_tuple_scalar h h' args :
  Forall (fun v => scalar v = true) args ->
  repr_tuple h args = repr_tuple h' args.
Proof.
  intros H. unfold repr_tuple. f_equal. apply Forall_mapM_ext.
  eapply Forall_impl; [exact H|]. intros v Hv. by apply py_repr_scalar.
Qed.

Lemma repr_kwargs_scalar h h' (kwargs : items) :
  Forall (fun v => scalar v = true) kwargs.*2 ->
  repr_kwargs h kwargs = repr_kwargs h' kwargs.
Proof.
  intros H. unfold repr_kwargs. f_equal. apply Forall_mapM_ext.
  rewrite Forall_fmap in H.
  eapply Forall_impl; [exact H|]. intros [k v] Hv. by destruct v.
Qed.

Lemma key_of_scalar func args kwargs w w' :
  Forall (fun v => scalar v = true) args ->
  Forall (fun v => scalar v = true) kwargs.*2 ->
  key_of func args kwargs w' = key_of func args kwargs w.
Proof.
  intros Ha Hk. unfold key_of, cache_key.
  rewrite (repr_tuple_scalar (heap w') (heap w)) by done.
  rewrite (repr_kwargs_scalar (heap w') (heap w)) by done.
  by destruct (repr_tuple (heap w) args), (repr_kwargs (heap w) kwargs).
Qed.

Lemma key_of_fn_call name body body' args kwargs w :
  key_of (mkFunc name body) args kwargs w
  = key_of (mkFunc name body') args kwargs w.
Proof. done. Qed.

Lemma cache_key_of func args kwargs w key :
  key_of func args kwargs w = Some key ->
  cache_key func args kwargs w = (Ret key, w).
Proof.
  unfold key_of. intros H.
  pose proof (pure_cache_key func args kwargs w) as Hp.
  destruct (cache_key func args kwargs w) as [[k|e] w']; simpl in *; [|done].
  unfold keeps, id in Hp. congruence.
Qed.

Lemma cache_key_none func args kwargs w :
  key_of func args kwargs w = None ->
  exists e, cached func args kwargs w = (Raise e, w).
Proof.
  unfold key_of. intros H.
  pose proof (pure_cache_key func args kwargs w) as Hp.
  unfold cached, bind.
  destruct (cache_key func args kwargs w) as [[k|e] w']; simpl in *; [done|].
  unfold keeps, id in Hp. subst. by exists e.
Qed.

Lemma cached_hit func args kwargs w key v :
  key_of func args kwargs w = Some key ->
  cache w !! key = Some v ->
  cached func args kwargs w = (Ret v, w).
Proof.
  intros Hk Hc. unfold cached, bind.
  rewrite (cache_key_of _ _ _ _ _ Hk). simpl. by rewrite Hc.
Qed.

Lemma cached_miss func args kwargs w key :
  key_of func args kwargs w = Some key ->
  cache w !! key = None ->
  cached func args kwargs w
  = match fn_call func args kwargs w with
    | (Ret r, w1) => (Ret r, (set_cache (<[key := r]> (cache w1)) w1).2)
    | (Raise e, w1) => (Raise e, w1)
    end.
Proof.
  intros Hk Hc. unfold cached, bind.
  rewrite (cache_key_of _ _ _ _ _ Hk). simpl. rewrite Hc.
  by destruct (fn_call func args kwargs w) as [[r|e] w1].
Qed.

(** Whatever it returns, a call leaves its result in the cache. *)
Lemma cached_stores func args kwargs w v w1 key :
  key_of func args kwargs w = Some key ->
  cached func args kwargs w = (Ret v, w1) ->
  cache w1 !! key = Some v.
Proof.
  intros Hk Hc. destruct (cache w !! key) as [v'|] eqn:E.
  - rewrite (cached_hit _ _ _ _ _ _ Hk E) in Hc. by simplify_eq.
  - rewrite (cached_miss _ _ _ _ _ Hk E) in Hc.
    destruct (fn_call func args kwargs w) as [[r|e] w']; simplify_eq.
    simpl. apply lookup_insert_eq.
Qed.

Lemma cached_heap func args kwargs w v w1 :
  cached func args kwargs w = (Ret v, w1) ->
  exists key, key_of func args kwargs w = Some key.
Proof.
  intros Hc. destruct (key_of func args kwargs w) eqn:E; [by eexists|].
  destruct (cache_key_none _ _ _ _ E) as [e He]. congruence.
Qed.

Lemma check_output_spec cmd w :
  check_output cmd w
  = (match tool w cmd with
     | Output p => Ret p
     | ExitNonZero => Raise CalledProcessError
     | NotFound => Raise FileNotFoundError
     end, (set_ran (ran w ++ [cmd]) w).2).
Proof. unfold check_output, bind. simpl. by destruct (tool w cmd). Qed.

Lemma ran_ignores : ignores_heap ran /\ ignores_atexit ran.
Proof. done. Qed.

Lemma try_check_output_ran cmd (rest : payload -> M val) w v w1 :
  (forall out, steps (keeps ran) (rest out)) ->
  try_except (bind (check_output cmd) rest) is_ValueError (ret VNone) w
  = (Ret v, w1) ->
  ran w1 = ran w ++ [cmd].
Proof.
  intros Hrest. unfold try_except, bind. rewrite check_output_spec.
  destruct (tool w cmd) as [out| |]; simpl; try done.
  pose proof (Hrest out (set_ran (ran w ++ [cmd]) w).2) as Hk.
  unfold keeps in Hk.
  destruct (rest out _) as [[r|e] w2]; simpl in *.
  - intros; by simplify_eq.
  - destruct (is_ValueError e); unfold ret; intros; simplify_eq; done.
Qed.

Lemma config_body_unbound g scope w :
  binds g "json" = false -> config_body g scope w = (Raise NameError, w).
Proof.
  intros H. unfold config_body, try_except, bind.
  by rewrite (global_unbound _ _ _ H).
Qed.

(** With [json] bound and a scope that gives a command line, the body is
    the fetch inside the [try]. *)
Lemma config_body_bound g scope cmd w :
  binds g "json" = true ->
  command_of scope = Some cmd ->
  config_body g scope w
  = try_except
      (let* out := check_output cmd in
       let* config_data := json_load out in
       match scope with
       | VNone => global g "Config";;
                  let* d := dict_of config_data in
                  let* self := Config_init d in
                  ret (VRef self)
       | _ => ret config_data
       end)
      is_ValueError (ret VNone) w.
Proof.
  intros H Hc. unfold config_body, try_except.
  rewrite (bind_Ret _ _ _ _ _ (global_bound _ _ _ H)).
  destruct scope; simpl in Hc; simplify_eq; reflexivity.
Qed.

Lemma config_body_no_command g scope w v w1 :
  command_of scope = None -> config_body g scope w <> (Ret v, w1).
Proof.
  intros Hc. unfold config_body, try_except, bind, global.
  destruct (binds g "json"); destruct scope; simpl in *; done.
Qed.

Lemma config_body_ran g scope w v w1 :
  config_body g scope w = (Ret v, w1) ->
  binds g "json" = true
  /\ exists cmd, command_of scope = Some cmd /\ ran w1 = ran w ++ [cmd].
Proof.
  intros H.
  destruct (binds g "json") eqn:Hj;
    [|by rewrite (config_body_unbound _ _ _ Hj) in H].
  split; [done|].
  destruct (command_of scope) as [cmd|] eqn:Hcmd;
    [|by destruct (config_body_no_command g scope w v w1 Hcmd)].
  exists cmd. split; [done|].
  rewrite (config_body_bound _ _ _ _ Hj Hcmd) in H.
  eapply try_check_output_ran; [|exact H].
  intros out; apply steps_bind; [apply _| by apply keeps_json_load |].
  intros cd. destruct scope; try apply steps_ret, _.
  apply steps_bind; [apply _ | apply pure_keeps, pure_global |]. intros _.
  apply steps_bind; [apply _ | apply keeps_dict_of |]. intros d.
  apply steps_bind; [apply _ | by apply keeps_Config_init |]. intros self.
  apply steps_ret, _.
Qed.

Lemma config_call_ran g args kwargs w v w1 :
  config_call g args kwargs w = (Ret v, w1) ->
  exists cmd, ran w1 = ran w ++ [cmd].
Proof.
  unfold config_call. intros H.
  repeat case_match; try done; subst.
  all: apply config_body_ran in H as (_ & cmd & _ & H); eauto.
Qed.

Lemma config_call_scope g args kwargs scope :
  scope_of args kwargs = Some scope ->
  config_call g args kwargs = config_body g scope.
Proof.
  unfold scope_of, config_call. intros H.
  repeat case_match; by simplify_eq.
Qed.

Lemma config_body_garbage g scope cmd w :
  binds g "json" = true ->
  command_of scope = Some cmd ->
  tool w cmd = Output Garbage ->
  config_body g scope w = (Ret VNone, (set_ran (ran w ++ [cmd]) w).2).
Proof.
  intros Hj Hc Ht. rewrite (config_body_bound _ _ _ _ Hj Hc).
  unfold try_except, bind. by rewrite check_output_spec, Ht.
Qed.

(** C9. When [config-get] answers with a text that is not JSON, what
    [config] does depends on the name [json] alone.  In the file as it is
    the name is unbound: the call raises [NameError], which its
    [except ValueError] does not catch, and runs no command.  With
    [json] bound it returns [None] and raises nothing.  This holds with a
    scope as without one, of the function itself and of the memoized
    function whenever the call is not answered from the cache. *)
Theorem config_not_json (g : list string) (addr : string) (scope : val)
    (cmd : list string) (w : World) :
  command_of scope = Some cmd ->
  tool w cmd = Output Garbage ->
  config_body g scope w
  = (if binds g "json"
     then (Ret VNone, (set_ran (ran w ++ [cmd]) w).2)
     else (Raise NameError, w))
  /\ forall args kwargs key,
       scope_of args kwargs = Some scope ->
       key_of (config_func g addr) args kwargs w = Some key ->
       cache w !! key = None ->
       (config g addr args kwargs w).1
       = if binds g "json" then Ret VNone else Raise NameError.
Proof.
  intros Hc Ht.
  assert (config_body g scope w
          = (if binds g "json"
             then (Ret VNone, (set_ran (ran w ++ [cmd]) w).2)
             else (Raise NameError, w))) as Hb.
  { destruct (binds g "json") eqn:Hj.
    - by apply config_body_garbage.
    - by apply config_body_unbound. }
  split; [exact Hb|].
  intros args kwargs key Hs Hk Hm. unfold config.
  rewrite (cached_miss _ _ _ _ _ Hk Hm). cbn [fn_call config_func].
  rewrite (config_call_scope _ _ _ _ Hs), Hb.
  by destruct (binds g "json").
Qed.

Lemma config_not_json_witness :
  let w := start env0 ∅ (fun _ => Output Garbage) in
  config unit_py "0x7f00" [] [] w = (Raise NameError, w)
  /\ config unit_py "0x7f00" [VStr "port"] [] w = (Raise NameError, w)
  /\ (config ("json" :: unit_py) "0x7f00" [] [] w).1 = Ret VNone
  /\ (config ("json" :: unit_py) "0x7f00" [VStr "port"] [] w).1 = Ret VNone.
Proof.
  intros w. split; [vm_compute; reflexivity|].
  split; [vm_compute; reflexivity|]. split.
  - apply (proj2 (config_not_json ("json" :: unit_py) "0x7f00" VNone
                    ["config-get"; "--format=json"] w eq_refl eq_refl)
             [] [] "(<function config at 0x7f00>, (), {})").
    all: reflexivity.
  - apply (proj2 (config_not_json ("json" :: unit_py) "0x7f00" (VStr "port")
                    ["config-get"; "port"; "--format=json"] w eq_refl
                    eq_refl)
             [VStr "port"] [] "(<function config at 0x7f00>, ('port',), {})").
    all: reflexivity.
Defined.

(** C3. A call whose key has an entry in the cache returns the stored
    value and leaves the world as it is, whatever the body of the function
    would do.  For [config]: when a first call with some arguments returns a
    value, a second call with the same arguments returns the same value (the
    same instance when it is one), changes nothing, and the two calls
    together ran [config-get] exactly once.  In the file as it is no call
    of [config] returns: [json] is unbound, each call that misses the cache
    raises [NameError] and leaves the world as it is, so that nothing is
    stored and [config-get] never runs. *)
Theorem cached_hit_config_once :
  (forall name body body' args kwargs w key v,
      key_of (mkFunc name body) args kwargs w = Some key ->
      cache w !! key = Some v ->
      cached (mkFunc name body') args kwargs w = (Ret v, w))
  /\ (forall g addr args kwargs w key v w1,
         Forall (fun v => scalar v = true) args ->
         Forall (fun v => scalar v = true) kwargs.*2 ->
         key_of (config_func g addr) args kwargs w = Some key ->
         cache w !! key = None ->
         config g addr args kwargs w = (Ret v, w1) ->
         config g addr args kwargs w1 = (Ret v, w1)
         /\ exists cmd, ran w1 = ran w ++ [cmd])
  /\ (forall g addr args kwargs scope w key,
         binds g "json" = false ->
         scope_of args kwargs = Some scope ->
         key_of (config_func g addr) args kwargs w = Some key ->
         cache w !! key = None ->
         config g addr args kwargs w = (Raise NameError, w)).
Proof.
  split; [|split].
  - intros name body body' args kwargs w key v Hk Hc.
    by apply (cached_hit _ _ _ _ key).
  - intros g addr args kwargs w key v w1 Ha Hkw Hk Hm Hc. split.
    + apply (cached_hit _ _ _ _ key).
      * by rewrite (key_of_scalar _ _ _ w).
      * by eapply cached_stores.
    + unfold config in Hc. rewrite (cached_miss _ _ _ _ _ Hk Hm) in Hc.
      simpl in Hc.
      destruct (config_call g args kwargs w) as [[r|e] w'] eqn:E; [|done].
      apply config_call_ran in E as [cmd E]. exists cmd.
      by simplify_eq.
  - intros g addr args kwargs scope w key Hj Hs Hk Hm. unfold config.
    rewrite (cached_miss _ _ _ _ _ Hk Hm). cbn [fn_call config_func].
    by rewrite (config_call_scope _ _ _ _ Hs), (config_body_unbound _ _ _ Hj).
Qed.

(** A memoized call keeps an entry that its body keeps. *)
Lemma cached_keeps_entry func args kwargs w key v :
  (forall w v, cache w !! key = Some v ->
               cache (fn_call func args kwargs w).2 !! key = Some v) ->
  cache w !! key = Some v ->
  cache (cached func args kwargs w).2 !! key = Some v.
Proof.
  intros Hbody He.
  destruct (key_of func args kwargs w) as [key'|] eqn:Hk.
  - destruct (cache w !! key') as [v'|] eqn:Hc.
    + by rewrite (cached_hit _ _ _ _ _ _ Hk Hc).
    + rewrite (cached_miss _ _ _ _ _ Hk Hc).
      pose proof (Hbody w v He) as Hkeep.
      destruct (fn_call func args kwargs w) as [[r|e] w1]; simpl in *.
      * rewrite lookup_insert_ne; [done|]. congruence.
      * done.
  - destruct (cache_key_none _ _ _ _ Hk) as [e ->]. done.
Qed.

Lemma config_keeps_entry g addr args kwargs w key v :
  cache w !! key = Some v ->
  cache (config g addr args kwargs w).2 !! key = Some v.
Proof.
  apply cached_keeps_entry. intros w0 v0 H0. cbn [fn_call config_func].
  destruct cache_ignores as (Hh & Ha & Hr).
  pose proof (keeps_config_call cache g args kwargs Hh Ha Hr w0) as Hkeep.
  unfold keeps in Hkeep. by rewrite Hkeep.
Qed.

Lemma flush_lookup s w key :
  cache (flush s w).2 !! key
  = if contains s key then None else cache w !! key.
Proof.
  unfold flush, bind. simpl.
  destruct (contains s key) eqn:E.
  - apply map_lookup_filter_None. right. intros v _. simpl. congruence.
  - destruct (cache w !! key) as [v|] eqn:Hc.
    + apply map_lookup_filter_Some. done.
    + apply map_lookup_filter_None. by left.
Qed.

Lemma happen_keeps_entry key e w v :
  spares key e ->
  cache w !! key = Some v ->
  cache (happen e w) !! key = Some v.
Proof.
  destruct e as [func args kwargs|s|t|p c]; cbn [happen spares];
    intros Hs Hc; try done.
  - by apply cached_keeps_entry.
  - rewrite flush_lookup. by rewrite Hs.
Qed.

Lemma happens_keeps_entry key es w v :
  Forall (spares key) es ->
  cache w !! key = Some v ->
  cache (happens es w) !! key = Some v.
Proof.
  intros Hes. revert w. induction Hes as [|e es He Hes IH]; intros w Hc.
  - done.
  - simpl. apply IH. by apply happen_keeps_entry.
Qed.

(** C10. [None] is memoized like any other value, for every memoized
    function.  When a call misses the cache and the body returns [None],
    the wrapper returns [None] and stores it under the key of the call.
    From then on, whatever happens in the process but a flush of that
    entry (calls of memoized functions, new answers of the tools, files
    written, flushes of other keys), a call with the same key returns
    [None] and leaves the world as it is, whatever the body would do now:
    the body is not invoked.  A flush whose argument occurs in the key
    removes the entry, and the next call invokes the body again. *)
Theorem None_is_cached (func : pyfunc) (args : list val) (kwargs : items)
    (w w1 : World) (key : string) (es : list event) :
  key_of func args kwargs w = Some key ->
  cache w !! key = None ->
  fn_call func args kwargs w = (Ret VNone, w1) ->
  Forall (spares key) es ->
  let r := cached func args kwargs w in
  let w2 := happens es r.2 in
  r = (Ret VNone, (set_cache (<[key := VNone]> (cache w1)) w1).2)
  /\ cache w2 !! key = Some VNone
  /\ (forall body',
         key_of func args kwargs w2 = Some key ->
         cached (mkFunc (fn_str func) body') args kwargs w2 = (Ret VNone, w2))
  /\ forall s,
       contains s key = true ->
       let w3 := (flush s w2).2 in
       cache w3 !! key = None
       /\ (key_of func args kwargs w3 = Some key ->
           cached func args kwargs w3
           = match fn_call func args kwargs w3 with
             | (Ret v, w4) => (Ret v, (set_cache (<[key := v]> (cache w4)) w4).2)
             | (Raise e, w4) => (Raise e, w4)
             end).
Proof.
  intros Hk Hm Hbody Hes r w2.
  assert (r = (Ret VNone, (set_cache (<[key := VNone]> (cache w1)) w1).2))
    as Hr.
  { unfold r. by rewrite (cached_miss _ _ _ _ _ Hk Hm), Hbody. }
  assert (cache w2 !! key = Some VNone) as Hc2.
  { apply happens_keeps_entry; [done|]. rewrite Hr. simpl.
    apply lookup_insert_eq. }
  split; [exact Hr|]. split; [exact Hc2|]. split.
  - intros body' Hk2. apply (cached_hit _ _ _ _ key); [|done].
    by rewrite <- Hk2.
  - intros s Hs w3.
    assert (cache w3 !! key = None) as Hc3.
    { unfold w3. by rewrite flush_lookup, Hs. }
    split; [exact Hc3|]. intros Hk3. by apply cached_miss.
Qed.

Lemma json_ind' (P : json -> Prop) :
  P JNull -> (forall b, P (JBool b)) -> (forall n, P (JInt n)) ->
  (forall s, P (JStr s)) ->
  (forall xs, Forall P xs -> P (JList xs)) ->
  (forall kvs, Forall (fun kv => P kv.2) kvs -> P (JObj kvs)) ->
  forall j, P j.
Proof.
  intros HN HB HI HS HL HO. fix go 1.
  intros [ | b | n | s | xs | kvs];
    [apply HN | apply HB | apply HI | apply HS | | ].
  - apply HL. induction xs as [|x xs IH]; constructor; [apply go | exact IH].
  - apply HO. induction kvs as [|[k x] kvs IH]; constructor;
      [apply go | exact IH].
Qed.

Lemma reify_ref n h l :
  reify (S n) h (VRef l)
  = match shape <$> h !! l with
    | Some (inl vs) => JList <$> mapM (reify n h) vs
    | Some (inr kvs) => JObj <$> reify_items n h kvs
    | None => None
    end.
Proof. done. Qed.

Lemma reify_scalar n h v : scalar v = true -> is_Some (reify n h v).
Proof. destruct v, n; simpl; eauto; done. Qed.

Lemma reify_0 h v j m : reify 0 h v = Some j -> reify m h v = Some j.
Proof. destruct v, m; simpl; done. Qed.

Lemma reify_mono n : forall m h v j,
  n <= m -> reify n h v = Some j -> reify m h v = Some j.
Proof.
  induction n as [|n IH]; intros m h v j Hle H; [by eapply reify_0|].
  destruct m as [|m]; [lia|]. destruct v; try done.
  rewrite reify_ref in *.
  destruct (shape <$> h !! l) as [[vs|kvs]|]; [| |done].
  - apply fmap_Some in H as (js & H & ->). apply fmap_Some. exists js.
    split; [|done]. apply mapM_Some in H. apply mapM_Some.
    eapply Forall2_impl; [exact H|]. intros x y Hx. apply (IH m); [lia|done].
  - apply fmap_Some in H as (js & H & ->). apply fmap_Some. exists js.
    split; [|done]. unfold reify_items in *.
    apply mapM_Some in H. apply mapM_Some.
    eapply Forall2_impl; [exact H|]. intros [k x] y Hx. simpl in *.
    apply fmap_Some in Hx as (jx & Hx & ->). apply fmap_Some. exists jx.
    split; [|done]. apply (IH m); [lia|done].
Qed.

Lemma reify_app n : forall h ext v j,
  reify n h v = Some j -> reify n (h ++ ext) v = Some j.
Proof.
  induction n as [|n IH]; intros h ext v j H.
  { destruct v; done. }
  destruct v; try done. rewrite reify_ref in *.
  destruct (h !! l) as [o|] eqn:E; [|done].
  rewrite (lookup_app_l_Some _ _ _ _ E). simpl in *.
  destruct (shape o) as [vs|kvs].
  - apply fmap_Some in H as (js & H & ->). apply fmap_Some. exists js.
    split; [|done]. apply mapM_Some in H. apply mapM_Some.
    eapply Forall2_impl; [exact H|]. intros x y Hx. by apply IH.
  - apply fmap_Some in H as (js & H & ->). apply fmap_Some. exists js.
    split; [|done]. unfold reify_items in *.
    apply mapM_Some in H. apply mapM_Some.
    eapply Forall2_impl; [exact H|]. intros [k x] y Hx. simpl in *.
    apply fmap_Some in Hx as (jx & Hx & ->). apply fmap_Some. exists jx.
    split; [|done]. by apply IH.
Qed.

Lemma reify_agree a b h h' n : forall v,
  closed a b h -> agree a b h h' -> within a b v ->
  reify n h' v = reify n h v.
Proof.
  induction n as [|n IH]; intros v Hc Ha Hv.
  { destruct v; done. }
  destruct v; try done. rewrite !reify_ref. simpl in Hv.
  rewrite (Ha _ Hv). destruct (h !! l) as [o|] eqn:E; [|done]. simpl.
  pose proof (Hc _ _ Hv E) as Ho. unfold obj_vals in Ho.
  destruct (shape o) as [vs|kvs].
  - f_equal. apply Forall_mapM_ext.
    eapply Forall_impl; [exact Ho|]. intros x Hx. by apply IH.
  - f_equal. apply Forall_mapM_ext. rewrite Forall_fmap in Ho.
    eapply Forall_impl; [exact Ho|]. intros [k x] Hx. simpl in *.
    f_equal. by apply IH.
Qed.

Lemma alloc_json_list xs h :
  alloc_json (JList xs) h
  = let '(vs, h') := alloc_jsons xs h in (VRef (length h'), h' ++ [OList vs]).
Proof. done. Qed.

Lemma alloc_json_obj kvs h :
  alloc_json (JObj kvs) h
  = let '(its, h') := alloc_items kvs h in
    (VRef (length h'), h' ++ [ODict its]).
Proof. done. Qed.

Lemma within_weaken a b a' b' v :
  a' <= a -> b <= b' -> within a b v -> within a' b' v.
Proof. destruct v; simpl; try done. lia. Qed.

Lemma alloc_json_built j : forall h v h',
  alloc_json j h = (v, h') -> built j h v h'.
Proof.
  induction j as [ | b | n | s | xs IH | kvs IH] using json_ind';
    intros h v h' H.
  1-4: simpl in H; simplify_eq; exists []; rewrite app_nil_r; done.
  - rewrite alloc_json_list in H.
    assert (forall h vs h1, alloc_jsons xs h = (vs, h1) ->
              exists ext, h1 = h ++ ext
                /\ length ext = foldr (fun x n => json_cells x + n) 0 xs
                /\ Forall (within (length h) (length h1)) vs
                /\ Forall (fun o => Forall (within (length h) (length h1)) (obj_vals o)
                                    /\ forall c, o <> OConfig c) ext
                /\ mapM (reify (foldr (fun x n => Nat.max (json_depth x) n) 0 xs) h1) vs
                   = Some xs) as Hxs.
    { clear H h v h'. induction IH as [|x xs Hx _ IHxs]; intros h vs h1 H.
      - simpl in H. simplify_eq. exists []. rewrite app_nil_r. done.
      - simpl in H. destruct (alloc_json x h) as [v ha] eqn:Ea.
        destruct (alloc_jsons xs ha) as [vs' hb] eqn:Eb. simplify_eq.
        destruct (Hx _ _ _ Ea) as (e1 & -> & Hl1 & Hw1 & Hc1 & Hr1).
        destruct (IHxs _ _ _ Eb) as (e2 & -> & Hl2 & Hw2 & Hc2 & Hr2).
        exists (e1 ++ e2). rewrite !length_app in *.
        split; [by rewrite app_assoc|]. split; [simpl; lia|].
        split.
        { constructor.
          - eapply within_weaken; [| |exact Hw1]; lia.
          - eapply Forall_impl; [exact Hw2|]. intros y.
            apply within_weaken; lia. }
        split.
        { apply Forall_app. split.
          - eapply Forall_impl; [exact Hc1|]. intros o [Ho Hn]. split; [|done].
            eapply Forall_impl; [exact Ho|]. intros y.
            apply within_weaken; lia.
          - eapply Forall_impl; [exact Hc2|]. intros o [Ho Hn]. split; [|done].
            eapply Forall_impl; [exact Ho|]. intros y.
            apply within_weaken; lia. }
        cbn [foldr]. apply mapM_Some. constructor.
        + eapply reify_mono; [|apply reify_app; exact Hr1]. lia.
        + apply mapM_Some in Hr2.
          eapply Forall2_impl; [exact Hr2|]. intros y jy Hy.
          eapply reify_mono; [|exact Hy]. lia. }
    destruct (alloc_jsons xs h) as [vs h1] eqn:E. simplify_eq.
    destruct (Hxs _ _ _ E) as (ext & -> & Hl & Hw & Hc & Hr).
    exists (ext ++ [OList vs]). rewrite !length_app in *.
    cbn [length json_cells json_depth within].
    split; [by rewrite app_assoc|]. split; [lia|]. split; [lia|].
    split.
    { apply Forall_app. split.
      - eapply Forall_impl; [exact Hc|]. intros o [Ho Hn]. split; [|done].
        eapply Forall_impl; [exact Ho|]. intros y. apply within_weaken; lia.
      - constructor; [|done]. split; [|done]. simpl.
        eapply Forall_impl; [exact Hw|]. intros y. apply within_weaken; lia. }
    rewrite reify_ref.
    rewrite lookup_app_r by (rewrite length_app; lia).
    rewrite length_app, Nat.sub_diag. simpl.
    apply fmap_Some. exists xs. split; [|done].
    apply mapM_Some in Hr. apply mapM_Some.
    eapply Forall2_impl; [exact Hr|]. intros y jy Hy. by apply reify_app.
  - rewrite alloc_json_obj in H.
    assert (forall h its h1, alloc_items kvs h = (its, h1) ->
              exists ext, h1 = h ++ ext
                /\ length ext = foldr (fun kv n => json_cells kv.2 + n) 0 kvs
                /\ Forall (within (length h) (length h1)) its.*2
                /\ Forall (fun o => Forall (within (length h) (length h1)) (obj_vals o)
                                    /\ forall c, o <> OConfig c) ext
                /\ reify_items (foldr (fun kv n => Nat.max (json_depth kv.2) n) 0 kvs) h1 its
                   = Some kvs) as Hxs.
    { clear H h v h'. induction IH as [|[k x] xs Hx _ IHxs]; intros h vs h1 H.
      - simpl in H. simplify_eq. exists []. rewrite app_nil_r. done.
      - simpl in H. destruct (alloc_json x h) as [v ha] eqn:Ea.
        destruct (alloc_items xs ha) as [vs' hb] eqn:Eb. simplify_eq.
        simpl in Hx.
        destruct (Hx _ _ _ Ea) as (e1 & -> & Hl1 & Hw1 & Hc1 & Hr1).
        destruct (IHxs _ _ _ Eb) as (e2 & -> & Hl2 & Hw2 & Hc2 & Hr2).
        exists (e1 ++ e2). rewrite !length_app in *.
        split; [by rewrite app_assoc|]. split; [simpl; lia|].
        split.
        { simpl. constructor.
          - eapply within_weaken; [| |exact Hw1]; lia.
          - eapply Forall_impl; [exact Hw2|]. intros y.
            apply within_weaken; lia. }
        split.
        { apply Forall_app. split.
          - eapply Forall_impl; [exact Hc1|]. intros o [Ho Hn]. split; [|done].
            eapply Forall_impl; [exact Ho|]. intros y.
            apply within_weaken; lia.
          - eapply Forall_impl; [exact Hc2|]. intros o [Ho Hn]. split; [|done].
            eapply Forall_impl; [exact Ho|]. intros y.
            apply within_weaken; lia. }
        unfold reify_items in *. cbn [foldr]. apply mapM_Some. constructor.
        + simpl. apply fmap_Some. exists x. split; [|done].
          eapply reify_mono; [|apply reify_app; exact Hr1]. lia.
        + apply mapM_Some in Hr2.
          eapply Forall2_impl; [exact Hr2|]. intros [k' y] jy Hy. simpl in *.
          apply fmap_Some in Hy as (jx & Hy & ->). apply fmap_Some.
          exists jx. split; [|done].
          eapply reify_mono; [|exact Hy]. lia. }
    destruct (alloc_items kvs h) as [its h1] eqn:E. simplify_eq.
    destruct (Hxs _ _ _ E) as (ext & -> & Hl & Hw & Hc & Hr).
    exists (ext ++ [ODict its]). rewrite !length_app in *.
    cbn [length json_cells json_depth within].
    split; [by rewrite app_assoc|]. split; [lia|]. split; [lia|].
    split.
    { apply Forall_app. split.
      - eapply Forall_impl; [exact Hc|]. intros o [Ho Hn]. split; [|done].
        eapply Forall_impl; [exact Ho|]. intros y. apply within_weaken; lia.
      - constructor; [|done]. split; [|done]. unfold obj_vals. simpl.
        eapply Forall_impl; [exact Hw|]. intros y. apply within_weaken; lia. }
    rewrite reify_ref.
    rewrite lookup_app_r by (rewrite length_app; lia).
    rewrite length_app, Nat.sub_diag. simpl.
    apply fmap_Some. exists kvs. split; [|done].
    unfold reify_items in *.
    apply mapM_Some in Hr. apply mapM_Some.
    eapply Forall2_impl; [exact Hr|]. intros [k y] jy Hy. simpl in *.
    apply fmap_Some in Hy as (jx & Hy & ->). apply fmap_Some.
    exists jx. split; [|done]. by apply reify_app.
Qed.

Lemma dict_get_set d k v k' :
  dict_get (dict_set d k v) k'
  = if String.eqb k k' then Some v else dict_get d k'.
Proof.
  induction d as [|[k0 v0] d IH]; simpl.
  - done.
  - destruct (String.eqb k0 k) eqn:E; simpl.
    + apply String.eqb_eq in E. subst. by destruct (_ =? k')%string.
    + rewrite IH. destruct (String.eqb k0 k') eqn:E'; [|done].
      apply String.eqb_eq in E' as ->. by rewrite String.eqb_sym, E.
Qed.

Lemma dict_get_merge its : forall d k,
  dict_get (merge d its) k
  = match dict_get d k with
    | Some v => Some v
    | None => dict_get its k
    end.
Proof.
  induction its as [|[k0 v0] its IH]; intros d k; simpl.
  { by destruct (dict_get d k). }
  rewrite IH. unfold dict_has. destruct (dict_get d k0) eqn:E0.
  - destruct (dict_get d k) eqn:E; [done|].
    destruct (String.eqb k0 k) eqn:Ek; [|done].
    apply String.eqb_eq in Ek as ->. congruence.
  - rewrite dict_get_set. destruct (String.eqb k0 k) eqn:Ek; [|done].
    apply String.eqb_eq in Ek as ->. by rewrite E0.
Qed.

Lemma dict_set_vals (P : val -> Prop) d k v :
  Forall P d.*2 -> P v -> Forall P (dict_set d k v).*2.
Proof.
  induction d as [|[k0 v0] d IH]; simpl; intros Hd Hv.
  - by constructor.
  - apply Forall_cons in Hd as [H0 Hd].
    destruct (String.eqb k0 k); simpl; constructor; auto.
Qed.

Lemma dict_del_vals (P : val -> Prop) d k :
  Forall P d.*2 -> Forall P (dict_del d k).*2.
Proof.
  induction d as [|[k0 v0] d IH]; simpl; intros Hd; [done|].
  apply Forall_cons in Hd as [H0 Hd].
  destruct (String.eqb k0 k); simpl; [done|]. constructor; auto.
Qed.

Lemma dict_get_vals (P : val -> Prop) d k v :
  Forall P d.*2 -> dict_get d k = Some v -> P v.
Proof.
  induction d as [|[k0 v0] d IH]; simpl; intros Hd Hg; [done|].
  apply Forall_cons in Hd as [H0 Hd].
  destruct (String.eqb k0 k); simplify_eq; auto.
Qed.

Lemma merge_vals (P : val -> Prop) its : forall d,
  Forall P d.*2 -> Forall P its.*2 -> Forall P (merge d its).*2.
Proof.
  induction its as [|[k0 v0] its IH]; intros d Hd Hi; simpl; [done|].
  simpl in Hi. apply Forall_cons in Hi as [H0 Hi].
  apply IH; [|done]. destruct (dict_has d k0); [done|].
  by apply dict_set_vals.
Qed.

Lemma json_depth_cells j : json_depth j <= json_cells j.
Proof.
  induction j as [ | b | n | s | xs IH | kvs IH] using json_ind'; simpl;
    try lia.
  - apply le_n_S. induction IH as [|x xs Hx _ IHxs]; simpl; lia.
  - apply le_n_S. induction IH as [|x xs Hx _ IHxs]; simpl; lia.
Qed.

Lemma built_closed j h v h' :
  built j h v h' -> closed (length h) (length h') h'.
Proof.
  intros (ext & -> & _ & _ & Hc & _) l o Hl Ho.
  rewrite lookup_app_r in Ho by lia.
  eapply Forall_lookup_1 in Hc as [Hc _]; [exact Hc | exact Ho].
Qed.

Lemma built_fuel j h v h' :
  built j h v h' -> reify (fuel h') h' v = Some j.
Proof.
  intros (ext & -> & Hl & _ & _ & Hr).
  eapply reify_mono; [|exact Hr]. unfold fuel. rewrite length_app, Hl.
  pose proof (json_depth_cells j). lia.
Qed.

Lemma json_load_built j w :
  exists v h', json_load (Json j) w = (Ret v, (set_heap h' w).2)
               /\ built j (heap w) v h'.
Proof.
  unfold json_load. destruct (alloc_json j (heap w)) as [v h'] eqn:E.
  exists v, h'. split; [done|]. by apply alloc_json_built.
Qed.

(** The copy [deepcopy] makes of a value that reads as [j]. *)
Lemma deepcopy_built j v w :
  reify (fuel (heap w)) (heap w) v = Some j ->
  exists v' h', deepcopy v w = (Ret v', (set_heap h' w).2)
                /\ built j (heap w) v' h'.
Proof.
  intros H. unfold deepcopy. rewrite H. apply json_load_built.
Qed.

Lemma store_same l o w :
  heap w !! l = Some o -> store l o w = (Ret tt, w).
Proof.
  intros H. unfold store. rewrite list_insert_id by done. by destruct w.
Qed.

Lemma with_data_id c : with_data c (data c) = c.
Proof. by destruct c. Qed.

Lemma set_heap_id w : (set_heap (heap w) w).2 = w.
Proof. by destruct w. Qed.

Lemma get_config_at self c w :
  heap w !! self = Some (OConfig c) -> get_config self w = (Ret c, w).
Proof. intros H. unfold get_config, bind, deref. by rewrite H. Qed.

Lemma setitem_config self c k v w :
  heap w !! self = Some (OConfig c) ->
  setitem self k v w
  = (Ret tt, (set_heap (<[self := OConfig (with_data c (dict_set (data c) k v))]>
                          (heap w)) w).2).
Proof. intros H. unfold setitem, bind, deref. by rewrite H. Qed.

Lemma merge_missing_spec self its : forall w c,
  heap w !! self = Some (OConfig c) ->
  merge_missing self its w
  = (Ret tt, (set_heap (<[self := OConfig (with_data c (merge (data c) its))]>
                          (heap w)) w).2).
Proof.
  induction its as [|[k v] its IH]; intros w c Hc.
  - cbn [merge_missing]. unfold ret, merge. cbn [fold_left].
    rewrite with_data_id, list_insert_id by done.
    by rewrite set_heap_id.
  - cbn [merge_missing]. unfold bind at 1. rewrite (get_config_at _ _ _ Hc).
    unfold bind at 1. simpl.
    assert (self < length (heap w)) as Hlt by (by eapply lookup_lt_Some).
    destruct (dict_has (data c) k) eqn:Ek.
    + unfold ret at 1. by rewrite (IH _ c Hc).
    + rewrite (setitem_config _ _ _ _ _ Hc).
      erewrite IH; [|simpl; by apply list_lookup_insert_eq].
      simpl. by rewrite list_insert_insert_eq.
Qed.

Lemma built_obj snap h v h' :
  built (JObj snap) h v h' ->
  exists l its,
    v = VRef l /\ length h <= l < length h'
    /\ h' !! l = Some (ODict its)
    /\ Forall (within (length h) (length h')) its.*2
    /\ reify_items (fuel h') h' its = Some snap.
Proof.
  intros Hb. pose proof (built_fuel _ _ _ _ Hb) as Hf.
  pose proof (built_closed _ _ _ _ Hb) as Hcl.
  destruct Hb as (ext & -> & Hl & Hw & Hc & Hr).
  destruct v as [ | | | |l]; try done. simpl in Hw.
  unfold fuel in Hf. rewrite reify_ref in Hf.
  destruct ((h ++ ext) !! l) as [o|] eqn:E; [|done]. simpl in Hf.
  pose proof (Hcl _ _ Hw E) as Hv.
  pose proof E as E'. rewrite lookup_app_r in E' by lia.
  eapply Forall_lookup_1 in Hc as [_ Hn]; [|exact E'].
  destruct o as [vs|its|c]; [|  |by destruct (Hn c)].
  { simpl in Hf. by apply fmap_Some in Hf as (? & ? & ?). }
  exists l, its. simpl in Hf. apply fmap_Some in Hf as (kvs & Hf & ?).
  simplify_eq. repeat split; try done; try lia.
  eapply mapM_Some. apply mapM_Some in Hf.
  eapply Forall2_impl; [exact Hf|]. intros [k x] jy Hy. cbn [fst snd] in *.
  apply fmap_Some in Hy as (jx & Hy & ->). apply fmap_Some.
  exists jx. split; [|done]. eapply reify_mono; [|exact Hy]. unfold fuel. lia.
Qed.

Lemma agree_insert a b (h : list obj) l o :
  l < a -> agree a b h (<[l := o]> h).
Proof. intros Hl l' Hl'. apply list_lookup_insert_ne. lia. Qed.

Lemma load_previous_snapshot self c snap w :
  heap w !! self = Some (OConfig c) ->
  files w !! path c = Some (Json (JObj snap)) ->
  exists v h2 cp h4 its lc,
    built (JObj snap) (heap w) v h2
    /\ built (JObj snap) (<[self := OConfig (with_prev c v)]> h2) cp h4
    /\ cp = VRef lc /\ h4 !! lc = Some (ODict its)
    /\ Forall (within (length h2) (length h4)) its.*2
    /\ reify_items (fuel h4) h4 its = Some snap
    /\ load_previous self None w
       = (Ret VNone,
          (set_heap (<[self := OConfig (with_data (with_prev c v)
                                          (merge (data c) its))]> h4) w).2).
Proof.
  intros Hc Hf.
  assert (self < length (heap w)) as Hlt by (by eapply lookup_lt_Some).
  destruct (json_load_built (JObj snap) w) as (v & h2 & Hj & Hb).
  set (h3 := <[self := OConfig (with_prev c v)]> h2).
  assert (reify (fuel h3) h3 v = Some (JObj snap)) as Hr3.
  { pose proof (built_fuel _ _ _ _ Hb) as Hr.
    pose proof (built_closed _ _ _ _ Hb) as Hcl.
    unfold h3, fuel. rewrite length_insert.
    rewrite (reify_agree (length (heap w)) (length h2) h2); [done|done| |].
    - by apply agree_insert.
    - by destruct Hb as (ext & -> & _ & Hw & _). }
  destruct (deepcopy_built (JObj snap) v (set_heap h3 w).2 Hr3)
    as (cp & h4 & Hd & Hb').
  simpl in Hb'.
  destruct (built_obj _ _ _ _ Hb') as (lc & its & -> & Hlc & Hcell & Hw & Hri).
  exists v, h2, (VRef lc), h4, its, lc.
  unfold h3 in Hw. rewrite length_insert in Hw.
  repeat split; try done.
  unfold load_previous.
  rewrite (bind_Ret _ _ _ _ _ (get_config_at _ _ _ Hc)).
  erewrite bind_Ret; [|apply store_same; by destruct c].
  erewrite bind_Ret; [|unfold read_file; by rewrite Hf].
  erewrite bind_Ret; [|exact Hj].
  assert (h2 !! self = Some (OConfig c)) as Hc2.
  { destruct Hb as (ext & -> & _). by apply lookup_app_l_Some. }
  erewrite bind_Ret; [|by apply get_config_at].
  erewrite bind_Ret; [|reflexivity].
  erewrite bind_Ret; [|exact Hd].
  erewrite bind_Ret; [|unfold val_items, bind, deref; simpl; by rewrite Hcell].
  assert (h4 !! self = Some (OConfig (with_prev c v))) as Hc4.
  { destruct Hb' as (ext & -> & _). apply lookup_app_l_Some.
    unfold h3. apply list_lookup_insert_eq.
    destruct Hb as (ext' & -> & _). rewrite length_app. lia. }
  erewrite bind_Ret; [|by apply (merge_missing_spec self its _ (with_prev c v))].
  done.
Qed.

Lemma Config_init_no_dir d w :
  environ w !! "CHARM_DIR" = None ->
  Config_init d w = (Raise TypeError, w).
Proof. intros H. unfold Config_init, bind, charm_dir. by rewrite H. Qed.

Lemma Config_init_fresh d w dir :
  environ w !! "CHARM_DIR" = Some dir ->
  files w !! path_join dir CONFIG_FILE_NAME = None ->
  Config_init d w
  = (Ret (length (heap w)),
     registered (length (heap w))
       (set_heap (heap w ++ [OConfig (fresh_config d
                               (path_join dir CONFIG_FILE_NAME))]) w).2).
Proof.
  intros Hd Hf. unfold Config_init.
  erewrite bind_Ret; [|unfold charm_dir; by rewrite Hd].
  cbv beta iota zeta.
  erewrite bind_Ret; [|reflexivity].
  erewrite bind_Ret; [|unfold path_exists; simpl; rewrite Hf; reflexivity].
  rewrite bool_decide_eq_false_2 by (by intros [? ?]).
  done.
Qed.

Lemma Config_init_snapshot d w dir snap :
  environ w !! "CHARM_DIR" = Some dir ->
  files w !! path_join dir CONFIG_FILE_NAME = Some (Json (JObj snap)) ->
  let self := length (heap w) in
  let c := fresh_config d (path_join dir CONFIG_FILE_NAME) in
  exists v h2 cp h4 its lc,
    built (JObj snap) (heap w ++ [OConfig c]) v h2
    /\ built (JObj snap) (<[self := OConfig (with_prev c v)]> h2) cp h4
    /\ cp = VRef lc /\ h4 !! lc = Some (ODict its)
    /\ Forall (within (length h2) (length h4)) its.*2
    /\ reify_items (fuel h4) h4 its = Some snap
    /\ Config_init d w
       = (Ret self,
          registered self
            (set_heap (<[self := OConfig (with_data (with_prev c v)
                                            (merge d its))]> h4) w).2).
Proof.
  intros Hd Hf self c.
  set (w1 := (set_heap (heap w ++ [OConfig c]) w).2).
  assert (heap w1 !! self = Some (OConfig c)) as Hc.
  { simpl. unfold self. by rewrite lookup_app_r, Nat.sub_diag. }
  destruct (load_previous_snapshot self c snap w1 Hc Hf)
    as (v & h2 & cp & h4 & its & lc & Hb & Hb' & -> & Hcell & Hw & Hr & Hl).
  exists v, h2, (VRef lc), h4, its, lc. repeat split; try done.
  unfold Config_init.
  erewrite bind_Ret; [|unfold charm_dir; by rewrite Hd].
  cbv beta iota zeta.
  erewrite bind_Ret; [|reflexivity].
  erewrite bind_Ret; [|unfold path_exists; simpl; rewrite Hf; reflexivity].
  rewrite bool_decide_eq_true_2 by (by eexists).
  erewrite bind_Ret; [|exact Hl]. done.
Qed.

Lemma get_at self o d k w :
  heap w !! self = Some o -> shape o = inr d ->
  get self k w = (Ret (default VNone (dict_get d k)), w).
Proof. intros H Hs. unfold get, bind, deref. by rewrite H, Hs. Qed.

(** ** The configuration state *)

(** C1. For an instance whose previous snapshot is absent, [changed(key)]
    returns [True]; for one whose previous snapshot is a mapping,
    [changed(key)] is [prev.get(key) != self.get(key)], where a key that a
    side lacks stands for [None] there and no error is raised for it. *)
Theorem changed_spec (self : loc) (key : string) (w : World) (c : Config) :
  heap w !! self = Some (OConfig c) ->
  (_prev_dict c = VNone -> changed self key w = (Ret true, w))
  /\ (forall p prev,
        _prev_dict c = VRef p -> heap w !! p = Some (ODict prev) ->
        changed self key w
        = py_ne (default VNone (dict_get prev key))
                (default VNone (dict_get (data c) key)) w).
Proof.
  intros Hc. split.
  - intros Hp. unfold changed.
    rewrite (bind_Ret _ _ _ _ _ (get_config_at _ _ _ Hc)). by rewrite Hp.
  - intros p prev Hp Hprev. unfold changed.
    rewrite (bind_Ret _ _ _ _ _ (get_config_at _ _ _ Hc)). rewrite Hp.
    assert (previous self key w
            = (Ret (default VNone (dict_get prev key)), w)) as Hprevious.
    { unfold previous.
      rewrite (bind_Ret _ _ _ _ _ (get_config_at _ _ _ Hc)).
      erewrite bind_Ret; [|reflexivity]. rewrite Hp. simpl. rewrite Hprev.
      simpl. destruct prev as [|kv prev']; [done|].
      by apply (get_at p (ODict (kv :: prev'))). }
    rewrite (bind_Ret _ _ _ _ _ Hprevious).
    by rewrite (bind_Ret _ _ _ _ _ (get_at self _ _ key _ Hc eq_refl)).
Qed.

Lemma reify_items_get n h its snap k :
  reify_items n h its = Some snap ->
  match json_get snap k with
  | Some j => exists v, dict_get its k = Some v /\ reify n h v = Some j
  | None => dict_get its k = None
  end.
Proof.
  unfold reify_items. intros H. apply mapM_Some in H.
  induction H as [|[k0 v0] [k1 j1] its snap H0 _ IH]; simpl; [done|].
  simpl in H0. apply fmap_Some in H0 as (j & Hj & ?). simplify_eq.
  destruct (String.eqb _ k); [|done]. eauto.
Qed.

Lemma registered_heap self w : heap (registered self w) = heap w.
Proof. done. Qed.

Lemma Config_init_merges (d : items) (w : World) (dir : string)
    (snap : list (string * json)) (self : loc) (w1 : World) :
  environ w !! "CHARM_DIR" = Some dir ->
  files w !! path_join dir CONFIG_FILE_NAME = Some (Json (JObj snap)) ->
  Config_init d w = (Ret self, w1) ->
  exists c, config_at w1 self = Some c
    /\ snapshot_of w1 self = Some (JObj snap)
    /\ forall k,
         match dict_get d k, json_get snap k with
         | Some v, _ => dict_get (data c) k = Some v
         | None, Some j =>
             exists v, dict_get (data c) k = Some v
                       /\ reify (fuel (heap w1)) (heap w1) v = Some j
         | None, None => dict_get (data c) k = None
         end.
Proof.
  intros Hd Hf Hi.
  destruct (Config_init_snapshot d w dir snap Hd Hf)
    as (v & h2 & cp & h4 & its & lc & Hb & Hb' & -> & Hcell & Hw & Hr & Hl).
  rewrite Hl in Hi. simplify_eq.
  set (self := length (heap w)) in *.
  set (c := fresh_config d _) in *.
  set (c' := with_data (with_prev c v) (merge d its)).
  assert (self < length h2) as Hlt2.
  { destruct Hb as (ext & -> & _). rewrite !length_app. simpl. lia. }
  assert (length h2 <= length h4) as Hlt4.
  { destruct Hb' as (ext & -> & _). rewrite !length_app, length_insert. lia. }
  exists c'. unfold config_at, snapshot_of. rewrite registered_heap.
  cbn [heap set_heap snd].
  rewrite list_lookup_insert_eq by lia. split; [done|].
  cbn [c' _prev_dict with_data with_prev].
  assert (forall x, within (length h2) (length h4) x ->
            reify (fuel (<[self:=OConfig c']> h4)) (<[self:=OConfig c']> h4) x
            = reify (fuel h4) h4 x) as Hfr.
  { intros x Hx. unfold fuel. rewrite length_insert.
    apply (reify_agree (length h2) (length h4)); [| |done].
    - pose proof (built_closed _ _ _ _ Hb') as Hcl.
      by rewrite length_insert in Hcl.
    - apply agree_insert. lia. }
  split.
  - (* the snapshot itself *)
    pose proof (built_fuel _ _ _ _ Hb) as Hrv.
    pose proof (built_closed _ _ _ _ Hb) as Hcl.
    assert (within (length (heap w ++ [OConfig c])) (length h2) v) as Hv.
    { by destruct Hb as (ext & -> & _ & Hv & _). }
    destruct v as [ | | | |pv]; try (simpl in Hrv; done).
    clear Hfr. destruct Hb' as (ext & -> & _).
    unfold fuel. rewrite length_insert.
    rewrite (reify_agree (length (heap w ++ [OConfig c])) (length h2) h2).
    + eapply reify_mono; [|exact Hrv]. unfold fuel.
      rewrite length_app, length_insert. lia.
    + done.
    + intros l Hl'. rewrite length_app in Hl'. simpl in Hl'.
      rewrite list_lookup_insert_ne by (unfold self; lia).
      rewrite lookup_app_l by (rewrite length_insert; lia).
      apply list_lookup_insert_ne. unfold self. lia.
    + done.
  - intros k. replace (data c') with (merge d its) by done.
    rewrite dict_get_merge.
    destruct (dict_get d k) as [x|]; [done|].
    pose proof (reify_items_get _ _ _ _ k Hr) as Hk.
    destruct (json_get snap k) as [j|]; [|done].
    destruct Hk as (x & Hx & Hrx). exists x. split; [done|].
    rewrite Hfr; [done|]. by eapply dict_get_vals.
Qed.

Lemma built_lookup j h v h' l o :
  built j h v h' -> h !! l = Some o -> h' !! l = Some o.
Proof. intros (ext & -> & _) H. by apply lookup_app_l_Some. Qed.

Lemma store_spec l o w :
  store l o w = (Ret tt, (set_heap (<[l := o]> (heap w)) w).2).
Proof. done. Qed.

Lemma read_file_spec p w :
  read_file p w
  = (match files w !! p with
     | Some c => Ret c
     | None => Raise FileNotFoundError
     end, w).
Proof. unfold read_file. by destruct (files w !! p). Qed.

Lemma load_previous_attrs self path_arg w c :
  heap w !! self = Some (OConfig c) ->
  exists c', heap (load_previous self path_arg w).2 !! self = Some (OConfig c')
             /\ path c' = path_after path_arg c
             /\ implicit_save c' = implicit_save c.
Proof.
  intros Hc. unfold load_previous.
  rewrite (bind_Ret _ _ _ _ _ (get_config_at _ _ _ Hc)).
  fold (path_after path_arg c).
  set (c1 := {| data := data c; implicit_save := implicit_save c;
                _prev_dict := _prev_dict c; path := path_after path_arg c |}).
  assert (self < length (heap w)) as Hlt by (by eapply lookup_lt_Some).
  rewrite (bind_Ret _ _ _ _ _ (store_spec _ _ _)).
  set (w1 := (set_heap (<[self:=OConfig c1]> (heap w)) w).2).
  assert (heap w1 !! self = Some (OConfig c1)) as Hc1.
  { simpl. by apply list_lookup_insert_eq. }
  unfold bind at 1. rewrite read_file_spec.
  change (files w1) with (files w).
  destruct (files w !! path_after path_arg c) as [[|j]|]; [by exists c1; split; [exact Hc1|] | | by exists c1; split; [exact Hc1|]].
  destruct (json_load_built j w1) as (v & h2 & Hj & Hb).
  rewrite (bind_Ret _ _ _ _ _ Hj).
  pose proof (built_lookup _ _ _ _ _ _ Hb Hc1) as Hc2.
  erewrite bind_Ret; [|by apply get_config_at].
  rewrite (bind_Ret _ _ _ _ _ (store_spec _ _ _)).
  set (c2 := {| data := data c1; implicit_save := implicit_save c1;
                _prev_dict := v; path := path c1 |}).
  set (w3 := (set_heap (<[self:=OConfig c2]> (heap (set_heap h2 w1).2))
                (set_heap h2 w1).2).2).
  assert (self < length h2) as Hlt2 by (by eapply lookup_lt_Some).
  assert (heap w3 !! self = Some (OConfig c2)) as Hc3.
  { simpl. by apply list_lookup_insert_eq. }
  unfold bind at 1, deepcopy.
  destruct (reify (fuel (heap w3)) (heap w3) v) as [j'|]; [|by exists c2; split; [exact Hc3|]].
  destruct (json_load_built j' w3) as (cp & h4 & Hj' & Hb').
  rewrite Hj'.
  pose proof (built_lookup _ _ _ _ _ _ Hb' Hc3) as Hc4.
  set (w4 := (set_heap h4 w3).2).
  unfold bind at 1.
  pose proof (pure_val_items cp w4) as Hp. unfold keeps, id in Hp.
  destruct (val_items cp w4) as [[its|e] w4']; simpl in Hp; subst w4';
    [|by exists c2; split; [exact Hc4|]].
  erewrite bind_Ret; [|by apply (merge_missing_spec self its w4 c2)].
  eexists. split.
  { simpl. apply list_lookup_insert_eq. by eapply lookup_lt_Some. }
  done.
Qed.

Lemma keeps_write_file {B} (f : World -> B) p c :
  ignores_files f -> steps (keeps f) (write_file p c).
Proof. intros Hf w. apply Hf. Qed.

Lemma keeps_save {B} (f : World -> B) self :
  ignores_files f -> steps (keeps f) (save self).
Proof.
  intros Hf. unfold save.
  apply steps_bind; [apply _ | apply pure_keeps, pure_get_config |].
  intros c. apply steps_bind; [apply _ | by apply keeps_write_file |].
  intros _. apply steps_bind; [apply _ | apply steps_get_world, _ |].
  intros w. case_match; [|apply steps_raise, _].
  apply steps_bind; [apply _ | by apply keeps_write_file |].
  intros _. apply steps_ret, _.
Qed.

Lemma keeps_implicit_save {B} (f : World -> B) self :
  ignores_files f -> steps (keeps f) (_implicit_save self).
Proof.
  intros Hf. unfold _implicit_save.
  apply steps_bind; [apply _ | apply pure_keeps, pure_get_config |].
  intros c. destruct (implicit_save c); [by apply keeps_save|].
  apply steps_ret, _.
Qed.

(** Evaluating an operand only adds cells to the store. *)
Lemma operand_val_grows self x w :
  exists ext, (operand_val self x w).2 = (set_heap (heap w ++ ext) w).2.
Proof.
  destruct x as [j|p|k]; cbn [operand_val].
  - destruct (json_load_built j w) as (v & h' & -> & ext & -> & _).
    by exists ext.
  - exists []. rewrite app_nil_r, set_heap_id. unfold bind, get_world.
    by destruct (navigate (heap w) (VRef self) p).
  - exists []. rewrite app_nil_r, set_heap_id. apply pure_eq, pure_previous.
Qed.

Section Attributes.
Context {B} (g : Config -> B) (Hg : forall c d, g (with_data c d) = g c).

Lemma attr_at_Some w self p :
  attr_at g w self = Some p <->
  exists c, heap w !! self = Some (OConfig c) /\ g c = p.
Proof.
  unfold attr_at, config_at. split.
  - intros H. destruct (heap w !! self) as [[| |c]|]; simplify_eq/=. eauto.
  - intros (c & -> & <-). done.
Qed.

Lemma attr_at_store w self p t o :
  attr_at g w self = Some p ->
  (forall c, heap w !! t = Some (OConfig c) ->
             exists c', o = OConfig c' /\ g c' = g c) ->
  (t = self -> exists c, heap w !! t = Some (OConfig c)) ->
  attr_at g (store t o w).2 self = Some p.
Proof.
  intros Hp Ht _. apply attr_at_Some in Hp as (c & Hc & <-).
  apply attr_at_Some. simpl.
  destruct (decide (t = self)) as [->|Hne].
  - destruct (Ht _ Hc) as (c' & -> & Hpath). exists c'. split; [|done].
    apply list_lookup_insert_eq. by eapply lookup_lt_Some.
  - exists c. by rewrite list_lookup_insert_ne.
Qed.

Lemma attr_at_grow w self p h' :
  attr_at g w self = Some p ->
  (exists ext, h' = heap w ++ ext) ->
  attr_at g (set_heap h' w).2 self = Some p.
Proof.
  intros Hp [ext ->]. apply attr_at_Some in Hp as (c & Hc & <-).
  apply attr_at_Some. exists c. split; [|done]. simpl.
  by apply lookup_app_l_Some.
Qed.

Lemma attr_at_json_load w self p x :
  attr_at g w self = Some p ->
  attr_at g (json_load x w).2 self = Some p.
Proof.
  intros Hp. destruct x as [|j]; [done|].
  destruct (json_load_built j w) as (v & h' & -> & ext & -> & _).
  apply attr_at_grow; eauto.
Qed.

Lemma set_data_attr o d c :
  o = OConfig c -> exists c', set_data o d = OConfig c' /\ g c' = g c.
Proof. intros ->. simpl. eexists. split; [done|apply Hg]. Qed.

Lemma attr_at_setitem w self p t k v :
  attr_at g w self = Some p ->
  attr_at g (setitem t k v w).2 self = Some p.
Proof.
  intros Hp. unfold setitem, bind, deref.
  destruct (heap w !! t) as [o|] eqn:E; [|done].
  destruct (shape o) as [vs|d] eqn:Es; [done|].
  apply attr_at_store; [done| |eauto].
  - intros c Hc. simplify_eq. by apply set_data_attr.
  - intros ->. apply attr_at_Some in Hp as (c & Hc & _). eauto.
Qed.

Lemma attr_at_operand_val w self p t x :
  attr_at g w self = Some p ->
  attr_at g (operand_val t x w).2 self = Some p.
Proof.
  intros Hp. destruct (operand_val_grows t x w) as [ext ->].
  apply attr_at_grow; eauto.
Qed.

Lemma attr_at_apply_update w self p s t u :
  attr_at g w self = Some p ->
  attr_at g (apply_update s t u w).2 self = Some p.
Proof.
  intros Hp. unfold apply_update. unfold bind at 1, deref.
  destruct (heap w !! t) as [o|] eqn:E; [|done].
  assert (forall x (f : val -> obj),
            (forall v c, o = OConfig c ->
                         exists c', f v = OConfig c' /\ g c' = g c) ->
            attr_at g (bind (operand_val s x) (fun v => store t (f v)) w).2
              self = Some p) as Hset.
  { intros x f Hf. unfold bind.
    pose proof (attr_at_operand_val w self p s x Hp) as Hj.
    destruct (operand_val_grows s x w) as [ext Hext].
    destruct (operand_val s x w) as [[v|e] w'] eqn:Ev; [|done].
    simpl in Hj, Hext. subst w'.
    assert ((heap w ++ ext) !! t = Some o) as E'.
    { by apply lookup_app_l_Some. }
    apply attr_at_store; [done| |].
    - intros c Hc. simpl in Hc. rewrite E' in Hc. apply Hf. congruence.
    - intros ->. apply attr_at_Some in Hj as (c & Hc & _). eauto. }
  destruct u as [k x|k|i x|x|]; destruct (shape o) as [vs|d] eqn:Es;
    try done.
  - apply (Hset x (fun v => set_data o (dict_set d k v))).
    intros v c Ho. by apply set_data_attr.
  - destruct (dict_has d k); [|done].
    apply attr_at_store; [done| |].
    + intros c Hc. simplify_eq. by apply set_data_attr.
    + intros ->. apply attr_at_Some in Hp as (c & Hc & _). eauto.
  - destruct (Nat.ltb i (length vs)); [|done].
    apply (Hset x (fun v => OList (<[i := v]> vs))).
    intros v c ->. done.
  - apply (Hset x (fun v => OList (vs ++ [v]))). intros v c ->. done.
  - apply attr_at_store; [done| |].
    + intros c Hc. by simplify_eq.
    + intros ->. apply attr_at_Some in Hp as (c & Hc & _). eauto.
  - apply attr_at_store; [done| |].
    + intros c Hc. simplify_eq. by apply set_data_attr.
    + intros ->. apply attr_at_Some in Hp as (c & Hc & _). eauto.
Qed.
Lemma attr_at_mutate w self p t pth u :
  attr_at g w self = Some p ->
  attr_at g (mutate t pth u w).2 self = Some p.
Proof.
  intros Hp. unfold mutate. unfold bind, get_world.
  destruct (navigate (heap w) (VRef t) pth) as [[| | | |l]|]; try done.
  by apply attr_at_apply_update.
Qed.

Lemma attr_at_mutations ms : forall w self p,
  attr_at g w self = Some p ->
  attr_at g (mutations self ms w) self = Some p.
Proof.
  induction ms as [|[pth u] ms IH]; intros w self p Hp; [done|].
  simpl. apply IH. by apply attr_at_mutate.
Qed.
End Attributes.

Lemma heap_ignores_files : ignores_files heap.
Proof. done. Qed.

Lemma attr_at_heap w w' self :
  heap w' = heap w -> path_at w' self = path_at w self.
Proof. unfold attr_at, config_at. by intros ->. Qed.

Lemma alloc_spec o w :
  alloc o w = (Ret (length (heap w)), (set_heap (heap w ++ [o]) w).2).
Proof. done. Qed.

Lemma path_exists_spec p w :
  path_exists p w = (Ret (bool_decide (is_Some (files w !! p))), w).
Proof. done. Qed.

Lemma Config_init_path d w dir self w1 :
  environ w !! "CHARM_DIR" = Some dir ->
  Config_init d w = (Ret self, w1) ->
  path_at w1 self = Some (path_join dir CONFIG_FILE_NAME).
Proof.
  intros Hd. unfold Config_init.
  erewrite bind_Ret; [|unfold charm_dir; by rewrite Hd].
  cbv beta iota zeta.
  set (c := {| data := d; implicit_save := true; _prev_dict := VNone;
               path := path_join dir CONFIG_FILE_NAME |}).
  rewrite (bind_Ret _ _ _ _ _ (alloc_spec _ _)).
  set (w0 := (set_heap (heap w ++ [OConfig c]) w).2).
  assert (heap w0 !! length (heap w) = Some (OConfig c)) as Hc.
  { simpl. by rewrite lookup_app_r, Nat.sub_diag. }
  rewrite (bind_Ret _ _ _ _ _ (path_exists_spec _ _)).
  destruct (bool_decide _).
  - destruct (load_previous_attrs (length (heap w)) None w0 c Hc)
      as (c' & Hc' & Hp & _).
    unfold bind at 1.
    destruct (load_previous (length (heap w)) None w0) as [[r|e] w2];
      [|done].
    simpl in Hc'. intros H. unfold bind, atexit, get_world, ret in H.
    simpl in H. simplify_eq. apply attr_at_Some. exists c'.
    split; [exact Hc'|by rewrite Hp].
  - intros H. unfold bind, atexit, get_world, ret in H. simpl in H.
    simplify_eq. apply attr_at_Some. exists c. split; [exact Hc|done].
Qed.

(** C7 (amended). The persistence path is resolved at construction from
    the root-directory setting [CHARM_DIR]; afterwards [changed], [previous],
    [get], item assignment, in-place mutations, [save], [_implicit_save] and
    [load_previous] without a path (or with an empty one) leave it as it is,
    and [load_previous(path)] with a non-empty path sets it to that path. *)
Theorem path_changes_only_by_load_previous :
  (forall d w dir self w1,
      environ w !! "CHARM_DIR" = Some dir ->
      Config_init d w = (Ret self, w1) ->
      path_at w1 self = Some (path_join dir CONFIG_FILE_NAME))
  /\ (forall self w p,
        path_at w self = Some p ->
        (forall k, path_at (changed self k w).2 self = Some p)
        /\ (forall k, path_at (previous self k w).2 self = Some p)
        /\ (forall k, path_at (get self k w).2 self = Some p)
        /\ (forall k v, path_at (setitem self k v w).2 self = Some p)
        /\ (forall ms, path_at (mutations self ms w) self = Some p)
        /\ path_at (save self w).2 self = Some p
        /\ path_at (_implicit_save self w).2 self = Some p
        /\ path_at (load_previous self None w).2 self = Some p
        /\ path_at (load_previous self (Some "") w).2 self = Some p
        /\ (forall s, s <> "" ->
              path_at (load_previous self (Some s) w).2 self = Some s)).
Proof.
  split; [apply Config_init_path|].
  intros self w p Hp. repeat split.
  - intros k. by rewrite (pure_eq _ w (pure_changed self k)).
  - intros k. by rewrite (pure_eq _ w (pure_previous self k)).
  - intros k. by rewrite (pure_eq _ w (pure_get self k)).
  - intros k v. by apply attr_at_setitem.
  - intros ms. by apply attr_at_mutations.
  - rewrite <- Hp. apply attr_at_heap.
    apply (keeps_save heap self heap_ignores_files w).
  - rewrite <- Hp. apply attr_at_heap.
    apply (keeps_implicit_save heap self heap_ignores_files w).
  - apply attr_at_Some in Hp as (c & Hc & <-).
    destruct (load_previous_attrs self None w c Hc) as (c' & Hc' & Hp & _).
    apply attr_at_Some. eauto.
  - apply attr_at_Some in Hp as (c & Hc & <-).
    destruct (load_previous_attrs self (Some "") w c Hc) as (c' & Hc' & Hp & _).
    apply attr_at_Some. eauto.
  - intros s Hs. apply attr_at_Some in Hp as (c & Hc & <-).
    destruct (load_previous_attrs self (Some s) w c Hc) as (c' & Hc' & Hp & _).
    apply attr_at_Some. exists c'. split; [done|]. rewrite Hp. simpl.
    destruct (String.eqb s "") eqn:E; [|done].
    by apply String.eqb_eq in E.
Qed.

(** C7, counterexample: [load_previous] called with a path replaces the
    persistence path of the instance. *)
Lemma path_is_not_immutable :
  let w1 := (Config_init [] scenario).2 in
  (Config_init [] scenario).1 = Ret 0
  /\ path_at w1 0 = Some "/charm/.juju-persistent-config"
  /\ (load_previous 0 (Some "/srv/other") w1).1 = Ret VNone
  /\ path_at (load_previous 0 (Some "/srv/other") w1).2 0 = Some "/srv/other".
Proof. vm_compute. done. Qed.

(** C6, counterexample: right after construction, before any call of
    [changed] or [previous], the previous snapshot is loaded. *)
Lemma previous_is_loaded_by_init :
  let r := Config_init [] scenario in
  r.1 = Ret 0
  /\ snapshot_of r.2 0 = Some (JObj [("foo", JStr "bar")])
  /\ ~ (forall c, config_at r.2 0 = Some c -> _prev_dict c = VNone).
Proof.
  vm_compute. repeat split. intros H. specialize (H _ eq_refl). done.
Qed.

Lemma changed_absent self key w c :
  heap w !! self = Some (OConfig c) -> _prev_dict c = VNone ->
  changed self key w = (Ret true, w) /\ previous self key w = (Ret VNone, w).
Proof.
  intros Hc Hp. split.
  - unfold changed. rewrite (bind_Ret _ _ _ _ _ (get_config_at _ _ _ Hc)).
    by rewrite Hp.
  - unfold previous. rewrite (bind_Ret _ _ _ _ _ (get_config_at _ _ _ Hc)).
    erewrite bind_Ret; [|reflexivity]. by rewrite Hp.
Qed.

(** C6 (amended). The previous snapshot is loaded by the constructor, when
    the persistence path exists at that time, and holds the content of the
    file; when the path does not exist then, the previous snapshot is absent,
    and stays so whatever is written to the disk later: [changed] answers
    [True] and [previous] answers [None].  Neither [changed] nor [previous]
    reads the disk or changes anything. *)
Theorem previous_is_loaded_at_construction (d : items) (w : World)
    (dir : string) (self : loc) (w1 : World) :
  environ w !! "CHARM_DIR" = Some dir ->
  Config_init d w = (Ret self, w1) ->
  let p := path_join dir CONFIG_FILE_NAME in
  (files w !! p = None ->
     exists c, config_at w1 self = Some c /\ _prev_dict c = VNone
       /\ forall key fs,
            let w2 := (set_files fs w1).2 in
            changed self key w2 = (Ret true, w2)
            /\ previous self key w2 = (Ret VNone, w2))
  /\ (forall snap, files w !! p = Some (Json (JObj snap)) ->
        snapshot_of w1 self = Some (JObj snap))
  /\ (forall key w', (changed self key w').2 = w'
                     /\ (previous self key w').2 = w').
Proof.
  intros Hd Hi p. repeat split.
  - intros Hf. rewrite (Config_init_fresh d w dir Hd Hf) in Hi.
    simplify_eq. eexists. unfold config_at at 1. simpl.
    rewrite lookup_app_r, Nat.sub_diag by done. simpl.
    split; [done|]. split; [done|]. intros key fs.
    apply (changed_absent _ _ _ (fresh_config d p)); [|done]. simpl.
    by rewrite lookup_app_r, Nat.sub_diag.
  - intros snap Hf.
    by destruct (Config_init_merges d w dir snap self w1 Hd Hf Hi)
      as (c & _ & Hs & _).
  - apply (pure_eq _ w' (pure_changed self key)).
  - apply (pure_eq _ w' (pure_previous self key)).
Qed.

(** C2. When a previous snapshot exists, the constructor leaves in the
    instance the union of the data it was given and of the snapshot: a key
    of the data keeps the value of the data, a key that only the snapshot has
    gets (a copy of) the value of the snapshot, and there is no other key.
    In the scenario of the specification the instance reads
    [{"foo": "baz", "new": 1}], [changed("foo")] and [changed("new")] are
    [True], [previous("foo")] is ["bar"] and [previous("new")] is [None]:
    so it is of the constructor given that data, and of [config] when
    [config-get] answers with it and [json] and [Config] are bound. *)
Theorem current_is_union :
  (forall d w dir snap self w1,
      environ w !! "CHARM_DIR" = Some dir ->
      files w !! path_join dir CONFIG_FILE_NAME = Some (Json (JObj snap)) ->
      Config_init d w = (Ret self, w1) ->
      exists c, config_at w1 self = Some c
        /\ snapshot_of w1 self = Some (JObj snap)
        /\ forall k,
             match dict_get d k, json_get snap k with
             | Some v, _ => dict_get (data c) k = Some v
             | None, Some j =>
                 exists v, dict_get (data c) k = Some v
                           /\ reify (fuel (heap w1)) (heap w1) v = Some j
             | None, None => dict_get (data c) k = None
             end)
  /\ (let r := Config_init [("foo", VStr "baz"); ("new", VInt 1)] scenario in
      exists self,
        r.1 = Ret self
        /\ reify (fuel (heap r.2)) (heap r.2) (VRef self)
           = Some (JObj [("foo", JStr "baz"); ("new", JInt 1)])
        /\ (changed self "foo" r.2).1 = Ret true
        /\ (previous self "foo" r.2).1 = Ret (VStr "bar")
        /\ (changed self "new" r.2).1 = Ret true
        /\ (previous self "new" r.2).1 = Ret VNone)
  /\ (let r := config ("json" :: "Config" :: unit_py) "0x7f3a" [] []
                 scenario in
      exists self,
        r.1 = Ret (VRef self)
        /\ reify (fuel (heap r.2)) (heap r.2) (VRef self)
           = Some (JObj [("foo", JStr "baz"); ("new", JInt 1)])
        /\ (changed self "foo" r.2).1 = Ret true
        /\ (previous self "foo" r.2).1 = Ret (VStr "bar")
        /\ (changed self "new" r.2).1 = Ret true
        /\ (previous self "new" r.2).1 = Ret VNone).
Proof.
  split; [apply Config_init_merges|]. split.
  - exists 0. vm_compute. done.
  - exists 1. vm_compute. done.
Qed.

(** C5, counterexample: the same keyword arguments passed in another order
    give another key, and the second call runs the function again. *)
Lemma kwargs_order_changes_key :
  let kw1 := [("a", VInt 1); ("b", VInt 2)] in
  let kw2 := [("b", VInt 2); ("a", VInt 1)] in
  let w := start ∅ ∅ (fun _ => NotFound) in
  kw1 ≡ₚ kw2
  /\ key_of probe [] kw1 w
     = Some "(<function probe at 0x7f3b>, (), {'a': 1, 'b': 2})"
  /\ key_of probe [] kw2 w
     = Some "(<function probe at 0x7f3b>, (), {'b': 2, 'a': 1})"
  /\ key_of probe [] kw1 w <> key_of probe [] kw2 w
  /\ ran (cached probe [] kw2 (cached probe [] kw1 w).2).2
     = [["probe"]; ["probe"]].
Proof.
  repeat split; try (vm_compute; done). apply perm_swap.
Qed.

(** C5 (amended). The cache key is the same for two calls with the same
    positional arguments and the same keyword arguments passed in the same
    order (the arguments being [None], booleans, numbers or strings): once a
    call has returned, a call with these arguments computes the same key and
    is answered from the cache, without a change to the world. *)
Theorem same_arguments_same_key (func : pyfunc) (args : list val)
    (kwargs : items) (w : World) (v : val) (w1 : World) :
  Forall (fun v => scalar v = true) args ->
  Forall (fun v => scalar v = true) kwargs.*2 ->
  cached func args kwargs w = (Ret v, w1) ->
  key_of func args kwargs w1 = key_of func args kwargs w
  /\ cached func args kwargs w1 = (Ret v, w1).
Proof.
  intros Ha Hk Hc. pose proof (key_of_scalar func args kwargs w w1 Ha Hk) as E.
  split; [done|].
  destruct (cached_heap _ _ _ _ _ _ Hc) as [key Hkey].
  apply (cached_hit _ _ _ _ key); [congruence|].
  by eapply cached_stores.
Qed.

Lemma within_outside a b a' b' v :
  within a' b' v -> (b' <= a \/ b <= a') -> outside a b v.
Proof. destruct v; simpl; try done. lia. Qed.

Lemma navigate_outside a b h p : forall v v',
  sealed a b h -> outside a b v ->
  navigate h v p = Some v' -> outside a b v'.
Proof.
  induction p as [|s p IH]; intros v v' Hs Hv Hn; simpl in Hn.
  { by simplify_eq. }
  destruct v as [ | | | |l]; try done. simpl in Hv.
  destruct (h !! l) as [o|] eqn:E; [|done]. simpl in Hn.
  destruct Hs as [Hb Hs]. pose proof (Hs _ _ E Hv) as Ho.
  unfold obj_vals in Ho.
  destruct (shape o) as [vs|d], s as [k|i]; try done.
  - destruct (vs !! i) as [x|] eqn:Ex; [|done]. simpl in Hn.
    eapply IH; [done| |exact Hn].
    eapply Forall_lookup_1; [exact Ho|exact Ex].
  - destruct (dict_get d k) as [x|] eqn:Ex; [|done]. simpl in Hn.
    eapply IH; [done| |exact Hn]. by eapply dict_get_vals.
Qed.

Lemma sealed_store a b h t o :
  sealed a b h -> ~ (a <= t < b) -> Forall (outside a b) (obj_vals o) ->
  sealed a b (<[t := o]> h) /\ agree a b h (<[t := o]> h).
Proof.
  intros [Hb Hs] Ht Ho. split; [split|].
  - by rewrite length_insert.
  - intros l o' Hl Hn. destruct (decide (l = t)) as [->|Hne].
    + apply list_lookup_insert_Some in Hl as [(_ & <- & _)|[? _]]; done.
    + rewrite list_lookup_insert_ne in Hl by done. by eapply Hs.
  - intros l Hl. apply list_lookup_insert_ne. lia.
Qed.

Lemma sealed_built a b j h v h' :
  sealed a b h -> built j h v h' ->
  sealed a b h' /\ agree a b h h' /\ outside a b v.
Proof.
  intros [Hb Hs] (ext & -> & _ & Hv & Hc & _). split; [split|split].
  - rewrite length_app. lia.
  - intros l o Hl Hn. destruct (decide (l < length h)) as [Hlt|Hge].
    + rewrite lookup_app_l in Hl by done. by eapply Hs.
    + rewrite lookup_app_r in Hl by lia.
      eapply Forall_lookup_1 in Hc as [Hc _]; [|exact Hl].
      eapply Forall_impl; [exact Hc|]. intros x Hx.
      eapply within_outside; [exact Hx|]. lia.
  - intros l Hl. apply lookup_app_l. lia.
  - eapply within_outside; [exact Hv|]. lia.
Qed.

Lemma agree_trans a b h1 h2 h3 :
  agree a b h1 h2 -> agree a b h2 h3 -> agree a b h1 h3.
Proof. intros H1 H2 l Hl. by rewrite H2, H1. Qed.

Lemma agree_refl a b h : agree a b h h.
Proof. done. Qed.

Lemma obj_vals_set_data o d : obj_vals (set_data o d) = d.*2.
Proof. by destruct o. Qed.

Ltac same := solve [simpl; split; [assumption | apply agree_refl]].

(** An operand that is not taken from [previous] leaves the snapshot
    sealed and as it was, and its value lies outside of the snapshot. *)
Lemma operand_val_sealed a b self x w :
  sealed a b (heap w) -> ~ (a <= self < b) ->
  (forall k, x <> Prev k) ->
  kept a b w (operand_val self x w).2
  /\ forall v, (operand_val self x w).1 = Ret v -> outside a b v.
Proof.
  intros Hs Hself Hx. destruct x as [j|p|k]; cbn [operand_val].
  - destruct (json_load_built j w) as (v & h' & -> & Hb).
    destruct (sealed_built _ _ _ _ _ _ Hs Hb) as (Hs' & Ha & Hv).
    split; [by split|]. simpl. intros v' ?; by simplify_eq.
  - unfold bind, get_world.
    destruct (navigate (heap w) (VRef self) p) as [v|] eqn:E; simpl.
    + split; [same|]. intros v' ?; simplify_eq.
      by eapply (navigate_outside a b _ _ (VRef self)).
    + split; [same|done].
  - by destruct (Hx k).
Qed.

(** An in-place mutation of a container that is not part of the snapshot,
    storing a value that is not taken from [previous], leaves the snapshot
    sealed and as it was. *)
Lemma apply_update_sealed a b self t u w :
  sealed a b (heap w) -> ~ (a <= self < b) -> ~ (a <= t < b) ->
  stores_previous u = false ->
  kept a b w (apply_update self t u w).2.
Proof.
  intros Hs Hself Ht Hu. unfold apply_update. unfold bind at 1, deref.
  destruct (heap w !! t) as [o|] eqn:E; [|same].
  pose proof (proj2 Hs _ _ E Ht) as Ho. unfold obj_vals in Ho.
  assert (forall x (f : val -> obj),
            (forall k, x <> Prev k) ->
            (forall v, outside a b v -> Forall (outside a b) (obj_vals (f v))) ->
            kept a b w (bind (operand_val self x) (fun v => store t (f v)) w).2)
    as Hnew.
  { intros x f Hx Hf. unfold bind.
    destruct (operand_val_sealed a b self x w Hs Hself Hx) as [[Hs' Ha] Hv].
    destruct (operand_val self x w) as [[v|e] w'] eqn:Ev; simpl in *;
      [|by split].
    destruct (sealed_store a b (heap w') t (f v) Hs' Ht (Hf v (Hv v eq_refl)))
      as [Hs'' Ha'].
    split; [exact Hs''|]. eapply agree_trans; [exact Ha|exact Ha']. }
  destruct u as [k x|k|i x|x|]; destruct (shape o) as [vs|d] eqn:Es;
    try same.
  - apply (Hnew x (fun v => set_data o (dict_set d k v))).
    { by destruct x. }
    intros v Hv. rewrite obj_vals_set_data. by apply dict_set_vals.
  - destruct (dict_has d k); [|same].
    apply sealed_store; [done|done|].
    rewrite obj_vals_set_data. by apply dict_del_vals.
  - destruct (Nat.ltb i (length vs)); [|same].
    apply (Hnew x (fun v => OList (<[i := v]> vs))).
    { by destruct x. }
    intros v Hv. unfold obj_vals. simpl.
    apply Forall_insert; done.
  - apply (Hnew x (fun v => OList (vs ++ [v]))).
    { by destruct x. }
    intros v Hv. unfold obj_vals. simpl. apply Forall_app. split; [done|].
    by constructor.
  - apply sealed_store; done.
  - apply sealed_store; [done|done|]. by rewrite obj_vals_set_data.
Qed.

Lemma mutate_sealed a b self p u w :
  sealed a b (heap w) -> ~ (a <= self < b) ->
  stores_previous u = false ->
  kept a b w (mutate self p u w).2.
Proof.
  intros Hs Hself Hu. unfold mutate, bind, get_world.
  destruct (navigate (heap w) (VRef self) p) as [v|] eqn:E; [|same].
  pose proof (navigate_outside a b _ _ (VRef self) _ Hs Hself E) as Hv.
  destruct v as [ | | | |t]; try same. by apply apply_update_sealed.
Qed.

Lemma mutations_sealed a b self ms : forall w,
  sealed a b (heap w) -> ~ (a <= self < b) ->
  Forall (fun m => stores_previous m.2 = false) ms ->
  kept a b w (mutations self ms w).
Proof.
  induction ms as [|[p u] ms IH]; intros w Hs Hself Hms; [same|].
  apply Forall_cons in Hms as [Hu Hms].
  simpl. destruct (mutate_sealed a b self p u w Hs Hself Hu) as [Hs' Ha].
  destruct (IH _ Hs' Hself Hms) as [Hs'' Ha']. split; [done|].
  eapply agree_trans; [exact Ha|exact Ha'].
Qed.

Lemma closed_agree a b h h' :
  closed a b h -> agree a b h h' -> closed a b h'.
Proof. intros Hc Ha l o Hl Ho. rewrite (Ha _ Hl) in Ho. by eapply Hc. Qed.

(** What the constructor leaves when it found a snapshot: the snapshot
    sits in cells of its own, which the instance refers to as its previous
    snapshot only. *)
Lemma Config_init_sealed d w dir snap self w1 :
  heap_ok (heap w) ->
  Forall (within 0 (length (heap w))) d.*2 ->
  environ w !! "CHARM_DIR" = Some dir ->
  files w !! path_join dir CONFIG_FILE_NAME = Some (Json (JObj snap)) ->
  Config_init d w = (Ret self, w1) ->
  exists a b pv,
    self < a /\ a <= pv < b
    /\ attr_at _prev_dict w1 self = Some (VRef pv)
    /\ sealed a b (heap w1) /\ closed a b (heap w1)
    /\ reify (b - a) (heap w1) (VRef pv) = Some (JObj snap).
Proof.
  intros Hok Hdv Hd Hf Hi.
  destruct (Config_init_snapshot d w dir snap Hd Hf)
    as (v & h2 & cp & h4 & its & lc & Hb & Hb' & -> & Hcell & Hw & Hr & Hl).
  rewrite Hl in Hi. simplify_eq.
  set (self := length (heap w)) in *.
  set (c := fresh_config d _) in *.
  set (c' := with_data (with_prev c v) (merge d its)).
  set (h3 := <[self := OConfig (with_prev c v)]> h2) in *.
  pose proof (built_closed _ _ _ _ Hb) as Hcl.
  pose proof Hb as (ext & Eh2 & Hcells & Hv & Hext & Hrd).
  pose proof Hb' as (ext' & Eh4 & _ & _ & Hext' & _).
  rewrite length_app in Hcl, Hv, Hext. simpl in Hcl, Hv, Hext.
  fold self in Hcl, Hv, Hext.
  assert (length h2 = self + 1 + length ext) as Hlen2.
  { rewrite Eh2, !length_app. simpl. lia. }
  assert (length h3 = length h2) as Hlen3 by apply length_insert.
  assert (length h4 = length h2 + length ext') as Hlen4.
  { rewrite Eh4, length_app. lia. }
  assert (agree (self + 1) (length h2) h2 (<[self := OConfig c']> h4)) as Hag.
  { intros l Hl'. rewrite list_lookup_insert_ne by lia.
    rewrite Eh4, lookup_app_l by lia. unfold h3.
    apply list_lookup_insert_ne. lia. }
  destruct v as [ | | | |pv]; try (simpl in Hrd; done).
  exists (self + 1), (length h2), pv. simpl in Hv.
  split; [lia|]. split; [lia|]. split.
  { unfold attr_at, config_at. rewrite registered_heap. simpl.
    rewrite list_lookup_insert_eq by lia. done. }
  rewrite registered_heap. cbn [heap set_heap snd].
  split; [split|split].
  - rewrite length_insert. lia.
  - intros l o Hlo Hn.
    destruct (decide (l = self)) as [->|Hne].
    { rewrite list_lookup_insert_eq in Hlo by lia. simplify_eq.
      unfold obj_vals. simpl. apply merge_vals.
      - eapply Forall_impl; [exact Hdv|]. intros x Hx.
        eapply within_outside; [exact Hx|]. fold self. lia.
      - eapply Forall_impl; [exact Hw|]. intros x Hx.
        eapply within_outside; [exact Hx|]. lia. }
    rewrite list_lookup_insert_ne in Hlo by done.
    destruct (decide (l < self)) as [Hlt|Hge].
    + rewrite Eh4, lookup_app_l in Hlo by lia. unfold h3 in Hlo.
      rewrite list_lookup_insert_ne in Hlo by done.
      rewrite Eh2, <- app_assoc, lookup_app_l in Hlo by done.
      destruct (Hok _ _ Hlo) as [Hvals _].
      eapply Forall_impl; [exact Hvals|]. intros x Hx.
      eapply within_outside; [exact Hx|]. fold self. lia.
    + rewrite Eh4, lookup_app_r in Hlo by lia.
      eapply Forall_lookup_1 in Hext' as [Hvals _]; [|exact Hlo].
      eapply Forall_impl; [exact Hvals|]. intros x Hx.
      eapply within_outside; [exact Hx|]. lia.
  - eapply closed_agree; [exact Hcl|exact Hag].
  - rewrite (reify_agree (self + 1) (length h2) h2); [|exact Hcl|exact Hag|simpl; lia].
    eapply reify_mono; [|exact Hrd].
    pose proof (json_depth_cells (JObj snap)). lia.
Qed.

Lemma prev_with_data c d : _prev_dict (with_data c d) = _prev_dict c.
Proof. done. Qed.

(** C8, counterexample: [previous(k)] returns the snapshot's own object.
    Once it is assigned to a key of the current mapping, an in-place
    mutation of the current value changes the previous snapshot:
    [cfg["hosts"] = cfg.previous("hosts")], then
    [cfg["hosts"].append("c")]. *)
Lemma snapshot_changes_through_previous :
  let w1 := (Config_init [] nested).2 in
  let ms := [([], SetKey "hosts" (Prev "hosts"));
             ([AtKey "hosts"], Append (JStr "c"))] in
  (Config_init [] nested).1 = Ret 0
  /\ snapshot_of w1 0 = Some (JObj [("hosts", JList [JStr "a"; JStr "b"])])
  /\ snapshot_of (mutations 0 ms w1) 0
     = Some (JObj [("hosts", JList [JStr "a"; JStr "b"; JStr "c"])]).
Proof. vm_compute. done. Qed.

(** C8 (amended). Once the constructor has loaded the previous snapshot,
    the instance holds the content of the snapshot file as its previous
    snapshot, and no sequence of mutations of the current mapping that
    store new data or values read from the current mapping changes it:
    item assignment and deletion on the instance (also on keys merged in
    from the snapshot) and in-place mutation of the values nested in it,
    reached through any keys and indices.  Left out are the mutations that
    store what [previous] returned.  The store the instance is built in
    holds no reference beyond itself. *)
Theorem snapshot_is_read_only (d : items) (w : World) (dir : string)
    (snap : list (string * json)) (self : loc) (w1 : World)
    (ms : list (list step * update)) :
  heap_ok (heap w) ->
  Forall (within 0 (length (heap w))) d.*2 ->
  environ w !! "CHARM_DIR" = Some dir ->
  files w !! path_join dir CONFIG_FILE_NAME = Some (Json (JObj snap)) ->
  Config_init d w = (Ret self, w1) ->
  Forall (fun m => stores_previous m.2 = false) ms ->
  snapshot_of w1 self = Some (JObj snap)
  /\ snapshot_of (mutations self ms w1) self = Some (JObj snap).
Proof.
  intros Hok Hdv Hd Hf Hi Hms. split.
  { by destruct (Config_init_merges d w dir snap self w1 Hd Hf Hi)
      as (c & _ & Hs & _). }
  destruct (Config_init_sealed d w dir snap self w1 Hok Hdv Hd Hf Hi)
    as (a & b & pv & Hself & Hpv & Hattr & Hs & Hcl & Hr).
  destruct (mutations_sealed a b self ms w1 Hs) as [[Hb Hs'] Ha];
    [lia|done|].
  pose proof (attr_at_mutations _prev_dict prev_with_data ms w1 self _ Hattr)
    as Hattr'.
  apply attr_at_Some in Hattr' as (c & Hc & Hp).
  unfold snapshot_of. rewrite Hc, Hp.
  rewrite (reify_agree a b (heap w1)); [|done|done|done].
  eapply reify_mono; [|exact Hr]. unfold fuel. lia.
Qed.

Lemma snapshot_is_read_only_witness :
  let w1 := (Config_init [] nested).2 in
  let ms := [([AtKey "hosts"], Append (JStr "c"));
             ([], SetKey "copy" (Cur [AtKey "hosts"]));
             ([AtKey "copy"], Append (JStr "d"));
             ([AtKey "hosts"], SetIndex 0 (JList [JInt 1]));
             ([], SetKey "hosts" (JStr "gone"));
             ([], DelKey "hosts")] in
  (Config_init [] nested).1 = Ret 0
  /\ reify 9 (heap w1) (VRef 0)
     = Some (JObj [("hosts", JList [JStr "a"; JStr "b"])])
  /\ reify 9 (heap (mutations 0 (take 1 ms) w1)) (VRef 0)
     = Some (JObj [("hosts", JList [JStr "a"; JStr "b"; JStr "c"])])
  /\ snapshot_of w1 0 = Some (JObj [("hosts", JList [JStr "a"; JStr "b"])])
  /\ snapshot_of (mutations 0 ms w1) 0
     = Some (JObj [("hosts", JList [JStr "a"; JStr "b"])]).
Proof.
  split; [vm_compute; reflexivity|]. split; [vm_compute; reflexivity|].
  split; [vm_compute; reflexivity|].
  apply (snapshot_is_read_only [] nested "/charm"
           [("hosts", JList [JStr "a"; JStr "b"])] 0
           (Config_init [] nested).2).
  - intros l o H. done.
  - constructor.
  - vm_compute. reflexivity.
  - vm_compute. reflexivity.
  - vm_compute. reflexivity.
  - repeat constructor.
Defined.

(** ** The theorems at concrete worlds *)

Lemma changed_spec_witness :
  let w0 := (Config_init [("foo", VStr "baz")] first_run).2 in
  let w1 := (Config_init [("foo", VStr "baz")] scenario).2 in
  changed 0 "foo" w0 = (Ret true, w0)
  /\ changed 0 "foo" w1 = py_ne (VStr "bar") (VStr "baz") w1
  /\ changed 0 "new" w1 = py_ne VNone VNone w1.
Proof.
  intros w0 w1. split; [|split].
  - refine (proj1 (changed_spec 0 "foo" w0
                     (fresh_config [("foo", VStr "baz")] snapshot_path) _) _).
    + vm_compute. reflexivity.
    + reflexivity.
  - refine (proj2 (changed_spec 0 "foo" w1
                     (with_prev (fresh_config [("foo", VStr "baz")]
                                   snapshot_path) (VRef 1)) _)
              1 [("foo", VStr "bar")] _ _).
    + vm_compute. reflexivity.
    + reflexivity.
    + vm_compute. reflexivity.
  - refine (proj2 (changed_spec 0 "new" w1
                     (with_prev (fresh_config [("foo", VStr "baz")]
                                   snapshot_path) (VRef 1)) _)
              1 [("foo", VStr "bar")] _ _).
    + vm_compute. reflexivity.
    + reflexivity.
    + vm_compute. reflexivity.
Defined.

Lemma current_is_union_witness :
  let d := [("foo", VStr "baz"); ("new", VInt 1)] in
  let w1 := (Config_init d scenario).2 in
  exists c, config_at w1 0 = Some c
    /\ snapshot_of w1 0 = Some (JObj [("foo", JStr "bar")])
    /\ dict_get (data c) "foo" = Some (VStr "baz")
    /\ dict_get (data c) "new" = Some (VInt 1)
    /\ dict_get (data c) "other" = None.
Proof.
  intros d w1.
  destruct (proj1 current_is_union d scenario "/charm" [("foo", JStr "bar")]
              0 w1) as (c & Hc & Hs & Hk).
  - vm_compute. reflexivity.
  - vm_compute. reflexivity.
  - vm_compute. reflexivity.
  - exists c. split; [exact Hc|]. split; [exact Hs|].
    split; [exact (Hk "foo")|]. split; [exact (Hk "new")|exact (Hk "other")].
Defined.

Lemma cached_hit_config_once_witness :
  let g := "json" :: "Config" :: unit_py in
  let r := config g "0x7f3a" [] [] scenario in
  config unit_py "0x7f3a" [] [] scenario = (Raise NameError, scenario)
  /\ r.1 = Ret (VRef 1)
  /\ config g "0x7f3a" [] [] r.2 = (Ret (VRef 1), r.2)
  /\ (exists cmd, ran r.2 = ran scenario ++ [cmd])
  /\ cached probe [] [] (cached probe [] [] r.2).2
     = (Ret (VInt 1), (cached probe [] [] r.2).2).
Proof.
  intros g r. split.
  { apply (proj2 (proj2 cached_hit_config_once) unit_py "0x7f3a" [] [] VNone
             scenario config_key); reflexivity. }
  split; [vm_compute; reflexivity|].
  destruct (proj1 (proj2 cached_hit_config_once) g "0x7f3a" [] [] scenario
              config_key (VRef 1) r.2) as [H2 Hran].
  - constructor.
  - constructor.
  - vm_compute. reflexivity.
  - vm_compute. reflexivity.
  - vm_compute. reflexivity.
  - split; [exact H2|]. split; [exact Hran|].
    apply (proj1 cached_hit_config_once "<function probe at 0x7f3b>"
             (fn_call probe) (fn_call probe) [] []
             (cached probe [] [] r.2).2
             "(<function probe at 0x7f3b>, (), {})" (VInt 1)).
    + vm_compute. reflexivity.
    + vm_compute. reflexivity.
Defined.

Lemma None_is_cached_witness :
  let key := "(<function silent at 0x7f3c>, (), {})" in
  let r := cached silent [] [] first_run in
  let es := [ToolAnswers (fun _ => Output (Json (JObj [("port", JInt 80)])));
             FileWritten snapshot_path (Json (JObj []));
             Calls probe [] [];
             Flushes "probe"] in
  let w2 := happens es r.2 in
  r.1 = Ret VNone
  /\ cache w2 !! key = Some VNone
  /\ cached silent [] [] w2 = (Ret VNone, w2)
  /\ ran w2 = [["silent"]; ["probe"]]
  /\ ran (cached silent [] [] (flush "silent" w2).2).2
     = [["silent"]; ["probe"]; ["silent"]].
Proof.
  intros key r es w2.
  destruct (None_is_cached silent [] [] first_run
              (set_ran [["silent"]] first_run).2 key es)
    as (H1 & H2 & H3 & H4).
  - vm_compute. reflexivity.
  - reflexivity.
  - vm_compute. reflexivity.
  - repeat constructor. intros w v H. exact H.
  - split; [unfold r; by rewrite H1|]. split; [exact H2|].
    split; [apply (H3 (fn_call silent)); vm_compute; reflexivity|].
    split; [vm_compute; reflexivity|].
    destruct (H4 "silent") as [_ H5]; [vm_compute; reflexivity|].
    unfold w2, r. rewrite H5 by (vm_compute; reflexivity).
    vm_compute. reflexivity.
Defined.

Lemma same_arguments_same_key_witness :
  let w := start ∅ ∅ (fun _ => NotFound) in
  let w1 := (cached probe [VStr "a"] [("b", VInt 2)] w).2 in
  key_of probe [VStr "a"] [("b", VInt 2)] w1
  = key_of probe [VStr "a"] [("b", VInt 2)] w
  /\ cached probe [VStr "a"] [("b", VInt 2)] w1 = (Ret (VInt 1), w1).
Proof.
  intros w w1.
  apply (same_arguments_same_key probe [VStr "a"] [("b", VInt 2)] w (VInt 1) w1).
  - repeat constructor.
  - repeat constructor.
  - vm_compute. reflexivity.
Defined.

Lemma previous_is_loaded_at_construction_witness :
  let w0 := (Config_init [] first_run).2 in
  let w1 := (Config_init [] scenario).2 in
  (exists c, config_at w0 0 = Some c /\ _prev_dict c = VNone)
  /\ snapshot_of w1 0 = Some (JObj [("foo", JStr "bar")]).
Proof.
  intros w0 w1. split.
  - destruct (previous_is_loaded_at_construction [] first_run "/charm" 0 w0)
      as (H & _).
    + vm_compute. reflexivity.
    + vm_compute. reflexivity.
    + destruct H as (c & Hc & Hp & _); [vm_compute; reflexivity|].
      by exists c.
  - destruct (previous_is_loaded_at_construction [] scenario "/charm" 0 w1)
      as (_ & H & _).
    + vm_compute. reflexivity.
    + vm_compute. reflexivity.
    + apply H. vm_compute. reflexivity.
Defined.

Lemma path_changes_only_by_load_previous_witness :
  let w1 := (Config_init [] scenario).2 in
  path_at w1 0 = Some snapshot_path
  /\ path_at (save 0 w1).2 0 = Some snapshot_path
  /\ path_at (load_previous 0 None w1).2 0 = Some snapshot_path
  /\ path_at (load_previous 0 (Some "/srv/other") w1).2 0 = Some "/srv/other".
Proof.
  intros w1.
  assert (path_at w1 0 = Some snapshot_path) as Hp.
  { apply (proj1 path_changes_only_by_load_previous [] scenario "/charm" 0 w1).
    - vm_compute. reflexivity.
    - vm_compute. reflexivity. }
  destruct (proj2 path_changes_only_by_load_previous 0 w1 snapshot_path Hp)
    as (_ & _ & _ & _ & _ & Hsave & _ & Hload & _ & Hother).
  split; [exact Hp|]. split; [exact Hsave|]. split; [exact Hload|].
  by apply Hother.
Defined.

(** * Further properties of the code *)

(** ** Flushing and memoizing *)

Lemma prefix_app s : forall t,
  String.prefix s t = true <-> exists b, t = s +:+ b.
Proof.
  induction s as [|c s IH]; intros t.
  - destruct t; simpl; split; eauto.
  - destruct t as [|c' t]; simpl.
    + split; [done|]. by intros [b ?].
    + destruct (ascii_dec c c') as [->|Hne].
      * rewrite IH. split; intros [b Hb]; exists b.
        -- simpl. by rewrite Hb.
        -- simpl in Hb. by injection Hb.
      * split; [done|]. intros [b Hb]. simpl in Hb. injection Hb as ? ?.
        by destruct Hne.
Qed.

Lemma contains_app s t :
  contains s t = true <-> exists a b, t = a +:+ s +:+ b.
Proof.
  induction t as [|c t IH].
  - cbn [contains]. rewrite orb_false_r, prefix_app. split.
    + intros [b Hb]. by exists "", b.
    + intros (a & b & Hab). destruct a; simpl in Hab; [eauto|done].
  - cbn [contains]. rewrite orb_true_iff, prefix_app, IH. split.
    + intros [[b Hb]|(a & b & Hab)].
      * by exists "", b.
      * exists (String c a), b. simpl. by rewrite Hab.
    + intros (a & b & Hab). destruct a as [|c' a]; simpl in Hab.
      * left. eauto.
      * right. exists a, b. by injection Hab.
Qed.

Lemma contains_empty t : contains "" t = true.
Proof. apply contains_app. by exists "", t. Qed.

(** X1. [flush(key)] returns [None], removes from the cache exactly the
    entries whose key contains [key] as a substring, keeps every other
    entry as it is, and touches nothing but the cache. *)
Theorem flush_removes_matching (s : string) (w : World) :
  (flush s w).1 = Ret VNone
  /\ (forall k, (exists a b, k = a +:+ s +:+ b) ->
                cache (flush s w).2 !! k = None)
  /\ (forall k, ~ (exists a b, k = a +:+ s +:+ b) ->
                cache (flush s w).2 !! k = cache w !! k)
  /\ (heap (flush s w).2, _atexit (flush s w).2, files (flush s w).2,
      ran (flush s w).2)
     = (heap w, _atexit w, files w, ran w).
Proof.
  split; [done|]. split; [|split; [|done]].
  - intros k Hk. apply contains_app in Hk. by rewrite flush_lookup, Hk.
  - intros k Hk. rewrite flush_lookup.
    destruct (contains s k) eqn:E; [|done].
    by apply contains_app in E.
Qed.

(** X2. The empty string occurs in every key: [flush] of the empty
    string empties the cache. *)
Theorem flush_empty_string_clears (w : World) :
  cache (flush "" w).2 = ∅.
Proof.
  apply map_eq. intros k. by rewrite flush_lookup, contains_empty, lookup_empty.
Qed.

Lemma key_of_contains_fn func args kwargs w key :
  key_of func args kwargs w = Some key ->
  contains (fn_str func) key = true.
Proof.
  unfold key_of, cache_key.
  destruct (repr_tuple (heap w) args) as [a|]; [|done].
  destruct (repr_kwargs (heap w) kwargs) as [k|]; [|done].
  simpl. intros ?; simplify_eq. apply contains_app.
  exists "(", (", " +:+ a +:+ ", " +:+ k +:+ ")"). done.
Qed.

(** X3. A cache key starts with the printed form of the function, so
    flushing with that text forgets every call of the function: the next
    call, whatever its arguments, misses the cache, runs the body again and
    stores its result, or lets its exception through. *)
Theorem flush_function_forgets_calls (func : pyfunc) (args : list val)
    (kwargs : items) (w : World) (key : string) :
  let w' := (flush (fn_str func) w).2 in
  key_of func args kwargs w' = Some key ->
  cache w' !! key = None
  /\ cached func args kwargs w'
     = match fn_call func args kwargs w' with
       | (Ret r, w1) => (Ret r, (set_cache (<[key := r]> (cache w1)) w1).2)
       | (Raise e, w1) => (Raise e, w1)
       end.
Proof.
  intros w' Hk.
  assert (cache w' !! key = None) as Hm.
  { unfold w'. rewrite flush_lookup.
    by rewrite (key_of_contains_fn _ _ _ _ _ Hk). }
  split; [done|]. by apply cached_miss.
Qed.

Lemma key_of_same_heap func args kwargs w w' :
  heap w' = heap w ->
  key_of func args kwargs w' = key_of func args kwargs w.
Proof.
  unfold key_of, cache_key. intros H. rewrite H.
  by destruct (repr_tuple (heap w) args), (repr_kwargs (heap w) kwargs).
Qed.

(** Whatever it answers, [config] with [json] bound runs its command
    once. *)
Lemma config_body_runs g scope cmd w :
  binds g "json" = true ->
  command_of scope = Some cmd ->
  ran (config_body g scope w).2 = ran w ++ [cmd].
Proof.
  intros Hj Hc. rewrite (config_body_bound _ _ _ _ Hj Hc).
  assert (forall (rest : payload -> M val),
            (forall out, steps (keeps ran) (rest out)) ->
            ran (try_except (bind (check_output cmd) rest) is_ValueError
                   (ret VNone) w).2 = ran w ++ [cmd]) as Hgen.
  { intros rest Hrest. unfold try_except, bind. rewrite check_output_spec.
    destruct (tool w cmd) as [out| |]; simpl; try done.
    pose proof (Hrest out (set_ran (ran w ++ [cmd]) w).2) as Hk.
    unfold keeps in Hk.
    destruct (rest out _) as [[r|e] w2]; simpl in *; [done|].
    by destruct (is_ValueError e). }
  apply Hgen.
  intros out; apply steps_bind; [apply _| by apply keeps_json_load |].
  intros cd. destruct scope; try apply steps_ret, _.
  apply steps_bind; [apply _ | apply pure_keeps, pure_global |]. intros _.
  apply steps_bind; [apply _ | apply keeps_dict_of |]. intros d.
  apply steps_bind; [apply _ | by apply keeps_Config_init |]. intros self.
  apply steps_ret, _.
Qed.

Lemma config_body_fails g scope cmd w :
  binds g "json" = true ->
  command_of scope = Some cmd ->
  tool w cmd = ExitNonZero \/ tool w cmd = NotFound ->
  config_body g scope w
  = (Raise (match tool w cmd with
            | NotFound => FileNotFoundError
            | _ => CalledProcessError
            end), (set_ran (ran w ++ [cmd]) w).2).
Proof.
  intros Hj Hc Ht. rewrite (config_body_bound _ _ _ _ Hj Hc).
  unfold try_except, bind; rewrite check_output_spec.
  by destruct Ht as [-> | ->].
Qed.

(** X4. An exception of the body is not memoized.  With [json] bound in
    the module, when [config-get] exits with an error status, [config]
    raises [CalledProcessError] and leaves the cache as it was; the same
    call again runs the command again and raises again. *)
Theorem config_failure_is_retried (g : list string) (addr : string)
    (args : list val) (kwargs : items) (scope : val) (cmd : list string)
    (w : World) (key : string) :
  binds g "json" = true ->
  scope_of args kwargs = Some scope ->
  command_of scope = Some cmd ->
  key_of (config_func g addr) args kwargs w = Some key ->
  cache w !! key = None ->
  tool w cmd = ExitNonZero ->
  let r1 := config g addr args kwargs w in
  let r2 := config g addr args kwargs r1.2 in
  r1.1 = Raise CalledProcessError
  /\ cache r1.2 = cache w
  /\ r2.1 = Raise CalledProcessError
  /\ ran r2.2 = ran w ++ [cmd; cmd].
Proof.
  intros Hj Hs Hc Hk Hm Ht.
  assert (forall w', heap w' = heap w -> cache w' = cache w ->
            tool w' = tool w ->
            config g addr args kwargs w'
            = (Raise CalledProcessError, (set_ran (ran w' ++ [cmd]) w').2))
    as Hrun.
  { intros w' Hh Hca Hto. unfold config.
    rewrite (cached_miss _ _ _ _ key).
    - simpl. rewrite (config_call_scope _ _ _ _ Hs).
      assert (tool w' cmd = ExitNonZero) as Ht' by (by rewrite Hto).
      rewrite (config_body_fails g scope cmd w' Hj Hc) by auto.
      by rewrite Ht'.
    - by rewrite (key_of_same_heap _ _ _ w w').
    - by rewrite Hca. }
  simpl. rewrite (Hrun w) by done. simpl.
  rewrite Hrun by done. simpl. by rewrite <- app_assoc.
Qed.

Lemma config_keeps_absent g addr args kwargs w k k' :
  key_of (config_func g addr) args kwargs w = Some k ->
  k <> k' ->
  cache w !! k' = None ->
  cache (config g addr args kwargs w).2 !! k' = None.
Proof.
  intros Hk Hne Hm. unfold config.
  destruct (cache w !! k) as [v'|] eqn:Hc.
  - by rewrite (cached_hit _ _ _ _ _ _ Hk Hc).
  - rewrite (cached_miss _ _ _ _ _ Hk Hc). simpl.
    destruct cache_ignores as (Hh & Ha & Hr).
    pose proof (keeps_config_call cache g args kwargs Hh Ha Hr w) as Hkeep.
    unfold keeps in Hkeep.
    destruct (config_call g args kwargs w) as [[r|e] w1]; simpl in *.
    + by rewrite Hkeep, lookup_insert_ne.
    + by rewrite Hkeep.
Qed.

(** X5. A call of [config] leaves every cache entry as it was, but for
    the entry of the call itself, which it adds when the key was missing
    and the body returned: no entry is overwritten or removed.  This holds
    whatever names the module binds. *)
Theorem config_adds_its_entry_only (g : list string) (addr : string)
    (args : list val) (kwargs : items) (w : World) (k : string) :
  cache (config g addr args kwargs w).2 !! k = cache w !! k
  \/ (cache w !! k = None
      /\ key_of (config_func g addr) args kwargs w = Some k
      /\ exists r, (config g addr args kwargs w).1 = Ret r
                   /\ cache (config g addr args kwargs w).2 !! k = Some r).
Proof.
  unfold config.
  destruct (key_of (config_func g addr) args kwargs w) as [key|] eqn:Hk.
  - destruct (cache w !! key) as [v'|] eqn:Hc.
    + left. by rewrite (cached_hit _ _ _ _ _ _ Hk Hc).
    + rewrite (cached_miss _ _ _ _ _ Hk Hc). simpl.
      destruct cache_ignores as (Hh & Ha & Hr).
      pose proof (keeps_config_call cache g args kwargs Hh Ha Hr w) as Hkeep.
      unfold keeps in Hkeep.
      destruct (config_call g args kwargs w) as [[r|e] w1]; simpl in *.
      * rewrite Hkeep. destruct (decide (key = k)) as [->|Hne].
        -- right. rewrite lookup_insert_eq. eauto.
        -- left. by rewrite lookup_insert_ne.
      * left. by rewrite Hkeep.
  - left. by destruct (cache_key_none _ _ _ _ Hk) as [e ->].
Qed.

Lemma append_inv_head a : forall x y, a +:+ x = a +:+ y -> x = y.
Proof.
  induction a as [|c a IH]; intros x y H; simpl in H; [done|].
  injection H as H. by apply IH.
Qed.

Lemma repr_str_head s : exists q r, repr_str s = String q r /\ (q = quote1 \/ q = quote2).
Proof.
  unfold repr_str. destruct (has_char quote1 s && negb (has_char quote2 s));
    simpl; eauto.
Qed.

(** X6. The cache key records how the arguments were written, not how
    they bind: [config()] and [config(None)] have different keys, and so
    have [config(s)] and [config(scope=s)], for every string [s]. *)
Theorem config_spellings_have_distinct_keys :
  (forall g addr w,
      key_of (config_func g addr) [] [] w
      <> key_of (config_func g addr) [VNone] [] w)
  /\ (forall g addr s w,
         key_of (config_func g addr) [VStr s] [] w
         <> key_of (config_func g addr) [] [("scope", VStr s)] w).
Proof.
  split.
  - intros g addr w. unfold key_of, cache_key. simpl. intros H.
    injection H as H. do 2 apply append_inv_head in H. vm_compute in H. done.
  - intros g addr s w. unfold key_of, cache_key, repr_tuple, repr_kwargs.
    simpl. intros H. injection H as H. do 2 apply append_inv_head in H.
    destruct (repr_str_head s) as (q & r & Hq & Hq'). rewrite Hq in H.
    simpl in H. injection H as H _. by destruct Hq' as [-> | ->].
Qed.

(** X7. With [json] bound in the module, two spellings of a call that
    bind [scope] to the same value but have different keys are cached
    apart: after the first has returned, the second still runs
    [config-get]. *)
Theorem config_spellings_are_cached_apart (g : list string) (addr : string)
    (args args' : list val) (kwargs kwargs' : items) (scope : val)
    (cmd : list string) (w : World) (v : val) (w1 : World) (k k' : string) :
  binds g "json" = true ->
  scope_of args kwargs = Some scope ->
  scope_of args' kwargs' = Some scope ->
  command_of scope = Some cmd ->
  key_of (config_func g addr) args kwargs w = Some k ->
  key_of (config_func g addr) args' kwargs' w1 = Some k' ->
  k <> k' ->
  cache w !! k' = None ->
  config g addr args kwargs w = (Ret v, w1) ->
  ran (config g addr args' kwargs' w1).2 = ran w1 ++ [cmd].
Proof.
  intros Hj Hs Hs' Hc Hk Hk' Hne Hm Hcall.
  assert (cache w1 !! k' = None) as Hm'.
  { pose proof (config_keeps_absent g addr args kwargs w k k' Hk Hne Hm) as E.
    by rewrite Hcall in E. }
  unfold config. rewrite (cached_miss _ _ _ _ _ Hk' Hm'). simpl.
  rewrite (config_call_scope _ _ _ _ Hs').
  pose proof (config_body_runs g scope cmd w1 Hj Hc) as Hr.
  by destruct (config_body g scope w1) as [[r|e] w2].
Qed.

(** ** Saving and loading the snapshot *)

Lemma save_spec self c w :
  heap w !! self = Some (OConfig c) ->
  save self w
  = match reify (fuel (heap w)) (heap w) (VRef self) with
    | Some j =>
        (Ret VNone,
         (set_files (<[path c := Json j]> (<[path c := Garbage]> (files w)))
            w).2)
    | None =>
        (Raise ValueError,
         (set_files (<[path c := Garbage]> (files w)) w).2)
    end.
Proof.
  intros Hc. unfold save.
  rewrite (bind_Ret _ _ _ _ _ (get_config_at _ _ _ Hc)).
  unfold write_file at 1.
  erewrite bind_Ret; [|reflexivity].
  erewrite bind_Ret; [|reflexivity].
  cbn [heap set_files snd].
  by destruct (reify (fuel (heap w)) (heap w) (VRef self)).
Qed.

Lemma reify_config h self c :
  h !! self = Some (OConfig c) ->
  reify (fuel h) h (VRef self) = JObj <$> reify_items (length h) h (data c).
Proof. intros H. unfold fuel. rewrite reify_ref, H. done. Qed.

Lemma get_config_inv {A} self (k : Config -> M A) w r w1 :
  bind (get_config self) k w = (Ret r, w1) ->
  exists c, heap w !! self = Some (OConfig c).
Proof.
  unfold get_config, bind, deref, raise.
  destruct (heap w !! self) as [[| |c]|]; simpl; try done; eauto.
Qed.

(** X8. [save] that succeeds leaves the store as it is and writes to the
    instance's path the JSON text of its current content; saving again
    right away changes nothing. *)
Theorem save_is_idempotent (self : loc) (w : World) (r : val) (w1 : World) :
  save self w = (Ret r, w1) ->
  save self w1 = (Ret r, w1)
  /\ heap w1 = heap w
  /\ exists c j, config_at w self = Some c
                 /\ files w1 !! path c = Some (Json j)
                 /\ reify (fuel (heap w)) (heap w) (VRef self) = Some j.
Proof.
  intros Hs.
  destruct (get_config_inv _ _ _ _ _ Hs) as [c Hc].
  rewrite (save_spec _ _ _ Hc) in Hs.
  destruct (reify (fuel (heap w)) (heap w) (VRef self)) as [j|] eqn:Hr;
    [|done].
  simplify_eq. split; [|split; [done|]].
  - rewrite (save_spec self c) by done. cbn [heap set_files snd]. rewrite Hr.
    cbn [files set_files snd]. f_equal. destruct w; simpl. f_equal.
    by rewrite (insert_insert_eq (<[_ := Json j]> _)), insert_insert_eq.
  - exists c, j. unfold config_at. rewrite Hc. simpl.
    by rewrite lookup_insert_eq.
Qed.

Lemma reify_items_get_fwd n h d kvs k v :
  reify_items n h d = Some kvs -> dict_get d k = Some v ->
  exists j, json_get kvs k = Some j /\ reify n h v = Some j.
Proof.
  unfold reify_items. intros H. apply mapM_Some in H.
  induction H as [|[k0 v0] [k1 j1] its snap H0 _ IH]; simpl; [done|].
  simpl in H0. apply fmap_Some in H0 as (j & Hj & ?). simplify_eq.
  destruct (String.eqb _ k); [|done]. intros ?; simplify_eq. eauto.
Qed.

Lemma reify_scalar_inj n m h h' v v' j :
  scalar v = true -> reify n h v = Some j -> reify m h' v' = Some j ->
  v' = v.
Proof.
  intros Hs Hv Hv'. destruct v; try done; destruct n; simpl in Hv;
    simplify_eq.
  all: destruct v' as [ | | | |l]; destruct m; simpl in Hv'; simplify_eq;
    try done.
  all: destruct (shape <$> h' !! l) as [[?|?]|]; simpl in Hv'; try done.
  all: by apply fmap_Some in Hv' as (? & ? & ?).
Qed.

(** What [previous] returns, in terms of the snapshot read as JSON. *)
Lemma previous_of_snapshot self w kvs k :
  snapshot_of w self = Some (JObj kvs) ->
  match json_get kvs k with
  | Some j => exists v, previous self k w = (Ret v, w)
                        /\ reify (length (heap w)) (heap w) v = Some j
  | None => previous self k w = (Ret VNone, w)
  end.
Proof.
  unfold snapshot_of. intros Hs.
  destruct (heap w !! self) as [[| |c]|] eqn:Hc; try done.
  destruct (_prev_dict c) as [ | | | |p] eqn:Hp; try done.
  unfold fuel in Hs. rewrite reify_ref in Hs.
  destruct (heap w !! p) as [o|] eqn:Ho; [|done]. simpl in Hs.
  destruct (shape o) as [vs|its] eqn:Es.
  { by apply fmap_Some in Hs as (? & ? & ?). }
  apply fmap_Some in Hs as (kvs' & Hs & Heq). injection Heq as ->.
  fold (reify_items (length (heap w)) (heap w) its) in Hs.
  pose proof (reify_items_get _ _ _ _ k Hs) as Hk.
  assert (previous self k w
          = (Ret (default VNone (dict_get its k)), w)) as Hprev.
  { unfold previous.
    rewrite (bind_Ret _ _ _ _ _ (get_config_at _ _ _ Hc)).
    erewrite bind_Ret; [|reflexivity]. rewrite Hp. simpl. rewrite Ho.
    simpl. rewrite Es. destruct its as [|kv its']; [done|].
    by apply (get_at p o). }
  rewrite Hprev. destruct (json_get _ k) as [j|].
  - destruct Hk as (v & -> & Hv). eauto.
  - by rewrite Hk.
Qed.

(** X9. Round trip through the disk.  After a [save] to the default
    path, an instance constructed on the files it left has as previous
    snapshot the content that was saved, and [previous(k)] returns the
    saved value for every key of a scalar value. *)
Theorem save_then_load (self : loc) (w : World) (r : val) (w1 : World)
    (c : Config) (dir : string) (d : items) (w' : World) (self' : loc)
    (w2 : World) :
  config_at w self = Some c ->
  save self w = (Ret r, w1) ->
  files w' = files w1 ->
  environ w' !! "CHARM_DIR" = Some dir ->
  path c = path_join dir CONFIG_FILE_NAME ->
  Config_init d w' = (Ret self', w2) ->
  exists kvs,
    reify (fuel (heap w)) (heap w) (VRef self) = Some (JObj kvs)
    /\ snapshot_of w2 self' = Some (JObj kvs)
    /\ forall k v, dict_get (data c) k = Some v -> scalar v = true ->
                   previous self' k w2 = (Ret v, w2).
Proof.
  intros Hc Hs Hf Hd Hp Hi.
  assert (heap w !! self = Some (OConfig c)) as Hc'.
  { unfold config_at in Hc. by destruct (heap w !! self) as [[| |?]|];
      simplify_eq. }
  rewrite (save_spec _ _ _ Hc') in Hs.
  rewrite (reify_config _ _ _ Hc') in *.
  destruct (reify_items (length (heap w)) (heap w) (data c)) as [kvs|] eqn:Hr;
    [|done].
  simpl in Hs. simplify_eq. exists kvs. split; [done|].
  assert (files w' !! path_join dir CONFIG_FILE_NAME = Some (Json (JObj kvs)))
    as Hfile.
  { rewrite Hf. simpl. rewrite Hp. apply lookup_insert_eq. }
  destruct (Config_init_merges d w' dir kvs self' w2 Hd Hfile Hi)
    as (c2 & _ & Hsnap & _).
  split; [done|]. intros k v Hk Hv.
  destruct (reify_items_get_fwd _ _ _ _ _ _ Hr Hk) as (j & Hj & Hrv).
  pose proof (previous_of_snapshot self' w2 kvs k Hsnap) as Hprev.
  rewrite Hj in Hprev. destruct Hprev as (v' & Hprev & Hrv').
  by rewrite (reify_scalar_inj _ _ _ _ v v' j Hv Hrv Hrv') in Hprev.
Qed.

(** X10. [save] opens the file for writing before it serializes.  On an
    instance that contains itself [json.dump] raises [ValueError], the
    file is left without valid JSON, and the next construction on these
    files raises [ValueError] from [load_previous]. *)
Theorem failed_save_empties_the_file (self : loc) (w : World) (c : Config)
    (dir : string) (d : items) (w' : World) :
  config_at w self = Some c ->
  reify (fuel (heap w)) (heap w) (VRef self) = None ->
  files w' = files (save self w).2 ->
  environ w' !! "CHARM_DIR" = Some dir ->
  path c = path_join dir CONFIG_FILE_NAME ->
  (save self w).1 = Raise ValueError
  /\ files (save self w).2 !! path c = Some Garbage
  /\ (Config_init d w').1 = Raise ValueError.
Proof.
  intros Hc Hr Hf Hd Hp.
  assert (heap w !! self = Some (OConfig c)) as Hc'.
  { unfold config_at in Hc. by destruct (heap w !! self) as [[| |?]|];
      simplify_eq. }
  revert Hf. rewrite (save_spec _ _ _ Hc'), Hr. simpl. intros Hf.
  split; [done|]. split; [apply lookup_insert_eq|].
  unfold Config_init.
  erewrite bind_Ret; [|unfold charm_dir; by rewrite Hd].
  cbv beta iota zeta.
  rewrite (bind_Ret _ _ _ _ _ (alloc_spec _ _)).
  rewrite (bind_Ret _ _ _ _ _ (path_exists_spec _ _)).
  cbn [files set_heap snd]. rewrite Hf, <- Hp, lookup_insert_eq.
  rewrite bool_decide_eq_true_2 by (by eexists).
  unfold bind at 1. unfold load_previous.
  erewrite bind_Ret; [|apply get_config_at; simpl;
                       by rewrite lookup_app_r, Nat.sub_diag].
  rewrite (bind_Ret _ _ _ _ _ (store_spec _ _ _)).
  unfold bind at 1. rewrite read_file_spec.
  cbn [files set_heap snd path]. rewrite lookup_insert_eq.
  done.
Qed.

Lemma Config_init_start d w dir :
  environ w !! "CHARM_DIR" = Some dir ->
  let p := path_join dir CONFIG_FILE_NAME in
  let self := length (heap w) in
  let w0 := (set_heap (heap w ++ [OConfig (fresh_config d p)]) w).2 in
  heap w0 !! self = Some (OConfig (fresh_config d p))
  /\ Config_init d w
     = ((if bool_decide (is_Some (files w !! p))
         then load_previous self None else ret VNone);;
        atexit (ImplicitSaveOf self) [] [];; ret self) w0.
Proof.
  intros Hd p self w0. split.
  { simpl. unfold self. by rewrite lookup_app_r, Nat.sub_diag. }
  unfold Config_init.
  erewrite bind_Ret; [|unfold charm_dir; by rewrite Hd].
  cbv beta iota zeta.
  rewrite (bind_Ret _ _ _ _ _ (alloc_spec _ _)).
  by rewrite (bind_Ret _ _ _ _ _ (path_exists_spec _ _)).
Qed.

Lemma Config_init_garbage d w dir :
  environ w !! "CHARM_DIR" = Some dir ->
  files w !! path_join dir CONFIG_FILE_NAME = Some Garbage ->
  Config_init d w
  = (Raise ValueError,
     (set_heap (heap w ++ [OConfig (fresh_config d
                             (path_join dir CONFIG_FILE_NAME))]) w).2).
Proof.
  intros Hd Hf. destruct (Config_init_start d w dir Hd) as [Hc ->].
  rewrite Hf, bool_decide_eq_true_2 by (by eexists).
  unfold bind at 1. unfold load_previous.
  rewrite (bind_Ret _ _ _ _ _ (get_config_at _ _ _ Hc)).
  erewrite bind_Ret; [|apply store_same; exact Hc].
  unfold bind at 1. rewrite read_file_spec.
  cbn [files set_heap snd path fresh_config]. by rewrite Hf.
Qed.

Lemma json_load_object kvs w :
  exists l its h',
    json_load (Json (JObj kvs)) w = (Ret (VRef l), (set_heap h' w).2)
    /\ h' !! l = Some (ODict its)
    /\ built (JObj kvs) (heap w) (VRef l) h'.
Proof.
  destruct (json_load_built (JObj kvs) w) as (v & h' & Hj & Hb).
  destruct (built_obj _ _ _ _ Hb) as (l & its & -> & _ & Hcell & _).
  by exists l, its, h'.
Qed.

(** X11. With [json] and [Config] bound in the module, when the
    snapshot file exists but does not parse, the [ValueError] of the
    constructor is caught by [config]: [config()] returns [None] although
    [config-get] answered with a JSON object, no exit callback is
    registered, and [None] is what the cache keeps. *)
Theorem corrupt_snapshot_gives_None (g : list string) (addr : string)
    (w : World) (dir : string) (kvs : list (string * json)) (key : string) :
  binds g "json" = true ->
  binds g "Config" = true ->
  environ w !! "CHARM_DIR" = Some dir ->
  files w !! path_join dir CONFIG_FILE_NAME = Some Garbage ->
  tool w ["config-get"; "--format=json"] = Output (Json (JObj kvs)) ->
  key_of (config_func g addr) [] [] w = Some key ->
  cache w !! key = None ->
  let r := config g addr [] [] w in
  r.1 = Ret VNone
  /\ _atexit r.2 = _atexit w
  /\ cache r.2 !! key = Some VNone.
Proof.
  intros Hjs HC Hd Hf Ht Hk Hm.
  assert (exists w1, config_call g [] [] w = (Ret VNone, w1)
                     /\ _atexit w1 = _atexit w) as (w1 & Hcall & Hat).
  { cbn [config_call]. rewrite (config_body_bound g VNone _ w Hjs eq_refl).
    unfold try_except.
    set (w0 := (set_ran (ran w ++ [["config-get"; "--format=json"]]) w).2).
    assert (check_output ["config-get"; "--format=json"] w
            = (Ret (Json (JObj kvs)), w0)) as Hco.
    { rewrite check_output_spec. by rewrite Ht. }
    rewrite (bind_Ret _ _ _ _ _ Hco).
    destruct (json_load_object kvs w0) as (l & its & h' & Hj & Hcell & _).
    rewrite (bind_Ret _ _ _ _ _ Hj).
    rewrite (bind_Ret _ _ _ _ _ (global_bound _ _ _ HC)).
    assert (dict_of (VRef l) (set_heap h' w0).2
            = (Ret its, (set_heap h' w0).2)) as Hdict.
    { unfold dict_of, bind, deref. simpl. by rewrite Hcell. }
    rewrite (bind_Ret _ _ _ _ _ Hdict).
    erewrite bind_Raise; [|by apply (Config_init_garbage its _ dir)].
    simpl. eexists. split; [reflexivity|done]. }
  cbv zeta. unfold config. rewrite (cached_miss _ _ _ _ _ Hk Hm).
  cbn [fn_call config_func]. rewrite Hcall. simpl.
  split; [done|]. split; [done|]. apply lookup_insert_eq.
Qed.

Lemma built_not_object j h v h' :
  built j h v h' -> is_object j = false ->
  forall w, heap w = h' -> val_items v w = (Raise AttributeError, w).
Proof.
  intros Hb Hj w Hw. pose proof (built_fuel _ _ _ _ Hb) as Hf.
  destruct v as [ | | | |l]; try done.
  unfold fuel in Hf. rewrite reify_ref in Hf.
  unfold val_items, bind, deref. rewrite Hw.
  destruct (h' !! l) as [o|]; [|done]. simpl in *.
  destruct (shape o) as [vs|its]; [done|].
  apply fmap_Some in Hf as (kvs & _ & ->). done.
Qed.

(** What [load_previous] does with a snapshot that is JSON but no object. *)
Lemma load_previous_not_object self c j w :
  heap w !! self = Some (OConfig c) ->
  files w !! path c = Some (Json j) ->
  is_object j = false ->
  exists w1 v,
    load_previous self None w = (Raise AttributeError, w1)
    /\ config_at w1 self = Some (with_prev c v)
    /\ reify (fuel (heap w1)) (heap w1) v = Some j
    /\ _atexit w1 = _atexit w /\ cache w1 = cache w /\ files w1 = files w.
Proof.
  intros Hc Hf Hj.
  assert (self < length (heap w)) as Hlt by (by eapply lookup_lt_Some).
  destruct (json_load_built j w) as (v & h2 & Hl & Hb).
  set (h3 := <[self := OConfig (with_prev c v)]> h2).
  assert (length (heap w) <= length h2) as Hlen.
  { destruct Hb as (ext & -> & _). rewrite length_app. lia. }
  assert (forall h, length h2 <= length h ->
            agree (length (heap w)) (length h2) h2 h ->
            reify (fuel h) h v = Some j) as Hre.
  { intros h Hle Hag. pose proof (built_fuel _ _ _ _ Hb) as Hr.
    pose proof (built_closed _ _ _ _ Hb) as Hcl.
    rewrite (reify_agree (length (heap w)) (length h2) h2); [|done|done|].
    - eapply reify_mono; [|exact Hr]. unfold fuel. lia.
    - by destruct Hb as (ext & -> & _ & Hw & _). }
  assert (reify (fuel h3) h3 v = Some j) as Hr3.
  { apply Hre; [unfold h3; by rewrite length_insert|].
    by apply agree_insert. }
  destruct (deepcopy_built j v (set_heap h3 w).2 Hr3)
    as (cp & h4 & Hd & Hb').
  simpl in Hb'.
  exists (set_heap h4 w).2, v.
  assert (h2 !! self = Some (OConfig c)) as Hc2.
  { destruct Hb as (ext & -> & _). by apply lookup_app_l_Some. }
  assert (h4 !! self = Some (OConfig (with_prev c v))) as Hc4.
  { destruct Hb' as (ext & -> & _). apply lookup_app_l_Some.
    unfold h3. apply list_lookup_insert_eq. lia. }
  split; [|split; [|split]].
  - unfold load_previous.
    rewrite (bind_Ret _ _ _ _ _ (get_config_at _ _ _ Hc)).
    erewrite bind_Ret; [|apply store_same; by destruct c].
    erewrite bind_Ret; [|unfold read_file; by rewrite Hf].
    erewrite bind_Ret; [|exact Hl].
    erewrite bind_Ret; [|by apply get_config_at].
    erewrite bind_Ret; [|reflexivity].
    erewrite bind_Ret; [|exact Hd].
    erewrite bind_Raise; [done|].
    by apply (built_not_object j h3 cp h4).
  - unfold config_at. simpl. by rewrite Hc4.
  - simpl. apply Hre.
    + destruct Hb' as (ext & -> & _). rewrite length_app. unfold h3.
      rewrite length_insert. lia.
    + intros l Hl'. destruct Hb' as (ext & -> & _).
      rewrite lookup_app_l by (unfold h3; rewrite length_insert; lia).
      apply list_lookup_insert_ne. lia.
  - done.
Qed.

(** X12. A snapshot file that holds JSON other than an object makes the
    constructor raise [AttributeError] (from [.items()] on the copy),
    before the exit callback is registered. *)
Theorem snapshot_must_be_an_object (d : items) (w : World) (dir : string)
    (j : json) :
  environ w !! "CHARM_DIR" = Some dir ->
  files w !! path_join dir CONFIG_FILE_NAME = Some (Json j) ->
  is_object j = false ->
  (Config_init d w).1 = Raise AttributeError
  /\ _atexit (Config_init d w).2 = _atexit w.
Proof.
  intros Hd Hf Hj. destruct (Config_init_start d w dir Hd) as [Hc ->].
  rewrite Hf, bool_decide_eq_true_2 by (by eexists).
  destruct (load_previous_not_object _ _ j _ Hc Hf Hj)
    as (w1 & v & Hl & _ & _ & Hat & _).
  erewrite bind_Raise; [|exact Hl]. done.
Qed.

(** X13. [load_previous(path)] assigns [self.path] before it opens the
    file: with a non-empty path that does not exist it raises
    [FileNotFoundError], and the instance keeps the new path, with its
    other attributes unchanged. *)
Theorem load_previous_missing_file (self : loc) (s : string) (w : World)
    (c : Config) :
  config_at w self = Some c ->
  s <> "" ->
  files w !! s = None ->
  let r := load_previous self (Some s) w in
  r.1 = Raise FileNotFoundError
  /\ config_at r.2 self
     = Some {| data := data c; implicit_save := implicit_save c;
               _prev_dict := _prev_dict c; path := s |}.
Proof.
  intros Hc Hs Hf.
  assert (heap w !! self = Some (OConfig c)) as Hc'.
  { unfold config_at in Hc. by destruct (heap w !! self) as [[| |?]|];
      simplify_eq. }
  assert (self < length (heap w)) as Hlt by (by eapply lookup_lt_Some).
  assert (load_previous self (Some s) w
          = (Raise FileNotFoundError,
             (set_heap (<[self := OConfig
                             {| data := data c;
                                implicit_save := implicit_save c;
                                _prev_dict := _prev_dict c; path := s |}]>
                          (heap w)) w).2)) as ->.
  { unfold load_previous.
    rewrite (bind_Ret _ _ _ _ _ (get_config_at _ _ _ Hc')).
    destruct (String.eqb s "") eqn:E; [by apply String.eqb_eq in E|].
    rewrite (bind_Ret _ _ _ _ _ (store_spec _ _ _)).
    unfold bind at 1. rewrite read_file_spec.
    cbn [files set_heap snd]. by rewrite Hf. }
  split; [done|]. unfold config_at. simpl.
  by rewrite list_lookup_insert_eq.
Qed.

(** X14. With [json] and [Config] bound in the module, and without
    [CHARM_DIR] in the environment, [charm_dir()] is [None] and the
    constructor raises [TypeError] in [os.path.join]; [config()] lets it
    through after [config-get] has run, caches nothing and registers
    nothing. *)
Theorem config_needs_charm_dir (g : list string) (addr : string)
    (w : World) (kvs : list (string * json)) (key : string) :
  binds g "json" = true ->
  binds g "Config" = true ->
  environ w !! "CHARM_DIR" = None ->
  tool w ["config-get"; "--format=json"] = Output (Json (JObj kvs)) ->
  key_of (config_func g addr) [] [] w = Some key ->
  cache w !! key = None ->
  let r := config g addr [] [] w in
  r.1 = Raise TypeError
  /\ cache r.2 = cache w
  /\ _atexit r.2 = _atexit w
  /\ ran r.2 = ran w ++ [["config-get"; "--format=json"]].
Proof.
  intros Hjs HC Hd Ht Hk Hm.
  assert (exists w1, config_call g [] [] w = (Raise TypeError, w1)
                     /\ _atexit w1 = _atexit w /\ cache w1 = cache w
                     /\ ran w1 = ran w ++ [["config-get"; "--format=json"]])
    as (w1 & Hcall & Hat & Hca & Hran).
  { cbn [config_call]. rewrite (config_body_bound g VNone _ w Hjs eq_refl).
    unfold try_except.
    set (w0 := (set_ran (ran w ++ [["config-get"; "--format=json"]]) w).2).
    assert (check_output ["config-get"; "--format=json"] w
            = (Ret (Json (JObj kvs)), w0)) as Hco.
    { rewrite check_output_spec. by rewrite Ht. }
    rewrite (bind_Ret _ _ _ _ _ Hco).
    destruct (json_load_object kvs w0) as (l & its & h' & Hj & Hcell & _).
    rewrite (bind_Ret _ _ _ _ _ Hj).
    rewrite (bind_Ret _ _ _ _ _ (global_bound _ _ _ HC)).
    assert (dict_of (VRef l) (set_heap h' w0).2
            = (Ret its, (set_heap h' w0).2)) as Hdict.
    { unfold dict_of, bind, deref. simpl. by rewrite Hcell. }
    rewrite (bind_Ret _ _ _ _ _ Hdict).
    erewrite bind_Raise; [|by apply Config_init_no_dir].
    simpl. eexists. split; [reflexivity|done]. }
  cbv zeta. unfold config. rewrite (cached_miss _ _ _ _ _ Hk Hm).
  cbn [fn_call config_func]. by rewrite Hcall.
Qed.

(** ** Equality of values that read the same *)

Lemma json_wf_list xs : json_wf (JList xs) <-> Forall json_wf xs.
Proof.
  cbn [json_wf]. induction xs as [|x xs IH]; simpl.
  - split; auto.
  - rewrite IH. split; [intros [??]; by constructor|by inversion 1].
Qed.

Lemma json_wf_obj kvs :
  json_wf (JObj kvs) <-> NoDup kvs.*1 /\ Forall (fun kv => json_wf kv.2) kvs.
Proof.
  cbn [json_wf]. apply and_iff_compat_l.
  induction kvs as [|x xs IH]; simpl.
  - split; auto.
  - rewrite IH. split; [intros [??]; by constructor|by inversion 1].
Qed.

Lemma all_opt_true {A} (f : A -> option bool) l :
  Forall (fun x => f x = Some true) l -> all_opt f l = Some true.
Proof. induction 1 as [|x l Hx _ IH]; simpl; [done|]. by rewrite Hx. Qed.

Lemma scalar_eq_refl v : scalar v = true -> scalar_eq v v = true.
Proof.
  destruct v; simpl; try done; intros _.
  - by destruct b.
  - apply Z.eqb_refl.
  - apply String.eqb_refl.
Qed.

Lemma py_eq_scalar n h v : scalar v = true -> py_eq n h v v = Some true.
Proof.
  intros Hv. pose proof (scalar_eq_refl v Hv) as Hs.
  destruct v, n; simpl in *; try done; by rewrite Hs.
Qed.

Lemma reify_is_scalar n h v j :
  reify n h v = Some j -> scalar v = true \/ exists l, v = VRef l /\ 0 < n.
Proof.
  intros H. destruct v; try (by left). right. destruct n; [done|].
  exists l. split; [done|lia].
Qed.

Lemma dict_get_lookup (d : items) i k v :
  NoDup d.*1 -> d !! i = Some (k, v) -> dict_get d k = Some v.
Proof.
  revert i. induction d as [|[k0 v0] d IH]; intros i Hn Hi; [done|].
  simpl in Hn. apply NoDup_cons in Hn as [Hk0 Hn]. simpl.
  destruct i as [|i]; simpl in Hi.
  - simplify_eq. by rewrite String.eqb_refl.
  - destruct (String.eqb k0 k) eqn:E; [|by eapply IH].
    apply String.eqb_eq in E as ->. destruct Hk0.
    apply list_elem_of_fmap. exists (k, v). split; [done|].
    by eapply list_elem_of_lookup_2.
Qed.

Lemma reify_items_Forall2 n h d kvs :
  reify_items n h d = Some kvs <->
  Forall2 (fun kv kj => kv.1 = kj.1 /\ reify n h kv.2 = Some kj.2) d kvs.
Proof.
  unfold reify_items. rewrite mapM_Some. split; intros H;
    (eapply Forall2_impl; [exact H|]); intros [k v] [k' j']; simpl.
  - intros Hx. apply fmap_Some in Hx as (jx & ? & ?). by simplify_eq.
  - intros [-> Hx]. by rewrite Hx.
Qed.

(** Two values that read as the same JSON value are equal for [==]. *)
Lemma py_eq_same n : forall h a b j,
  json_wf j -> reify n h a = Some j -> reify n h b = Some j ->
  py_eq n h a b = Some true.
Proof.
  induction n as [|n IH]; intros h a b j Hwf Ha Hb.
  { destruct (reify_is_scalar _ _ _ _ Ha) as [Hs|(l & _ & ?)]; [|lia].
    rewrite (reify_scalar_inj _ _ _ _ a b j Hs Ha Hb).
    by apply py_eq_scalar. }
  destruct (reify_is_scalar _ _ _ _ Ha) as [Hs|(la & -> & _)].
  { rewrite (reify_scalar_inj _ _ _ _ a b j Hs Ha Hb).
    by apply py_eq_scalar. }
  destruct (reify_is_scalar _ _ _ _ Hb) as [Hs|(lb & -> & _)].
  { by rewrite <- (reify_scalar_inj _ _ _ _ b (VRef la) j Hs Hb Ha) in Hs. }
  rewrite reify_ref in Ha, Hb. cbn [py_eq].
  destruct (shape <$> h !! la) as [[xs|d]|]; [| |done];
    destruct (shape <$> h !! lb) as [[ys|e]|]; try done.
  - apply fmap_Some in Ha as (js & Ha & ->).
    apply fmap_Some in Hb as (js' & Hb & ?). simplify_eq.
    apply json_wf_list in Hwf.
    apply mapM_Some in Ha, Hb.
    rewrite (Forall2_length _ _ _ Ha), (Forall2_length _ _ _ Hb).
    rewrite Nat.eqb_refl. simpl. apply all_opt_true.
    apply Forall_forall. intros [x y] Hxy. simpl.
    apply list_elem_of_lookup in Hxy as [i Hi].
    apply lookup_zip_with_Some in Hi as (x' & y' & ? & Hx & Hy).
    simplify_eq.
    destruct (Forall2_lookup_l _ _ _ _ _ Ha Hx) as (jx & Hjx & Hrx).
    destruct (Forall2_lookup_l _ _ _ _ _ Hb Hy) as (jy & Hjy & Hry).
    simplify_eq. destruct (same_object x' y'); [done|].
    eapply IH; [|exact Hrx|exact Hry].
    eapply Forall_lookup_1; [exact Hwf|exact Hjx].
  - apply fmap_Some in Ha as (js & _ & ->).
    by apply fmap_Some in Hb as (js' & _ & ?).
  - apply fmap_Some in Ha as (js & _ & ->).
    by apply fmap_Some in Hb as (js' & _ & ?).
  - apply fmap_Some in Ha as (kvs & Ha & ->).
    apply fmap_Some in Hb as (kvs' & Hb & Heq). injection Heq as ?.
    subst kvs'.
    apply json_wf_obj in Hwf as [Hnd Hwf].
    fold (reify_items n h d) in Ha. fold (reify_items n h e) in Hb.
    apply reify_items_Forall2 in Ha, Hb.
    rewrite (Forall2_length _ _ _ Ha), (Forall2_length _ _ _ Hb).
    rewrite Nat.eqb_refl. simpl. apply all_opt_true.
    assert (e.*1 = kvs.*1) as Hkeys.
    { clear -Hb. induction Hb as [|[??] [??] ?? [??] _ IHb]; simpl in *;
        [done|]. by f_equal. }
    apply Forall_forall. intros [k x] Hkx. simpl.
    apply list_elem_of_lookup in Hkx as [i Hi].
    destruct (Forall2_lookup_l _ _ _ _ _ Ha Hi) as ([k1 jx] & Hjx & ? & Hrx).
    destruct (Forall2_lookup_r _ _ _ _ _ Hb Hjx) as ([k2 y] & Hy & ? & Hry).
    simpl in *. simplify_eq.
    rewrite (dict_get_lookup e i k1 y); [|by rewrite Hkeys|done].
    destruct (same_object x y); [done|].
    eapply IH; [|exact Hrx|exact Hry].
    eapply (Forall_lookup_1 _ _ _ _ Hwf Hjx).
Qed.

Lemma json_wf_get kvs k j :
  json_wf (JObj kvs) -> json_get kvs k = Some j -> json_wf j.
Proof.
  intros Hwf. apply json_wf_obj in Hwf as [_ Hwf].
  induction Hwf as [|[k0 j0] kvs H0 _ IH]; simpl; [done|].
  destruct (String.eqb k0 k); [|done]. by intros ?; simplify_eq.
Qed.

(** An instance whose value under [k] reads as the snapshot's does not
    report [k] as changed. *)
Lemma changed_same self w kvs k j c v :
  snapshot_of w self = Some (JObj kvs) ->
  json_get kvs k = Some j -> json_wf j ->
  config_at w self = Some c ->
  dict_get (data c) k = Some v ->
  reify (fuel (heap w)) (heap w) v = Some j ->
  changed self k w = (Ret false, w).
Proof.
  intros Hs Hj Hwf Hc Hk Hv.
  assert (heap w !! self = Some (OConfig c)) as Hc'.
  { unfold config_at in Hc. by destruct (heap w !! self) as [[| |?]|];
      simplify_eq. }
  pose proof (previous_of_snapshot self w kvs k Hs) as Hp. rewrite Hj in Hp.
  destruct Hp as (v0 & Hp & Hv0).
  unfold changed. rewrite (bind_Ret _ _ _ _ _ (get_config_at _ _ _ Hc')).
  assert (_prev_dict c <> VNone) as Hne.
  { unfold snapshot_of in Hs. rewrite Hc' in Hs. by destruct (_prev_dict c). }
  assert ((let* p := previous self k in let* g := get self k in py_ne p g) w
          = (Ret false, w)) as Hgoal.
  { rewrite (bind_Ret _ _ _ _ _ Hp).
    rewrite (bind_Ret _ _ _ _ _ (get_at self _ _ k _ Hc' eq_refl)).
    rewrite Hk. simpl. unfold py_ne.
    rewrite (py_eq_same _ _ v0 v j Hwf); [done| |done].
    eapply reify_mono; [|exact Hv0]. unfold fuel. lia. }
  by destruct (_prev_dict c).
Qed.

(** X15. A key that only the snapshot has is copied into the instance by
    the constructor, and [changed] returns [False] for it, also when its
    value is a nested list or object. *)
Theorem merged_key_is_unchanged (d : items) (w : World) (dir : string)
    (snap : list (string * json)) (self : loc) (w1 : World) (k : string)
    (j : json) :
  environ w !! "CHARM_DIR" = Some dir ->
  files w !! path_join dir CONFIG_FILE_NAME = Some (Json (JObj snap)) ->
  json_wf (JObj snap) ->
  Config_init d w = (Ret self, w1) ->
  dict_get d k = None ->
  json_get snap k = Some j ->
  changed self k w1 = (Ret false, w1).
Proof.
  intros Hd Hf Hwf Hi Hk Hj.
  destruct (Config_init_merges d w dir snap self w1 Hd Hf Hi)
    as (c & Hc & Hs & Hkeys).
  specialize (Hkeys k). rewrite Hk, Hj in Hkeys.
  destruct Hkeys as (v & Hv & Hr).
  eapply changed_same; eauto. by eapply json_wf_get.
Qed.

(** X16. After construction, a container that [get(k)] returns is never
    the object that [previous(k)] returns: the merged values are copies. *)
Theorem merged_value_is_a_copy (d : items) (w : World) (dir : string)
    (snap : list (string * json)) (self : loc) (w1 : World) (k : string)
    (l l0 : loc) :
  heap_ok (heap w) ->
  Forall (within 0 (length (heap w))) d.*2 ->
  environ w !! "CHARM_DIR" = Some dir ->
  files w !! path_join dir CONFIG_FILE_NAME = Some (Json (JObj snap)) ->
  Config_init d w = (Ret self, w1) ->
  get self k w1 = (Ret (VRef l), w1) ->
  previous self k w1 = (Ret (VRef l0), w1) ->
  l <> l0.
Proof.
  intros Hok Hdv Hd Hf Hi Hget Hprev.
  destruct (Config_init_sealed d w dir snap self w1 Hok Hdv Hd Hf Hi)
    as (a & b & pv & Hself & Hpv & Hattr & [Hb Hs] & Hcl & Hr).
  apply attr_at_Some in Hattr as (c & Hc & Hp).
  (* the current value lies outside the snapshot *)
  assert (outside a b (VRef l)) as Hout.
  { rewrite (get_at self _ _ k _ Hc eq_refl) in Hget.
    destruct (dict_get (data c) k) as [v|] eqn:E; simplify_eq/=.
    assert (Forall (outside a b) (obj_vals (OConfig c))) as Hvals
      by (apply (Hs _ _ Hc); lia).
    by apply (dict_get_vals _ _ _ _ Hvals E). }
  (* the previous value lies inside *)
  assert (within a b (VRef l0)) as Hin.
  { unfold previous in Hprev.
    rewrite (bind_Ret _ _ _ _ _ (get_config_at _ _ _ Hc)) in Hprev.
    erewrite bind_Ret in Hprev; [|reflexivity]. rewrite Hp in Hprev.
    destruct (truthy (heap w1) (VRef pv)); [|by unfold ret in Hprev].
    unfold val_get, get, bind, deref, ret in Hprev.
    destruct (heap w1 !! pv) as [o|] eqn:Eo; [|done].
    pose proof (Hcl _ _ Hpv Eo) as Hvals. unfold obj_vals in Hvals.
    destruct (shape o) as [vs|its]; [done|].
    destruct (dict_get its k) as [v|] eqn:E; simplify_eq/=.
    by apply (dict_get_vals _ _ _ _ Hvals E). }
  simpl in *. lia.
Qed.

(** ** The commands of [unit.py] *)

Lemma call_spec cmd w :
  call cmd w
  = (match tool w cmd with
     | Output _ => Ret 0%Z
     | ExitNonZero => Ret 1%Z
     | NotFound => Raise FileNotFoundError
     end, (set_ran (ran w ++ [cmd]) w).2).
Proof. unfold call, bind. simpl. by destruct (tool w cmd). Qed.

(** What [log] of a string does: the hook it leaves and its result. *)
Lemma log_text (g : list string) (s : string) (level : option string)
    (h : Hook) :
  let cmd := match given level with
             | Some l => ["juju-log"; "-l"; l; s]
             | None => ["juju-log"; s]
             end in
  let line := "juju-log: " +:+ match given level with
                               | Some l => l +:+ ": " +:+ s
                               | None => s
                               end in
  let w1 := (set_ran (ran (world h) ++ [cmd]) (world h)).2 in
  log g (VStr s) level h
  = match tool (world h) cmd with
    | NotFound =>
        if binds g "errno" && binds g "sys"
        then (Ret VNone, {| world := w1; stderr := stderr h ++ [line] |})
        else (Raise NameError, {| world := w1; stderr := stderr h |})
    | _ => (Ret VNone, {| world := w1; stderr := stderr h |})
    end.
Proof.
  unfold log, lift, message_text, ret, global. cbn [world stderr].
  destruct (given level) as [l|]; simpl; rewrite call_spec;
    cbn [app]; destruct (tool (world h) _); try done;
    by destruct (binds g "errno"), (binds g "sys").
Qed.

(** X17. [log] of a string runs [juju-log] once, with [-l level] before
    the message when a non-empty level is given, and leaves the cache and
    the store as they were.  When the executable is found it returns
    [None] and prints nothing.  When it is missing, the handler needs the
    names [errno] and [sys]: with both bound it prints the message, after
    ["juju-log: "] and the level, as one line to the standard error stream
    and returns [None]; in the file as it is they are unbound and the call
    raises [NameError]. *)
Theorem log_falls_back_to_stderr (g : list string) (s : string)
    (level : option string) (h : Hook) :
  let cmd := match given level with
             | Some l => ["juju-log"; "-l"; l; s]
             | None => ["juju-log"; s]
             end in
  let r := log g (VStr s) level h in
  ran (world r.2) = ran (world h) ++ [cmd]
  /\ cache (world r.2) = cache (world h)
  /\ heap (world r.2) = heap (world h)
  /\ match tool (world h) cmd with
     | NotFound =>
         if binds g "errno" && binds g "sys"
         then r.1 = Ret VNone
              /\ stderr r.2
                 = stderr h ++ ["juju-log: " +:+ match given level with
                                                 | Some l => l +:+ ": " +:+ s
                                                 | None => s
                                                 end]
         else r.1 = Raise NameError /\ stderr r.2 = stderr h
     | _ => r.1 = Ret VNone /\ stderr r.2 = stderr h
     end.
Proof.
  cbv zeta. rewrite log_text.
  destruct (tool (world h) _); try done.
  by destruct (binds g "errno" && binds g "sys").
Qed.

(** X18. [status_set] with a state other than the four valid ones raises
    [ValueError] and runs no command. *)
Theorem status_set_rejects_unknown_state (g : list string)
    (state message : string) (h : Hook) :
  ~ In state valid_states ->
  status_set g state message h = (Raise ValueError, h).
Proof.
  intros Hn. unfold status_set.
  destruct (existsb (String.eqb state) valid_states) eqn:E; [|done].
  apply existsb_exists in E as (x & Hx & Ex).
  apply String.eqb_eq in Ex as ->. done.
Qed.

Lemma status_set_valid g state message h :
  In state valid_states ->
  let cmd := ["status-set"; state; message] in
  let text := "status-set failed: " +:+ state +:+ " " +:+ message in
  let h1 := {| world := (set_ran (ran (world h) ++ [cmd]) (world h)).2;
               stderr := stderr h |} in
  status_set g state message h
  = match tool (world h) cmd with
    | Output _ => (Ret VNone, h1)
    | ExitNonZero => log g (VStr text) (Some "INFO") h1
    | NotFound =>
        if binds g "errno" then log g (VStr text) (Some "INFO") h1
        else (Raise NameError, h1)
    end.
Proof.
  intros Hin. cbv zeta. unfold status_set.
  assert (existsb (String.eqb state) valid_states = true) as ->.
  { apply existsb_exists. exists state. split; [done|apply String.eqb_refl]. }
  cbn [negb]. unfold lift. rewrite call_spec.
  destruct (tool (world h) _); try done.
  cbn [is_OSError world stderr]. unfold global.
  by destruct (binds g "errno").
Qed.

(** X19. [status_set] with a valid state.  When [status-set] exits with
    [0] it is the only command run and the result is [None].  When it
    exits with another status, the failure is logged at level [INFO] with
    [juju-log] and the result is [None].  When [status-set] is missing,
    the handler needs the name [errno]: with it bound the failure is
    logged in the same way; in the file as it is the call raises
    [NameError] and logs nothing.  Where [juju-log] is missing too, the
    line is printed to the standard error stream, given [errno] and [sys];
    without them the call raises [NameError]. *)
Theorem status_set_falls_back_to_log (g : list string)
    (state message : string) (h : Hook) :
  In state valid_states ->
  let cmd := ["status-set"; state; message] in
  let text := "status-set failed: " +:+ state +:+ " " +:+ message in
  let logged := ["juju-log"; "-l"; "INFO"; text] in
  let r := status_set g state message h in
  let fallback :=
    ran (world r.2) = ran (world h) ++ [cmd; logged]
    /\ match tool (world h) logged with
       | NotFound =>
           if binds g "errno" && binds g "sys"
           then r.1 = Ret VNone
                /\ stderr r.2 = stderr h ++ ["juju-log: INFO: " +:+ text]
           else r.1 = Raise NameError /\ stderr r.2 = stderr h
       | _ => r.1 = Ret VNone /\ stderr r.2 = stderr h
       end in
  match tool (world h) cmd with
  | Output _ =>
      r.1 = Ret VNone
      /\ ran (world r.2) = ran (world h) ++ [cmd] /\ stderr r.2 = stderr h
  | ExitNonZero => fallback
  | NotFound =>
      if binds g "errno" then fallback
      else r.1 = Raise NameError
           /\ ran (world r.2) = ran (world h) ++ [cmd]
           /\ stderr r.2 = stderr h
  end.
Proof.
  intros Hin. cbv zeta. rewrite (status_set_valid g state message h Hin).
  set (text := "status-set failed: " +:+ state +:+ " " +:+ message).
  set (cmd := ["status-set"; state; message]).
  set (h1 := {| world := (set_ran (ran (world h) ++ [cmd]) (world h)).2;
                stderr := stderr h |}).
  assert (let r := log g (VStr text) (Some "INFO") h1 in
          ran (world r.2)
          = ran (world h) ++ [cmd; ["juju-log"; "-l"; "INFO"; text]]
          /\ match tool (world h) ["juju-log"; "-l"; "INFO"; text] with
             | NotFound =>
                 if binds g "errno" && binds g "sys"
                 then r.1 = Ret VNone
                      /\ stderr r.2
                         = stderr h ++ ["juju-log: INFO: " +:+ text]
                 else r.1 = Raise NameError /\ stderr r.2 = stderr h
             | _ => r.1 = Ret VNone /\ stderr r.2 = stderr h
             end) as Hlog.
  { cbv zeta. rewrite log_text.
    cbn [given String.eqb Ascii.eqb Bool.eqb world stderr h1 set_ran snd tool].
    destruct (tool (world h) ["juju-log"; "-l"; "INFO"; text]);
      [| |destruct (binds g "errno" && binds g "sys")];
      (split; [simpl; by rewrite <- app_assoc|done]). }
  cbv zeta in Hlog.
  destruct (tool (world h) cmd); [done|exact Hlog|].
  by destruct (binds g "errno").
Qed.

Lemma getitem_built kvs h v h' k w :
  built (JObj kvs) h v h' -> heap w = h' ->
  match json_get kvs k with
  | Some j => exists x, getitem v k w = (Ret x, w)
                        /\ reify (fuel h') h' x = Some j
  | None => getitem v k w = (Raise KeyError, w)
  end.
Proof.
  intros Hb Hw.
  destruct (built_obj _ _ _ _ Hb) as (l & its & -> & _ & Hcell & _ & Hr).
  pose proof (reify_items_get _ _ _ _ k Hr) as Hg.
  unfold getitem, bind, deref. rewrite Hw, Hcell. cbn [shape].
  destruct (json_get kvs k) as [j|].
  - destruct Hg as (x & -> & Hx). by exists x.
  - by rewrite Hg.
Qed.

Lemma getitem_not_object j h v h' k w :
  built j h v h' -> heap w = h' -> is_object j = false ->
  getitem v k w = (Raise TypeError, w).
Proof.
  intros Hb Hw Hj. pose proof (built_fuel _ _ _ _ Hb) as Hf.
  destruct v as [ | | | |l]; try done.
  unfold fuel in Hf. rewrite reify_ref in Hf.
  unfold getitem, bind, deref. rewrite Hw.
  destruct (h' !! l) as [o|]; [|done]. simpl in *.
  destruct (shape o) as [vs|its]; [done|].
  apply fmap_Some in Hf as (kvs & _ & ->). done.
Qed.

(** X20. [status_get] runs [status-get] once and leaves the cache alone.
    An error status raises [CalledProcessError].  A missing executable
    gives [('unknown', '')] when [errno] is bound.  An output is parsed
    when [json] is bound: one that does not parse raises [ValueError];
    JSON other than an object raises [TypeError]; an object that lacks
    ["status"] or ["message"] raises [KeyError]; otherwise the two values
    are returned.  In the file as it is neither name is bound: a missing
    executable and every output raise [NameError]. *)
Theorem status_get_cases (g : list string) (w : World) :
  let cmd := ["status-get"; "--format=json"; "--include-data"] in
  let r := status_get g w in
  ran r.2 = ran w ++ [cmd]
  /\ cache r.2 = cache w
  /\ match tool w cmd with
     | NotFound =>
         r.1 = if binds g "errno" then Ret (VStr "unknown", VStr "")
               else Raise NameError
     | ExitNonZero => r.1 = Raise CalledProcessError
     | Output p =>
         if binds g "json" then
           match p with
           | Garbage => r.1 = Raise ValueError
           | Json (JObj kvs) =>
               match json_get kvs "status", json_get kvs "message" with
               | Some js, Some jm =>
                   exists s m,
                     r.1 = Ret (s, m)
                     /\ reify (fuel (heap r.2)) (heap r.2) s = Some js
                     /\ reify (fuel (heap r.2)) (heap r.2) m = Some jm
               | _, _ => r.1 = Raise KeyError
               end
           | Json _ => r.1 = Raise TypeError
           end
         else r.1 = Raise NameError
     end.
Proof.
  cbv zeta. unfold status_get. rewrite check_output_spec.
  set (cmd := ["status-get"; "--format=json"; "--include-data"]).
  set (w0 := (set_ran (ran w ++ [cmd]) w).2).
  destruct (tool w cmd) as [p| |]; [|done|].
  2:{ cbn [is_OSError]. unfold bind, global.
      by destruct (binds g "errno"). }
  destruct (binds g "json") eqn:Hjs;
    [|by rewrite (bind_Raise _ _ _ _ _ (global_unbound _ _ _ Hjs))].
  rewrite (bind_Ret _ _ _ _ _ (global_bound _ _ _ Hjs)).
  destruct p as [|j]; [done|].
  destruct (json_load_built j w0) as (v & h' & Hj & Hb).
  set (w1 := (set_heap h' w0).2) in *.
  assert (heap w1 = h') as Hh by done.
  rewrite (bind_Ret _ _ _ _ _ Hj).
  destruct (is_object j) eqn:Ho.
  - destruct j as [ | | | | |kvs]; try done.
    pose proof (getitem_built kvs _ _ _ "status" w1 Hb Hh) as Hs.
    pose proof (getitem_built kvs _ _ _ "message" w1 Hb Hh) as Hm.
    destruct (json_get kvs "status") as [js|].
    + destruct Hs as (s & Hs & Hrs). rewrite (bind_Ret _ _ _ _ _ Hs).
      destruct (json_get kvs "message") as [jm|].
      * destruct Hm as (m & Hm & Hrm). rewrite (bind_Ret _ _ _ _ _ Hm).
        split; [done|]. split; [done|]. exists s, m. unfold ret.
        cbn [fst snd]. by rewrite Hh.
      * by rewrite (bind_Raise _ _ _ _ _ Hm).
    + by rewrite (bind_Raise _ _ _ _ _ Hs).
  - pose proof (getitem_not_object j _ _ _ "status" w1 Hb Hh Ho) as Hs.
    rewrite (bind_Raise _ _ _ _ _ Hs).
    by destruct j.
Qed.

(** ** The exit callback of an instance *)

Lemma Config_init_registers d w dir self w1 :
  environ w !! "CHARM_DIR" = Some dir ->
  Config_init d w = (Ret self, w1) ->
  _atexit w1 = _atexit w ++ [(ImplicitSaveOf self, [], [])]
  /\ exists c, heap w1 !! self = Some (OConfig c) /\ implicit_save c = true.
Proof.
  intros Hd. unfold Config_init.
  erewrite bind_Ret; [|unfold charm_dir; by rewrite Hd].
  cbv beta iota zeta.
  set (c := {| data := d; implicit_save := true; _prev_dict := VNone;
               path := path_join dir CONFIG_FILE_NAME |}).
  rewrite (bind_Ret _ _ _ _ _ (alloc_spec _ _)).
  set (w0 := (set_heap (heap w ++ [OConfig c]) w).2).
  assert (heap w0 !! length (heap w) = Some (OConfig c)) as Hc.
  { simpl. by rewrite lookup_app_r, Nat.sub_diag. }
  rewrite (bind_Ret _ _ _ _ _ (path_exists_spec _ _)).
  destruct (bool_decide _).
  - destruct (load_previous_attrs (length (heap w)) None w0 c Hc)
      as (c' & Hc' & _ & Hflag).
    pose proof (keeps_load_previous _atexit (fun _ _ => eq_refl)
                  (length (heap w)) None w0) as Hat.
    unfold keeps in Hat. unfold bind at 1.
    destruct (load_previous (length (heap w)) None w0) as [[r|e] w2];
      [|done].
    simpl in Hc', Hat. intros H. unfold bind, atexit, get_world, ret in H.
    simpl in H. simplify_eq. simpl. rewrite Hat. split; [done|].
    exists c'. by split.
  - intros H. unfold bind, atexit, get_world, ret in H. simpl in H.
    simplify_eq. split; [done|]. exists c. by split.
Qed.

(** X21. The constructor registers the [_implicit_save] of the new
    instance as the last exit callback.  Run on the instance as
    constructed, the callback is [save]; once [implicit_save] has been set
    to [False] it returns [None] and writes nothing. *)
Theorem implicit_save_follows_the_flag (d : items) (w : World)
    (dir : string) (self : loc) (w1 : World) :
  environ w !! "CHARM_DIR" = Some dir ->
  Config_init d w = (Ret self, w1) ->
  let w2 := (set_implicit_save self false w1).2 in
  _atexit w1 = _atexit w ++ [(ImplicitSaveOf self, [], [])]
  /\ _implicit_save self w1 = save self w1
  /\ _implicit_save self w2 = (Ret VNone, w2)
  /\ files w2 = files w1.
Proof.
  intros Hd Hi.
  destruct (Config_init_registers d w dir self w1 Hd Hi)
    as (Hat & c & Hc & Hflag).
  assert (set_implicit_save self false w1
          = (Ret tt, (set_heap (<[self := OConfig
                        {| data := data c; implicit_save := false;
                           _prev_dict := _prev_dict c; path := path c |}]>
                        (heap w1)) w1).2)) as Hset.
  { unfold set_implicit_save.
    rewrite (bind_Ret _ _ _ _ _ (get_config_at _ _ _ Hc)).
    apply store_spec. }
  cbv zeta. rewrite Hset. cbn [snd].
  split; [exact Hat|]. split; [|split; [|done]].
  - unfold _implicit_save.
    rewrite (bind_Ret _ _ _ _ _ (get_config_at _ _ _ Hc)). by rewrite Hflag.
  - unfold _implicit_save.
    erewrite bind_Ret;
      [|apply get_config_at; simpl; apply list_lookup_insert_eq;
        by eapply lookup_lt_Some].
    done.
Qed.

(** ** The further properties at work *)

Lemma flush_function_forgets_calls_witness :
  let key := "(<function probe at 0x7f3b>, (), {})" in
  let w := (cached probe [] [] scenario).2 in
  let w' := (flush (fn_str probe) w).2 in
  cache w !! key = Some (VInt 1)
  /\ cache w' !! key = None
  /\ ran (cached probe [] [] w').2 = [["probe"]; ["probe"]].
Proof.
  intros key w w'. split; [vm_compute; reflexivity|].
  destruct (flush_function_forgets_calls probe [] [] w key) as [H1 H2].
  - vm_compute. reflexivity.
  - split; [exact H1|]. unfold w'. rewrite H2. vm_compute. reflexivity.
Defined.

Lemma config_failure_is_retried_witness :
  let cmd := ["config-get"; "--format=json"] in
  let r1 := config ("json" :: unit_py) "0x7f3a" [] [] failing_tool in
  let r2 := config ("json" :: unit_py) "0x7f3a" [] [] r1.2 in
  r1.1 = Raise CalledProcessError
  /\ r2.1 = Raise CalledProcessError
  /\ ran r2.2 = [cmd; cmd].
Proof.
  intros cmd r1 r2.
  destruct (config_failure_is_retried ("json" :: unit_py) "0x7f3a" [] []
              VNone cmd failing_tool config_key) as (H1 & _ & H3 & H4).
  - reflexivity.
  - reflexivity.
  - reflexivity.
  - vm_compute. reflexivity.
  - vm_compute. reflexivity.
  - reflexivity.
  - split; [exact H1|]. split; [exact H3|exact H4].
Defined.

Lemma config_spellings_are_cached_apart_witness :
  let cmd := ["config-get"; "port"; "--format=json"] in
  let g := "json" :: unit_py in
  let w1 := (config g "0x7f3a" [VStr "port"] [] scenario).2 in
  ran w1 = [cmd]
  /\ ran (config g "0x7f3a" [] [("scope", VStr "port")] w1).2 = [cmd; cmd].
Proof.
  intros cmd g w1. split; [vm_compute; reflexivity|].
  apply (config_spellings_are_cached_apart g "0x7f3a" [VStr "port"] []
           [] [("scope", VStr "port")] (VStr "port") cmd scenario (VRef 0) w1
           "(<function config at 0x7f3a>, ('port',), {})"
           "(<function config at 0x7f3a>, (), {'scope': 'port'})").
  - reflexivity.
  - reflexivity.
  - reflexivity.
  - reflexivity.
  - vm_compute. reflexivity.
  - vm_compute. reflexivity.
  - discriminate.
  - vm_compute. reflexivity.
  - vm_compute. reflexivity.
Defined.

Lemma save_is_idempotent_witness :
  let w := (Config_init [("port", VInt 80)] first_run).2 in
  let w1 := (save 0 w).2 in
  save 0 w1 = (Ret VNone, w1)
  /\ files w !! snapshot_path = None
  /\ files w1 !! snapshot_path = Some (Json (JObj [("port", JInt 80)])).
Proof.
  intros w w1.
  destruct (save_is_idempotent 0 w VNone w1) as (H1 & _ & _).
  - vm_compute. reflexivity.
  - split; [exact H1|]. split; vm_compute; reflexivity.
Defined.

Lemma save_then_load_witness :
  let w := (Config_init [("port", VInt 80)] first_run).2 in
  let w2 := (Config_init [] (next_hook (save 0 w).2)).2 in
  snapshot_of w2 0 = Some (JObj [("port", JInt 80)])
  /\ previous 0 "port" w2 = (Ret (VInt 80), w2).
Proof.
  intros w w2.
  destruct (save_then_load 0 w VNone (save 0 w).2
              (fresh_config [("port", VInt 80)] snapshot_path) "/charm" []
              (next_hook (save 0 w).2) 0 w2) as (kvs & H1 & H2 & H3).
  - vm_compute. reflexivity.
  - vm_compute. reflexivity.
  - reflexivity.
  - reflexivity.
  - reflexivity.
  - vm_compute. reflexivity.
  - vm_compute in H1. injection H1 as <-.
    split; [exact H2|]. apply H3; reflexivity.
Defined.

Lemma failed_save_empties_the_file_witness :
  let r := save 0 looping in
  r.1 = Raise ValueError
  /\ files r.2 !! snapshot_path = Some Garbage
  /\ (Config_init [] (next_hook r.2)).1 = Raise ValueError.
Proof.
  intros r.
  apply (failed_save_empties_the_file 0 looping
           {| data := [("me", VRef 0)]; implicit_save := true;
              _prev_dict := VNone; path := snapshot_path |}
           "/charm" [] (next_hook r.2)).
  - reflexivity.
  - vm_compute. reflexivity.
  - reflexivity.
  - reflexivity.
  - reflexivity.
Defined.

Lemma corrupt_snapshot_gives_None_witness :
  let r := config ("json" :: "Config" :: unit_py) "0x7f3a" [] [] corrupt in
  r.1 = Ret VNone
  /\ _atexit r.2 = []
  /\ cache r.2 !! config_key = Some VNone.
Proof.
  apply (corrupt_snapshot_gives_None ("json" :: "Config" :: unit_py) "0x7f3a"
           corrupt "/charm" [("port", JInt 80)] config_key).
  - reflexivity.
  - reflexivity.
  - reflexivity.
  - vm_compute. reflexivity.
  - reflexivity.
  - vm_compute. reflexivity.
  - reflexivity.
Defined.

Lemma snapshot_must_be_an_object_witness :
  (Config_init [] listed).1 = Raise AttributeError
  /\ _atexit (Config_init [] listed).2 = [].
Proof.
  apply (snapshot_must_be_an_object [] listed "/charm" (JList [JInt 1])).
  - reflexivity.
  - vm_compute. reflexivity.
  - reflexivity.
Defined.

Lemma load_previous_missing_file_witness :
  let w := (Config_init [] scenario).2 in
  let r := load_previous 0 (Some "/srv/none") w in
  path_at w 0 = Some snapshot_path
  /\ r.1 = Raise FileNotFoundError
  /\ path_at r.2 0 = Some "/srv/none".
Proof.
  intros w r. split; [vm_compute; reflexivity|].
  destruct (load_previous_missing_file 0 "/srv/none" w
              {| data := [("foo", VStr "bar")]; implicit_save := true;
                 _prev_dict := VRef 1; path := snapshot_path |})
    as [H1 H2].
  - vm_compute. reflexivity.
  - discriminate.
  - vm_compute. reflexivity.
  - split; [exact H1|]. fold r in H2. unfold attr_at. by rewrite H2.
Defined.

Lemma config_needs_charm_dir_witness :
  let r := config ("json" :: "Config" :: unit_py) "0x7f3a" [] []
             no_charm_dir in
  r.1 = Raise TypeError
  /\ cache r.2 = ∅
  /\ _atexit r.2 = []
  /\ ran r.2 = [["config-get"; "--format=json"]].
Proof.
  apply (config_needs_charm_dir ("json" :: "Config" :: unit_py) "0x7f3a"
           no_charm_dir [("port", JInt 80)] config_key).
  - reflexivity.
  - reflexivity.
  - reflexivity.
  - reflexivity.
  - vm_compute. reflexivity.
  - reflexivity.
Defined.

Lemma merged_key_is_unchanged_witness :
  let w1 := (Config_init [] nested).2 in
  get 0 "hosts" w1 = (Ret (VRef 3), w1)
  /\ previous 0 "hosts" w1 = (Ret (VRef 1), w1)
  /\ changed 0 "hosts" w1 = (Ret false, w1).
Proof.
  intros w1. split; [vm_compute; reflexivity|].
  split; [vm_compute; reflexivity|].
  apply (merged_key_is_unchanged [] nested "/charm"
           [("hosts", JList [JStr "a"; JStr "b"])] 0 w1 "hosts"
           (JList [JStr "a"; JStr "b"])).
  - reflexivity.
  - vm_compute. reflexivity.
  - simpl. split; [apply NoDup_singleton|]. repeat split.
  - vm_compute. reflexivity.
  - reflexivity.
  - reflexivity.
Defined.

Lemma merged_value_is_a_copy_witness :
  let w1 := (Config_init [] nested).2 in
  heap w1 !! 3 = Some (OList [VStr "a"; VStr "b"])
  /\ heap w1 !! 1 = Some (OList [VStr "a"; VStr "b"])
  /\ 3 <> 1.
Proof.
  intros w1. split; [vm_compute; reflexivity|].
  split; [vm_compute; reflexivity|].
  apply (merged_value_is_a_copy [] nested "/charm"
           [("hosts", JList [JStr "a"; JStr "b"])] 0 w1 "hosts" 3 1).
  - intros l o H. done.
  - constructor.
  - reflexivity.
  - vm_compute. reflexivity.
  - vm_compute. reflexivity.
  - vm_compute. reflexivity.
  - vm_compute. reflexivity.
Defined.

Lemma status_set_rejects_unknown_state_witness :
  status_set unit_py "error" "hook failed" bare = (Raise ValueError, bare).
Proof.
  apply (status_set_rejects_unknown_state unit_py "error" "hook failed" bare).
  intros [H|[H|[H|[H|[]]]]]; discriminate H.
Defined.

Lemma status_set_falls_back_to_log_witness :
  let cmd := ["status-set"; "active"; "ready"] in
  let logged := ["juju-log"; "-l"; "INFO"; "status-set failed: active ready"] in
  let r := status_set unit_py "active" "ready" bare in
  let r' := status_set ("errno" :: "sys" :: unit_py) "active" "ready" bare in
  (r.1 = Raise NameError /\ ran (world r.2) = [cmd] /\ stderr r.2 = [])
  /\ ran (world r'.2) = [cmd; logged]
  /\ r'.1 = Ret VNone
  /\ stderr r'.2 = ["juju-log: INFO: status-set failed: active ready"].
Proof.
  intros cmd logged r r'. split.
  - apply (status_set_falls_back_to_log unit_py "active" "ready" bare).
    simpl. tauto.
  - destruct (status_set_falls_back_to_log ("errno" :: "sys" :: unit_py)
                "active" "ready" bare) as (H1 & H2 & H3).
    + simpl. tauto.
    + split; [exact H1|]. split; [exact H2|exact H3].
Defined.

Lemma implicit_save_follows_the_flag_witness :
  let w1 := (Config_init [("port", VInt 80)] first_run).2 in
  let w2 := (set_implicit_save 0 false w1).2 in
  _atexit w1 = [(ImplicitSaveOf 0, [], [])]
  /\ files (_implicit_save 0 w1).2 !! snapshot_path
     = Some (Json (JObj [("port", JInt 80)]))
  /\ files (_implicit_save 0 w2).2 !! snapshot_path = None.
Proof.
  intros w1 w2.
  destruct (implicit_save_follows_the_flag [("port", VInt 80)] first_run
              "/charm" 0 w1) as (H1 & H2 & H3 & H4).
  - reflexivity.
  - vm_compute. reflexivity.
  - split; [exact H1|]. split.
    + rewrite H2. vm_compute. reflexivity.
    + fold w2 in H3, H4. rewrite H3. cbn [snd]. rewrite H4.
      vm_compute. reflexivity.
Defined.
